(** * QEC-Analysis: parity-check matrices, edge crossings and syndrome circuits

    A shallow embedding of [model.py]: the parity-check matrix algebra
    ([classical_pcm], [hypergraph_pcm]), the edge-crossing analyser
    ([intersecting_edges]) and the circuit builder [StabilizerModel]
    (repetition code, surface code, hypergraph-product code), followed by
    the properties of the specification that are about them.

    Conventions of the embedding.
    - Python integers are [Z]; lengths and loop counters are [nat].
    - Python floats (noise probabilities, vertex coordinates) are exact
      rationals [Q]; nothing below depends on rounding.
    - A raised exception is the left injection of [result].
    - A numpy array is a record of its [shape] tuple and its rows.
    - A [stim.Circuit] is the sequence of instructions appended to it, a
      repeated block ([circuit * n]) being unrolled; the number of rounds
      is a natural number. *)

From Stdlib Require Import ZArith QArith Qfield Lqa Lia List String Ascii Bool.
From stdpp Require Import gmap strings list pretty.
Import ListNotations.

Local Open Scope Z_scope.

(** ** Exceptions *)

Inductive error : Type :=
  | IndexError
  | OverflowError
  | KeyError
  | ValueError
  | TypeError
  | AssertionError (msg : string).

Definition result (A : Type) : Type := (error + A)%type.

Definition ok {A : Type} (a : A) : result A := inr a.
Definition raise {A : Type} (e : error) : result A := inl e.

Definition bind {A B : Type} (m : result A) (k : A -> result B) : result B :=
  match m with
  | inl e => inl e
  | inr a => k a
  end.

Notation "'let*' x ':=' m 'in' k" := (bind m (fun x => k))
  (at level 10, x pattern, m at level 100, k at level 200).

Definition is_ok {A : Type} (m : result A) : bool :=
  match m with inr _ => true | inl _ => false end.

(** ** numpy arrays *)

(** An array of integers of dimension one or two: [shape] is numpy's shape
    tuple and [data] the rows (no row for a one-dimensional array of length
    zero, the only one-dimensional array the program builds). *)
Record ndarray : Type := NdArray {
  shape : list nat;
  data : list (list Z)
}.

(** An integer index fits a C [long] of 64 bits. *)
Definition fits_long (idx : Z) : bool :=
  (- 2 ^ 63 <=? idx) && (idx <? 2 ^ 63).

(** [a[idx] = v] on a one-dimensional array [a] of length [n].  numpy
    first converts the index to a C [long], which raises [OverflowError]
    for an integer that does not fit (64 bits on the platforms the program
    runs on); then an index in [0, n) addresses that position, an index in
    [-n, 0) is counted from the end, and anything else raises
    [IndexError]. *)
Definition setitem (vec : list Z) (idx : Z) (v : Z) : result (list Z) :=
  let n := Z.of_nat (length vec) in
  if negb (fits_long idx) then raise OverflowError
  else if (0 <=? idx) && (idx <? n) then ok (<[Z.to_nat idx := v]> vec)
  else if (- n <=? idx) && (idx <? 0) then ok (<[Z.to_nat (idx + n) := v]> vec)
  else raise IndexError.

(** [np.zeros(n)]. *)
Definition zeros (n : nat) : list Z := repeat 0 n.

(** [np.array(H, dtype=int)] of a list of rows of length [n]: the empty
    list gives the one-dimensional array of shape [(0,)]. *)
Definition np_array (n : nat) (H : list (list Z)) : ndarray :=
  match H with
  | [] => NdArray [0%nat] []
  | _ :: _ => NdArray [length H; n] H
  end.

(** ** Classical codes: [classical_pcm] *)

(** An entry of a code description: a string ([B], [C]) or an integer. *)
Inductive token : Type :=
  | TStr (s : string)
  | TInt (z : Z).

(** [t == s] for a string [s]. *)
Definition tok_is (s : string) (t : token) : bool :=
  match t with
  | TStr s' => String.eqb s' s
  | TInt _ => false
  end.

(** [clist.count(s)]. *)
Definition count_tok (s : string) (clist : list token) : nat :=
  length (List.filter (tok_is s) clist).

(** The [while] loop of [classical_pcm]: starting right after a [C], set
    the column of every integer entry until the list ends or a string is
    met. *)
Fixpoint fill_one_hot (one_hot_vec : list Z) (rest : list token)
  : result (list Z) :=
  match rest with
  | TInt idx :: rest' =>
      let* v := setitem one_hot_vec idx 1 in fill_one_hot v rest'
  | _ => ok one_hot_vec
  end.

(** The [for] loop of [classical_pcm] over the positions of [clist]: the
    list argument is the suffix [clist[i:]]. *)
Fixpoint classical_pcm_rows (num_bits : nat) (clist : list token)
  : result (list (list Z)) :=
  match clist with
  | [] => ok []
  | t :: rest =>
      if tok_is "C" t then
        let* one_hot_vec := fill_one_hot (zeros num_bits) rest in
        let* H := classical_pcm_rows num_bits rest in
        ok (one_hot_vec :: H)
      else classical_pcm_rows num_bits rest
  end.

Definition classical_pcm (clist : list token) : result ndarray :=
  let num_bits := count_tok "B" clist in
  let* H := classical_pcm_rows num_bits clist in
  ok (np_array num_bits H).

(** ** The hypergraph product: [hypergraph_pcm] *)

(** The two entries of the shape of a two-dimensional array. *)
Definition dim2 (A : ndarray) : nat * nat :=
  match shape A with
  | [r; c] => (r, c)
  | _ => (0%nat, 0%nat)
  end.

(** Row [i] of [np.eye(n)]. *)
Definition unit_row (n i : nat) : list Z :=
  map (fun j => if Nat.eqb i j then 1 else 0) (seq 0 n).

(** [np.eye(n)]. *)
Definition eye (n : nat) : ndarray :=
  NdArray [n; n] (map (unit_row n) (seq 0 n)).

(** Column [j] of an array, and [A.T]. *)
Definition column (j : nat) (A : ndarray) : list Z :=
  map (fun row => nth j row 0) (data A).

Definition transpose (A : ndarray) : ndarray :=
  let '(r, c) := dim2 A in
  NdArray [c; r] (map (fun j => column j A) (seq 0 c)).

(** A row of [np.kron(A, B)]: every entry of a row of [A] times a whole row
    of [B], and [np.kron(A, B)] itself: entry [(i * rb + k, j * cb + l)] is
    [A[i, j] * B[k, l]]. *)
Definition kron_row (ra rb : list Z) : list Z :=
  flat_map (fun a => map (Z.mul a) rb) ra.

Definition kron (A B : ndarray) : ndarray :=
  let '(ra, ca) := dim2 A in
  let '(rb, cb) := dim2 B in
  NdArray [(ra * rb)%nat; (ca * cb)%nat]
    (flat_map (fun rowa => map (kron_row rowa) (data B)) (data A)).

(** [np.append(A, B, axis=1)]: the rows side by side; numpy raises
    [ValueError] when the numbers of rows differ. *)
Definition append_axis1 (A B : ndarray) : result ndarray :=
  let '(ra, ca) := dim2 A in
  let '(rb, cb) := dim2 B in
  if Nat.eqb ra rb then ok (NdArray [ra; (ca + cb)%nat] (zip_with app (data A) (data B)))
  else raise ValueError.

(** [r, n = H.shape]: fails unless the shape has two entries. *)
Definition unpack_shape (H : ndarray) : result (nat * nat) :=
  match shape H with
  | [r; n] => ok (r, n)
  | _ => raise ValueError
  end.

Definition hypergraph_pcm (H1 H2 : ndarray) : result (ndarray * ndarray) :=
  let* (r1, n1) := unpack_shape H1 in
  let* (r2, n2) := unpack_shape H2 in
  let* HX := append_axis1 (kron H1 (eye n2)) (kron (eye r1) (transpose H2)) in
  let* HZ := append_axis1 (kron (eye n1) H2) (kron (transpose H1) (eye r2)) in
  ok (HX, HZ).

(** The matrix product [A @ B], in which the commutation law is stated:
    entry [(i, j)] is the sum of [A[i, k] * B[k, j]] over [k]. *)
Definition dot (u v : list Z) : Z :=
  fold_right Z.add 0 (zip_with Z.mul u v).

Definition matmul (A B : ndarray) : result ndarray :=
  let '(ra, ca) := dim2 A in
  let '(rb, cb) := dim2 B in
  if Nat.eqb ca rb then
    ok (NdArray [ra; cb]
          (map (fun rowa => map (fun j => dot rowa (column j B)) (seq 0 cb)) (data A)))
  else raise ValueError.

(** A well-formed two-dimensional array with [r] rows and [c] columns, and
    a binary one. *)
Definition matrix_of_shape (r c : nat) (A : ndarray) : Prop :=
  shape A = [r; c] /\ length (data A) = r /\
  Forall (fun row => length row = c) (data A).

Definition binary (A : ndarray) : Prop :=
  Forall (Forall (fun x => x = 0 \/ x = 1)) (data A).

(** Every entry is zero modulo two. *)
Definition zero_mod2 (A : ndarray) : Prop :=
  Forall (Forall (fun x => x mod 2 = 0)) (data A).

(** ** Edge crossings: [intersecting_edges] *)

Definition point : Type := (Q * Q)%type.
Definition edge : Type := (nat * nat)%type.

(** [len(a)] of an array: the first entry of its shape. *)
Definition len (A : ndarray) : nat :=
  match shape A with
  | r :: _ => r
  | [] => 0%nat
  end.

(** [a[i, j]] for indices that are not negative. *)
Definition getitem2 (A : ndarray) (i j : nat) : result Z :=
  match data A !! i with
  | Some row =>
      match row !! j with
      | Some v => ok v
      | None => raise IndexError
      end
  | None => raise IndexError
  end.

(** The index pairs [(i, j)] with [i < j < n], in the order of the two
    nested loops. *)
Definition index_pairs (n : nat) : list edge :=
  flat_map (fun i => map (pair i) (seq (S i) (n - S i))) (seq 0 n).

(** The first loop: keep the index pairs whose matrix entry is one. *)
Fixpoint select_edges (A : ndarray) (candidates : list edge)
  : result (list edge) :=
  match candidates with
  | [] => ok []
  | (i, j) :: rest =>
      let* v := getitem2 A i j in
      let* edges := select_edges A rest in
      ok (if v =? 1 then (i, j) :: edges else edges)
  end.

Definition edges_of (adjacency_matrix : ndarray) : result (list edge) :=
  select_edges adjacency_matrix (index_pairs (len adjacency_matrix)).

(** [itertools.combinations(l, 2)]. *)
Fixpoint combinations2 {A : Type} (l : list A) : list (A * A) :=
  match l with
  | [] => []
  | x :: rest => map (pair x) rest ++ combinations2 rest
  end.

(** [a > b] on rationals. *)
Definition Qgtb (a b : Q) : bool := negb (Qle_bool a b).

Definition ccw (A B C : point) : bool :=
  Qgtb ((C.2 - A.2) * (B.1 - A.1))%Q ((B.2 - A.2) * (C.1 - A.1))%Q.

Definition do_lines_intersect (line1 line2 : point * point) : bool :=
  let '(A, B) := line1 in
  let '(C, D) := line2 in
  negb (Bool.eqb (ccw A C D) (ccw B C D)) && negb (Bool.eqb (ccw A B C) (ccw A B D)).

(** [positions[v]]. *)
Definition position (positions : gmap nat point) (v : nat) : result point :=
  match positions !! v with
  | Some p => ok p
  | None => raise KeyError
  end.

(** The second loop, over the pairs of edges: a pair whose segments pass
    the test is added, as a frozen set, to the set built so far. *)
Fixpoint crossing_pairs (positions : gmap nat point)
    (pairs : list (edge * edge)) (acc : gset (gset edge))
  : result (gset (gset edge)) :=
  match pairs with
  | [] => ok acc
  | (edge1, edge2) :: rest =>
      let* a := position positions edge1.1 in
      let* b := position positions edge1.2 in
      let* c := position positions edge2.1 in
      let* d := position positions edge2.2 in
      if do_lines_intersect (a, b) (c, d)
      then crossing_pairs positions rest (acc ∪ {[ {[ edge1; edge2 ]} ]})
      else crossing_pairs positions rest acc
  end.

(** [len(set(edge1) & set(edge2)) != 0]. *)
Definition share_node (edge1 edge2 : edge) : bool :=
  bool_decide (size (({[ edge1.1; edge1.2 ]} : gset nat) ∩ {[ edge2.1; edge2.2 ]}) ≠ 0%nat).

(** The body of the third loop: [edge1, edge2 = pair] fails unless the
    frozen set has two elements. *)
Definition pair_shares_node (p : gset edge) : result bool :=
  match elements p with
  | [edge1; edge2] => ok (share_node edge1 edge2)
  | _ => raise ValueError
  end.

(** The third loop, over the elements of the set of crossing pairs. *)
Fixpoint sharing_pairs (pairs : list (gset edge)) (acc : gset (gset edge))
  : result (gset (gset edge)) :=
  match pairs with
  | [] => ok acc
  | p :: rest =>
      let* b := pair_shares_node p in
      sharing_pairs rest (if b then acc ∪ {[ p ]} else acc)
  end.

Definition intersecting_edges (adjacency_matrix : ndarray)
    (positions : gmap nat point) : result (gset (gset edge)) :=
  let* edges := edges_of adjacency_matrix in
  let* intersecting := crossing_pairs positions (combinations2 edges) ∅ in
  let* non_intersecting_pairs := sharing_pairs (elements intersecting) ∅ in
  ok (intersecting ∖ non_intersecting_pairs).

(** ** Circuits *)

(** A target of an instruction: a qubit, or a measurement record counted
    back from the end of the measurement stream ([stim.target_rec]). *)
Inductive gate_target : Type :=
  | qubit (q : Z)
  | target_rec (lookback : Z).

(** An instruction as it is appended: name, targets and arguments.  The
    checks stim makes on what it is given (a lookback is negative, the
    probabilities of a channel sum to at most one) and the way it groups
    consecutive instructions of one gate are stim's, not the builder's, and
    are not part of the embedding. *)
Record instruction : Type := Instruction {
  name : string;
  targets : list gate_target;
  gate_args : list Q
}.

Definition CNOT (a b : Z) : instruction :=
  Instruction "CNOT" [qubit a; qubit b] [].

Definition H (q : Z) : instruction :=
  Instruction "H" [qubit q] [].

Definition PAULI_CHANNEL_2 (a b : Z) (p : list Q) : instruction :=
  Instruction "PAULI_CHANNEL_2" [qubit a; qubit b] p.

Definition PAULI_CHANNEL_1 (qs : list Z) (p : list Q) : instruction :=
  Instruction "PAULI_CHANNEL_1" (map qubit qs) p.

Definition R (qs : list Z) : instruction := Instruction "R" (map qubit qs) [].
Definition M (qs : list Z) : instruction := Instruction "M" (map qubit qs) [].
Definition MR (qs : list Z) : instruction := Instruction "MR" (map qubit qs) [].

Definition DETECTOR (lookbacks : list Z) : instruction :=
  Instruction "DETECTOR" (map target_rec lookbacks) [].

Definition OBSERVABLE_INCLUDE (lookbacks : list Z) (index : Z) : instruction :=
  Instruction "OBSERVABLE_INCLUDE" (map target_rec lookbacks) [inject_Z index].

Definition QUBIT_COORDS (q row col : Z) : instruction :=
  Instruction "QUBIT_COORDS" [qubit q] [inject_Z row; inject_Z col].

(** [circuit * n]. *)
Definition repeat_circuit (c : list instruction) (n : nat) : list instruction :=
  List.concat (repeat c n).

(** [range(n)] and [np.arange(n)] for an integer [n]: empty when [n <= 0]. *)
Definition range (n : Z) : list Z := map Z.of_nat (seq 0 (Z.to_nat n)).

(** [range(len(l))]. *)
Definition range_len {A : Type} (l : list A) : list Z :=
  range (Z.of_nat (length l)).

(** [l[::2]]. *)
Fixpoint stride2 {A : Type} (l : list A) : list A :=
  match l with
  | [] => []
  | [x] => [x]
  | x :: _ :: rest => x :: stride2 rest
  end.

(** ** [StabilizerModel] *)

(** A noise argument of the constructor: one number or a list of them. *)
Inductive noise_arg : Type :=
  | NScalar (p : Q)
  | NVector (v : list Q).

(** The keyword arguments a code family reads. *)
Record kwargs : Type := Kwargs {
  distance : option Z;
  scale : option (Z * Z);
  clist1 : option (list token);
  clist2 : option (list token);
  pos : option (gmap nat point)
}.

(** [self.code_params[key]]. *)
Definition param {A : Type} (v : option A) : result A :=
  match v with
  | Some a => ok a
  | None => raise KeyError
  end.

Record StabilizerModel : Type := Model {
  circuit : list instruction;
  rounds : nat;
  qubits : list Z;
  data_qubits : list Z;
  z_check_qubits : list Z;
  x_check_qubits : list Z;
  noise_circuit : option (list Q);
  noise_data : option (list Q);
  noise_z_check : option (list Q);
  noise_x_check : option (list Q);
  code_params : kwargs
}.

Definition set_circuit (self : StabilizerModel) (c : list instruction)
  : StabilizerModel :=
  Model c (rounds self) (qubits self) (data_qubits self) (z_check_qubits self)
    (x_check_qubits self) (noise_circuit self) (noise_data self)
    (noise_z_check self) (noise_x_check self) (code_params self).

Definition set_qubits (self : StabilizerModel) (c : list instruction)
    (qs data zs xs : list Z) : StabilizerModel :=
  Model c (rounds self) qs data zs xs (noise_circuit self) (noise_data self)
    (noise_z_check self) (noise_x_check self) (code_params self).

(** *** Noise arguments *)

Definition assertion_message (what : string) (given : nat) : string :=
  (what ++ ", given " ++ pretty given ++ ".")%string.

(** A number is spread evenly over the [count] parameters of the channel; a
    list must have [count] entries.  [given] is the length the message of
    the failed assertion shows. *)
Definition normalize_noise (count : nat) (what : string) (given : result nat)
    (a : noise_arg) : result (list Q) :=
  match a with
  | NScalar p => ok (repeat (p / inject_Z (Z.of_nat count))%Q count)
  | NVector v =>
      if Nat.eqb (length v) count then ok v
      else let* n := given in raise (AssertionError (assertion_message what n))
  end.

(** [len(a)] of a noise argument: a number has no length. *)
Definition noise_len (a : noise_arg) : result nat :=
  match a with
  | NScalar _ => raise TypeError
  | NVector v => ok (length v)
  end.

(** *** Repetition code *)

(** One round: the circuit built between the dummy measurement and the
    concatenation. *)
Definition repetition_round (self : StabilizerModel) (distance : Z)
  : list instruction :=
  flat_map (fun m =>
      [CNOT (m - 1) m; CNOT (m + 1) m] ++
      match noise_circuit self with
      | Some p => [PAULI_CHANNEL_2 (m - 1) m p; PAULI_CHANNEL_2 (m + 1) m p]
      | None => []
      end) (z_check_qubits self)
  ++ match noise_data self with
     | Some p => [PAULI_CHANNEL_1 (data_qubits self) p]
     | None => []
     end
  ++ match noise_z_check self with
     | Some p => [PAULI_CHANNEL_1 (z_check_qubits self) p]
     | None => []
     end
  ++ [MR (z_check_qubits self)]
  ++ map (fun k => DETECTOR [-1 - k; -1 - k - distance])
       (range_len (z_check_qubits self)).

Definition _repetition_code (self : StabilizerModel) : result StabilizerModel :=
  let* distance := param (distance (code_params self)) in
  ok (set_circuit self
        (circuit self
         ++ [M (z_check_qubits self)]
         ++ repeat_circuit (repetition_round self distance) (rounds self)
         ++ [M (data_qubits self)]
         ++ map (fun k => DETECTOR [-1 - k; -2 - k; -2 - k - distance])
              (range_len (z_check_qubits self))
         ++ [OBSERVABLE_INCLUDE [-1] 0])).

(** *** Surface code *)

(** The grid positions [(row, col)], row by row. *)
Definition sites (scale : Z * Z) : list (Z * Z) :=
  flat_map (fun row => map (pair row) (range scale.2)) (range scale.1).

Inductive role : Type := Data | ZCheck | XCheck.

(** The role the constructor gives to the qubit at [(row, col)]. *)
Definition role_of (row col : Z) : role :=
  if row mod 2 =? 0 then
    if col mod 2 =? 0 then Data else ZCheck
  else
    if negb (col mod 2 =? 0) then Data else XCheck.

Definition is_role (r : role) (site : Z * Z) : bool :=
  match r, role_of site.1 site.2 with
  | Data, Data | ZCheck, ZCheck | XCheck, XCheck => true
  | _, _ => false
  end.

(** The qubits of a role, in the order the constructor appends them. *)
Definition qubits_of_role (r : role) (scale : Z * Z) : list Z :=
  map (fun site => site.1 * scale.2 + site.2) (List.filter (is_role r) (sites scale)).

(** What one grid position adds to a round: the gates of a Z-check or of an
    X-check and, unless [noise_circuit] is [None], their noise. *)
Definition surface_site (self : StabilizerModel) (scale : Z * Z) (row col : Z)
  : list instruction :=
  let curr_qubit := row * scale.2 + col in
  if (row mod 2 =? 0) && negb (col mod 2 =? 0) then
    [CNOT (curr_qubit - 1) curr_qubit; CNOT (curr_qubit + 1) curr_qubit]
    ++ (if row =? 0 then
          [CNOT (curr_qubit + scale.2) curr_qubit]
        else if row =? scale.1 - 1 then
          [CNOT (curr_qubit - scale.2) curr_qubit]
        else
          [CNOT (curr_qubit - scale.2) curr_qubit;
           CNOT (curr_qubit + scale.2) curr_qubit])
    ++ match noise_circuit self with
       | Some p =>
           [PAULI_CHANNEL_2 (curr_qubit - 1) curr_qubit p;
            PAULI_CHANNEL_2 (curr_qubit + 1) curr_qubit p]
           ++ (if row =? 0 then
                 [PAULI_CHANNEL_2 (curr_qubit + scale.2) curr_qubit p]
               else if row =? scale.1 - 1 then
                 [PAULI_CHANNEL_2 (curr_qubit - scale.2) curr_qubit p]
               else
                 [PAULI_CHANNEL_2 (curr_qubit - scale.2) curr_qubit p;
                  PAULI_CHANNEL_2 (curr_qubit + scale.2) curr_qubit p])
       | None => []
       end
  else if negb (row mod 2 =? 0) && (col mod 2 =? 0) then
    [H curr_qubit;
     CNOT (curr_qubit - scale.2) curr_qubit;
     CNOT (curr_qubit + scale.2) curr_qubit]
    ++ (if col =? 0 then
          [CNOT (curr_qubit + 1) curr_qubit]
        else if col =? scale.2 - 1 then
          [CNOT (curr_qubit - 1) curr_qubit]
        else
          [CNOT (curr_qubit - 1) curr_qubit; CNOT (curr_qubit + 1) curr_qubit])
    ++ [H curr_qubit]
    ++ match noise_circuit self with
       | Some p =>
           [PAULI_CHANNEL_2 (curr_qubit - scale.2) curr_qubit p;
            PAULI_CHANNEL_2 (curr_qubit + scale.2) curr_qubit p]
           ++ (if col =? 0 then
                 [PAULI_CHANNEL_2 (curr_qubit + 1) curr_qubit p]
               else if col =? scale.2 - 1 then
                 [PAULI_CHANNEL_2 (curr_qubit - 1) curr_qubit p]
               else
                 [PAULI_CHANNEL_2 (curr_qubit - 1) curr_qubit p;
                  PAULI_CHANNEL_2 (curr_qubit + 1) curr_qubit p])
       | None => []
       end
  else [].

(** The checks and their noise, then the noise on the qubits. *)
Definition surface_checks (self : StabilizerModel) (scale : Z * Z)
  : list instruction :=
  flat_map (fun site => surface_site self scale site.1 site.2) (sites scale)
  ++ match noise_data self with
     | Some p => [PAULI_CHANNEL_1 (data_qubits self) p]
     | None => []
     end
  ++ match noise_z_check self with
     | Some p => [PAULI_CHANNEL_1 (z_check_qubits self) p]
     | None => []
     end
  ++ match noise_x_check self with
     | Some p => [PAULI_CHANNEL_1 (x_check_qubits self) p]
     | None => []
     end.

(** The detectors of a round, one per check of the list [checks]. *)
Definition round_detectors (self : StabilizerModel) (checks : list Z)
  : list instruction :=
  map (fun k =>
         DETECTOR [-1 - k;
                   -1 - k - Z.of_nat (length (x_check_qubits self ++ z_check_qubits self))])
    (range_len checks).

(** "Detect changes": the measurements and detectors that end a round. *)
Definition surface_detect (self : StabilizerModel) (subcode : option string)
  : list instruction :=
  [MR (z_check_qubits self)]
  ++ (if bool_decide (subcode = Some "z_memory") then
        round_detectors self (z_check_qubits self)
        ++ [MR (x_check_qubits self)]
      else if bool_decide (subcode = Some "x_memory") then
        [MR (x_check_qubits self)]
        ++ round_detectors self (x_check_qubits self)
      else []).

Definition surface_round (self : StabilizerModel) (scale : Z * Z)
    (subcode : option string) : list instruction :=
  surface_checks self scale ++ surface_detect self subcode.

(** The detectors after the final measurement for [z_memory]: the loop over
    [k], with the variables [row] and [skip] it updates.  The remainders are
    [Z.modulo]; their divisors are not zero when the loops run (lemma
    [final_loops_divisors]). *)
Fixpoint z_final_detectors (self : StabilizerModel) (scale : Z * Z)
    (ks : list Z) (row skip : Z) : list instruction :=
  let num_data_qubits_z := scale.2 / 2 + 1 in
  let num_data_qubits_x := scale.2 / 2 in
  match ks with
  | [] => []
  | k :: rest =>
      let '(row, skip) :=
        if (k mod num_data_qubits_x =? 0) && negb (k =? 0)
        then (row + 2, skip + num_data_qubits_z) else (row, skip) in
      let lookback_records :=
        [-1 - k - Z.of_nat (length (data_qubits self ++ x_check_qubits self));
         -1 - k - skip;
         -2 - k - skip]
        ++ (if row =? 0 then
              [-2 - k - skip - num_data_qubits_x]
            else if row =? scale.1 - 1 then
              [-1 - k - skip + num_data_qubits_x]
            else
              [-1 - k - skip + num_data_qubits_x;
               -2 - k - skip - num_data_qubits_x]) in
      DETECTOR lookback_records :: z_final_detectors self scale rest row skip
  end.

(** The same for [x_memory], with the variable [skip]. *)
Fixpoint x_final_detectors (self : StabilizerModel) (scale : Z * Z)
    (ks : list Z) (skip : Z) : list instruction :=
  let num_data_qubits_z := scale.2 / 2 + 1 in
  let num_data_qubits_x := scale.2 / 2 in
  match ks with
  | [] => []
  | k :: rest =>
      let skip :=
        if (k mod num_data_qubits_z =? 0) && negb (k =? 0)
        then skip + num_data_qubits_x else skip in
      let lookback_records :=
        (if k mod num_data_qubits_z =? 0 then
           [-2 - k - skip - num_data_qubits_x]
         else if k mod num_data_qubits_z =? num_data_qubits_z - 1 then
           [-1 - k - skip - num_data_qubits_x]
         else
           [-2 - k - skip - num_data_qubits_x;
            -1 - k - skip - num_data_qubits_x])
        ++ [-1 - k - Z.of_nat (length (data_qubits self ++ x_check_qubits self));
            -1 - k - skip;
            -2 - k - skip] in
      DETECTOR lookback_records :: x_final_detectors self scale rest skip
  end.

(** The records of the logical observable. *)
Definition observable_lookback_indices (scale : Z * Z) (subcode : option string)
  : list Z :=
  let num_data_qubits_z := scale.2 / 2 + 1 in
  let num_data_qubits_x := scale.2 / 2 in
  if bool_decide (subcode = Some "z_memory") then
    map (fun k => - k * (num_data_qubits_z + num_data_qubits_x) - num_data_qubits_z)
      (range (scale.1 / 2 + 1))
  else if bool_decide (subcode = Some "x_memory") then
    map (fun k => -1 - k) (range num_data_qubits_z)
  else [].

Definition _surface_code (self : StabilizerModel) (subcode : option string)
  : result StabilizerModel :=
  let* scale := param (scale (code_params self)) in
  ok (set_circuit self
        (circuit self
         ++ [R (qubits self)]
         ++ [M (z_check_qubits self ++ x_check_qubits self)]
         ++ repeat_circuit (surface_round self scale subcode) (rounds self)
         ++ [M (data_qubits self)]
         ++ (if bool_decide (subcode = Some "z_memory") then
               z_final_detectors self scale (range_len (z_check_qubits self)) 0 0
             else if bool_decide (subcode = Some "x_memory") then
               x_final_detectors self scale (range_len (x_check_qubits self)) 0
             else [])
         ++ [OBSERVABLE_INCLUDE (observable_lookback_indices scale subcode) 0])).

(** *** Hypergraph-product code *)

(** [_hypergraph_product_code]: reads the positions, rebuilds the matrices
    and prints them; the circuit is left as it is. *)
Definition _hypergraph_product_code (self : StabilizerModel)
  : result StabilizerModel :=
  let* qubit_pos := param (pos (code_params self)) in
  let* clist1 := param (clist1 (code_params self)) in
  let* clist2 := param (clist2 (code_params self)) in
  let* H1 := classical_pcm clist1 in
  let* H2 := classical_pcm clist2 in
  let* (HX, HZ) := hypergraph_pcm H1 H2 in
  ok self.

(** The strings of a code description ([np.issubdtype(type(s), np.number)]
    holds of its integers). *)
Definition is_marker (t : token) : bool :=
  match t with
  | TStr _ => true
  | TInt _ => false
  end.

Definition markers (clist : list token) : list token :=
  List.filter is_marker clist.

Definition z_check_order (clist2 : list token) : list string :=
  map (fun s => if tok_is "B" s then "Q" else "Z") (markers clist2).

Definition x_check_order (clist2 : list token) : list string :=
  map (fun s => if tok_is "B" s then "X" else "Q") (markers clist2).

Definition check_order (clist1 clist2 : list token) : list string :=
  List.concat
    (map (fun s => if tok_is "B" s then z_check_order clist2 else x_check_order clist2)
       (markers clist1)).

(** [[q for q, s in zip(self.qubits, check_order) if s == label]]. *)
Definition qubits_labelled (label : string) (qs : list Z) (order : list string)
  : list Z :=
  map fst (List.filter (fun qs => String.eqb qs.2 label) (zip qs order)).

(** *** The constructor *)

(** [code.split(":")]. *)
Fixpoint split_colon (code : string) : list string :=
  match code with
  | EmptyString => [EmptyString]
  | String c rest =>
      if Ascii.eqb c ":" then EmptyString :: split_colon rest
      else match split_colon rest with
           | head :: tail => String c head :: tail
           | [] => [String c EmptyString]
           end
  end.

(** [main_code, subcode = code.split(":") if ":" in code else (code, None)]:
    the unpacking fails when there is more than one colon. *)
Definition parse_code (code : string) : result (string * option string) :=
  match split_colon code with
  | [main_code] => ok (main_code, None)
  | [main_code; subcode] => ok (main_code, Some subcode)
  | _ => raise ValueError
  end.

(** The constructor from [self.code_params = kwargs] on: the roles of the
    qubits and the circuit of the code family. *)
Definition build_code (self : StabilizerModel) (code : string)
  : result StabilizerModel :=
  let* (main_code, subcode) := parse_code code in
  if String.eqb main_code "repetition_code" then
    let* distance := param (distance (code_params self)) in
    let qubits := range (2 * distance + 1) in
    _repetition_code
      (set_qubits self (circuit self) qubits (stride2 qubits) (stride2 (tail qubits))
         (x_check_qubits self))
  else if String.eqb main_code "surface_code" then
    let* scale := param (scale (code_params self)) in
    if negb (scale.1 mod 2 =? 0) && negb (scale.2 mod 2 =? 0) then
      _surface_code
        (set_qubits self
           (circuit self
            ++ map (fun site => QUBIT_COORDS (site.1 * scale.2 + site.2) site.1 site.2)
                 (sites scale))
           (range (scale.1 * scale.2))
           (qubits_of_role Data scale)
           (qubits_of_role ZCheck scale)
           (qubits_of_role XCheck scale))
        subcode
    else raise (AssertionError "Scale of the surface code must be odd.")
  else if String.eqb main_code "hypergraph_product_code" then
    let* clist1 := param (clist1 (code_params self)) in
    let* clist2 := param (clist2 (code_params self)) in
    let* H1 := classical_pcm clist1 in
    let* H2 := classical_pcm clist2 in
    let num_qubits := (sum_list (shape H1) * sum_list (shape H2))%nat in
    let qubits := range (Z.of_nat num_qubits) in
    let order := check_order clist1 clist2 in
    _hypergraph_product_code
      (set_qubits self (circuit self) qubits
         (qubits_labelled "Q" qubits order)
         (qubits_labelled "Z" qubits order)
         (qubits_labelled "X" qubits order))
  else raise ValueError.

(** [StabilizerModel(code, circuit, rounds, noise_circuit, noise_data,
    noise_z_check, noise_x_check, **kwargs)]. *)
Definition StabilizerModel_init (code : string)
    (circuit : option (list instruction)) (rounds : nat)
    (noise_circuit noise_data noise_z_check noise_x_check : noise_arg)
    (kwargs : kwargs) : result StabilizerModel :=
  let* nc :=
    normalize_noise 15 "Stabilizer measurement noise takes 15 parameters"
      (noise_len noise_circuit) noise_circuit in
  let* nd :=
    normalize_noise 3 "Data qubit noise takes 3 parameters"
      (noise_len noise_data) noise_data in
  let* nz :=
    normalize_noise 3 "Z check qubit noise takes 3 parameters"
      (noise_len noise_z_check) noise_z_check in
  let* nx :=
    normalize_noise 3 "Data qubit noise takes 3 parameters"
      (noise_len noise_z_check) noise_x_check in
  build_code
    (Model (default [] circuit) rounds [] [] [] []
       (Some nc) (Some nd) (Some nz) (Some nx) kwargs)
    code.


(** ** Notions used in the statements *)

(** The connection indices of a check: the integers that directly follow
    its [C], up to the next string or the end of the description. *)
Fixpoint index_run (rest : list token) : list Z :=
  match rest with
  | TInt idx :: rest' => idx :: index_run rest'
  | _ => []
  end.

(** The connection indices of every check, in order. *)
Fixpoint index_runs (clist : list token) : list (list Z) :=
  match clist with
  | [] => []
  | t :: rest =>
      if tok_is "C" t then index_run rest :: index_runs rest
      else index_runs rest
  end.



(** Row [(i, k)] of [HX] and row [(j, l)] of [HZ], written with the rows
    and columns of [H1] and [H2]. *)
Definition hx_row (H1 H2 : ndarray) (r1 n2 i k : nat) : list Z :=
  kron_row (nth i (data H1) []) (unit_row n2 k)
  ++ kron_row (unit_row r1 i) (column k H2).

Definition hz_row (H1 H2 : ndarray) (n1 r2 j l : nat) : list Z :=
  kron_row (unit_row n1 j) (nth l (data H2) [])
  ++ kron_row (column j H1) (unit_row r2 l).

(** Entry [(i, j)] of an array, and Kronecker's delta: the entries of
    [np.eye]. *)
Definition entry (A : ndarray) (i j : nat) : Z := nth j (nth i (data A) []) 0.

Definition delta (i j : nat) : Z := if Nat.eqb i j then 1 else 0.

(** The qubits an instruction addresses. *)
Definition qubits_of (i : instruction) : list Z :=
  flat_map (fun t => match t with qubit q => [q] | target_rec _ => [] end) (targets i).

(** The measurement records an instruction refers to. *)
Definition lookbacks_of (i : instruction) : list Z :=
  flat_map (fun t => match t with qubit _ => [] | target_rec k => [k] end) (targets i).

Definition has_name (s : string) (i : instruction) : bool := String.eqb (name i) s.

(** The instructions of a circuit with a given name. *)
Definition instructions_named (s : string) (c : list instruction) : list instruction :=
  List.filter (has_name s) c.





(** The segment test on two edges, with the positions looked up. *)
Definition segments_cross (positions : gmap nat point) (edge1 edge2 : edge)
  : result bool :=
  let* a := position positions edge1.1 in
  let* b := position positions edge1.2 in
  let* c := position positions edge2.1 in
  let* d := position positions edge2.2 in
  ok (do_lines_intersect (a, b) (c, d)).









Definition path4 : ndarray :=
  NdArray [4%nat; 4%nat]
    [[0; 1; 0; 0]; [1; 0; 1; 0]; [0; 1; 0; 1]; [0; 0; 1; 0]].

Definition unit_square : gmap nat point :=
  list_to_map [(0%nat, (0, 0)%Q); (1%nat, (1, 0)%Q); (2%nat, (1, 1)%Q);
               (3%nat, (0, 1)%Q)].




(** A noise argument the constructor accepts for a channel of [count]
    parameters: a number, or a list of [count] numbers. *)
Definition noise_accepted (count : nat) (a : noise_arg) : Prop :=
  match a with
  | NScalar _ => True
  | NVector v => length v = count
  end.

(** What the constructor makes of an accepted noise argument. *)
Definition normalized (count : nat) (a : noise_arg) : list Q :=
  match a with
  | NScalar p => repeat (p / inject_Z (Z.of_nat count))%Q count
  | NVector v => v
  end.


(** The number of colons of a code string. *)
Fixpoint colons (code : string) : nat :=
  match code with
  | EmptyString => 0
  | String c rest => (if Ascii.eqb c ":" then 1 else 0) + colons rest
  end.

(** ** The measurement stream *)

(** [M] and [MR] record one measurement per target. *)
Definition is_measurement (i : instruction) : bool :=
  has_name "M" i || has_name "MR" i.

(** The records an instruction adds to the stream: the qubits it measures. *)
Definition records_of (i : instruction) : list Z :=
  if is_measurement i then qubits_of i else [].

(** The measurement stream of a circuit: for every record, in order, the
    qubit whose measurement it holds. *)
Definition record_stream (c : list instruction) : list Z :=
  flat_map records_of c.

(** The record a lookback [k] designates on a stream: [-1] is the most
    recent record; a lookback that is not negative, or reaches before the
    beginning of the stream, designates nothing. *)
Definition record_at (stream : list Z) (k : Z) : option Z :=
  if (k <? 0) && (- Z.of_nat (length stream) <=? k)
  then stream !! Z.to_nat (Z.of_nat (length stream) + k)
  else None.

(** For every instruction named [s] of a circuit appended after the records
    [stream], in order: the qubits whose measurements its lookbacks
    designate at the point where it is appended. *)
Fixpoint resolved (s : string) (stream : list Z) (c : list instruction)
  : list (list (option Z)) :=
  match c with
  | [] => []
  | i :: rest =>
      (if has_name s i then [map (record_at stream) (lookbacks_of i)] else [])
      ++ resolved s (stream ++ records_of i) rest
  end.

(** An instruction that records nothing and is neither a detector nor an
    observable. *)
Definition quiet (i : instruction) : Prop :=
  is_measurement i = false /\ has_name "DETECTOR" i = false /\
  has_name "OBSERVABLE_INCLUDE" i = false.

(** *** [shot] *)

(** The two ways [shot] fails: the floor division by [effective_rounds]
    and the reshaping. *)
Inductive shot_error : Type :=
  | ZeroDivisionError
  | ReshapeError.

(** The rows of [np.reshape(l, (a, b))]: [a] consecutive blocks of [b]
    entries; numpy raises [ValueError] unless [a * b] is the size of
    [l]. *)
Fixpoint rows_of {A : Type} (a b : nat) (l : list A) : list (list A) :=
  match a with
  | O => []
  | S a' => take b l :: rows_of a' b (drop b l)
  end.

Definition np_reshape {A : Type} (l : list A) (a b : nat) : option (list (list A)) :=
  if Nat.eqb (a * b) (length l) then Some (rows_of a b l) else None.

(** [shot(detector)].  The sample that stim draws is an argument: one
    outcome per detector of the circuit for the detector sampler, one per
    measurement record for the measurement sampler. *)
Definition shot (self : StabilizerModel) (detector : bool) (sample : list bool)
  : shot_error + list (list string) :=
  let effective_rounds := if detector then rounds self else (rounds self + 1)%nat in
  let marker := if detector then "x" else "o" in
  let round_list := map (fun outcome : bool => if outcome then marker else "_") sample in
  if Nat.eqb effective_rounds 0 then inl ZeroDivisionError
  else
    match np_reshape round_list effective_rounds (length sample / effective_rounds) with
    | Some rows => inr rows
    | None => inl ReshapeError
    end.

(** * Properties *)

(** ** [classical_pcm] *)

Section ClassicalPcm.

Lemma length_zeros (n : nat) : length (zeros n) = n.
Proof. apply repeat_length. Qed.


Lemma setitem_overflow (vec : list Z) (idx v : Z) :
  fits_long idx = false -> setitem vec idx v = raise OverflowError.
Proof. intros Hf. unfold setitem. now rewrite Hf. Qed.

Lemma setitem_ok (vec : list Z) (idx v : Z) :
  - Z.of_nat (length vec) <= idx < Z.of_nat (length vec) ->
  fits_long idx = true ->
  exists i, (i < length vec)%nat /\ setitem vec idx v = ok (<[i := v]> vec).
Proof.
  intros Hr Hf. unfold setitem. rewrite Hf. cbn [negb].
  destruct (Z.leb_spec 0 idx) as [Hp | Hn]; simpl.
  - destruct (Z.ltb_spec idx (Z.of_nat (length vec))) as [Hlt | Hge]; [| lia].
    exists (Z.to_nat idx). split; [lia | reflexivity].
  - destruct (Z.leb_spec (- Z.of_nat (length vec)) idx) as [Hl | Hl]; [| lia].
    destruct (Z.ltb_spec idx 0) as [Hlt | Hge]; [| lia]. simpl.
    exists (Z.to_nat (idx + Z.of_nat (length vec))). split; [lia | reflexivity].
Qed.

Lemma setitem_error (vec : list Z) (idx v : Z) :
  idx < - Z.of_nat (length vec) \/ Z.of_nat (length vec) <= idx ->
  fits_long idx = true ->
  setitem vec idx v = raise IndexError.
Proof.
  intros Hr Hf. unfold setitem. rewrite Hf. cbn [negb].
  destruct (Z.leb_spec 0 idx) as [Hp | Hn]; simpl.
  - destruct (Z.ltb_spec idx (Z.of_nat (length vec))) as [Hlt | Hge]; [lia |].
    destruct (Z.leb_spec (- Z.of_nat (length vec)) idx); simpl;
      [destruct (Z.ltb_spec idx 0); [lia | reflexivity] | reflexivity].
  - destruct (Z.leb_spec (- Z.of_nat (length vec)) idx) as [Hl | Hl];
      [lia | reflexivity].
Qed.

(** What a successful [a[idx] = v] is: an in-range update. *)
Lemma setitem_inv (vec vec' : list Z) (idx v : Z) :
  setitem vec idx v = ok vec' ->
  - Z.of_nat (length vec) <= idx < Z.of_nat (length vec) /\
  exists i, (i < length vec)%nat /\ vec' = <[i := v]> vec.
Proof.
  intros Hs.
  destruct (fits_long idx) eqn:Hf;
    [| rewrite setitem_overflow in Hs by exact Hf; discriminate].
  destruct (Z_lt_ge_dec idx (- Z.of_nat (length vec))) as [Hlo | Hlo].
  { rewrite setitem_error in Hs by (lia || exact Hf). discriminate. }
  destruct (Z_lt_ge_dec idx (Z.of_nat (length vec))) as [Hhi | Hhi].
  - split; [lia |].
    destruct (setitem_ok vec idx v) as (i & Hi & Heq); [lia | exact Hf |].
    exists i. split; [exact Hi |]. rewrite Heq in Hs. now inversion Hs.
  - rewrite setitem_error in Hs by (lia || exact Hf). discriminate.
Qed.

Lemma fill_one_hot_length (rest : list token) (vec vec' : list Z) :
  fill_one_hot vec rest = ok vec' -> length vec' = length vec.
Proof.
  revert vec. induction rest as [| [s | idx] rest IH]; intros vec Hf; simpl in Hf.
  - now inversion Hf.
  - now inversion Hf.
  - destruct (setitem vec idx 1) as [e | v] eqn:Hs; simpl in Hf; [discriminate |].
    apply setitem_inv in Hs as (_ & i & _ & ->).
    rewrite (IH _ Hf). apply length_insert.
Qed.

Lemma fill_one_hot_binary (rest : list token) (vec vec' : list Z) :
  Forall (fun x => x = 0 \/ x = 1) vec ->
  fill_one_hot vec rest = ok vec' ->
  Forall (fun x => x = 0 \/ x = 1) vec'.
Proof.
  revert vec. induction rest as [| [s | idx] rest IH]; intros vec Hb Hf; simpl in Hf.
  - inversion Hf. now subst.
  - inversion Hf. now subst.
  - destruct (setitem vec idx 1) as [e | v] eqn:Hs; simpl in Hf; [discriminate |].
    apply setitem_inv in Hs as (_ & i & _ & ->).
    apply (IH _ (Forall_insert _ _ _ _ Hb (or_intror eq_refl)) Hf).
Qed.

(** A one already in the vector stays there. *)
Lemma fill_one_hot_keeps_one (rest : list token) (vec vec' : list Z) :
  In 1 vec -> fill_one_hot vec rest = ok vec' -> In 1 vec'.
Proof.
  revert vec. induction rest as [| [s | idx] rest IH]; intros vec Hin Hf; simpl in Hf.
  - inversion Hf. now subst.
  - inversion Hf. now subst.
  - destruct (setitem vec idx 1) as [e | v] eqn:Hs; simpl in Hf; [discriminate |].
    apply setitem_inv in Hs as (_ & i & Hi & ->).
    apply (IH _ ) in Hf; [exact Hf |].
    apply list_elem_of_In. apply list_elem_of_In in Hin.
    apply list_elem_of_lookup in Hin as [j Hj].
    destruct (decide (i = j)) as [-> | Hne].
    + apply list_elem_of_lookup. exists j. now apply list_lookup_insert_eq.
    + apply list_elem_of_lookup. exists j. now rewrite list_lookup_insert_ne.
Qed.

Lemma fill_one_hot_has_one (rest : list token) (vec vec' : list Z) :
  index_run rest <> [] -> fill_one_hot vec rest = ok vec' -> In 1 vec'.
Proof.
  destruct rest as [| [s | idx] rest]; simpl; intros Hne Hf; try congruence.
  destruct (setitem vec idx 1) as [e | v] eqn:Hs; simpl in Hf; [discriminate |].
  apply setitem_inv in Hs as (_ & i & Hi & ->).
  apply (fill_one_hot_keeps_one rest _ _) in Hf; [exact Hf |].
  apply list_elem_of_In, list_elem_of_lookup. exists i.
  now apply list_lookup_insert_eq.
Qed.

Lemma fill_one_hot_no_run (rest : list token) (vec : list Z) :
  index_run rest = [] -> fill_one_hot vec rest = ok vec.
Proof.
  destruct rest as [| [s | idx] rest]; simpl; intros Hr;
    [reflexivity | reflexivity | discriminate].
Qed.

Lemma zeros_no_one (n : nat) : ~ In 1 (zeros n).
Proof. intros Hin. apply repeat_spec in Hin. discriminate. Qed.




End ClassicalPcm.

Lemma classical_pcm_rows_spec (n : nat) (clist : list token) (rows : list (list Z)) :
  classical_pcm_rows n clist = ok rows ->
  length rows = count_tok "C" clist /\
  Forall (fun row => length row = n) rows /\
  Forall (Forall (fun x => x = 0 \/ x = 1)) rows /\
  Forall2 (fun row run => In 1 row <-> run <> []) rows (index_runs clist).
Proof.
  revert rows. induction clist as [| t rest IH]; intros rows Hr; simpl in Hr.
  - inversion Hr. subst. repeat split; constructor.
  - unfold count_tok in *. simpl. destruct (tok_is "C" t) eqn:Ht.
    + destruct (fill_one_hot (zeros n) rest) as [e | row] eqn:Hf; simpl in Hr;
        [discriminate |].
      destruct (classical_pcm_rows n rest) as [e | rows'] eqn:Hrest; simpl in Hr;
        [discriminate |].
      inversion Hr; subst. destruct (IH rows' eq_refl) as (Hlen & Hrow & Hbin & Hone).
      repeat split.
      * simpl. now rewrite Hlen.
      * constructor; [| exact Hrow].
        rewrite (fill_one_hot_length _ _ _ Hf). apply length_zeros.
      * constructor; [| exact Hbin].
        apply (fill_one_hot_binary rest (zeros n)); [| exact Hf].
        apply List.Forall_forall. intros x Hx. apply repeat_spec in Hx. now left.
      * constructor; [| exact Hone]. split.
        -- intros Hin Hrun. rewrite fill_one_hot_no_run in Hf by exact Hrun.
           inversion Hf; subst. now apply zeros_no_one in Hin.
        -- intros Hrun. now apply (fill_one_hot_has_one rest (zeros n)).
    + apply IH. exact Hr.
Qed.

(** C7. For every code description that [classical_pcm] accepts, the
    returned matrix has exactly one row per [C] marker of the description
    and every entry of it is 0 or 1 (and every row has one entry per [B]
    marker). *)
Theorem classical_pcm_rows_and_entries (clist : list token) (H : ndarray) :
  classical_pcm clist = ok H ->
  length (data H) = count_tok "C" clist /\
  binary H /\
  Forall (fun row => length row = count_tok "B" clist) (data H).
Proof.
  unfold classical_pcm. intros Hc.
  destruct (classical_pcm_rows (count_tok "B" clist) clist) as [e | rows] eqn:Hr;
    simpl in Hc; [discriminate |].
  destruct (classical_pcm_rows_spec _ _ _ Hr) as (Hlen & Hrow & Hbin & _).
  inversion Hc; subst. unfold binary.
  destruct rows; simpl in *; auto.
Qed.

Lemma classical_pcm_rows_and_entries_witness :
  let clist := [TStr "B"; TStr "C"; TInt 0; TInt 1; TStr "B"; TStr "C"; TInt 1] in
  let H := NdArray [2%nat; 2%nat] [[1; 1]; [0; 1]] in
  length (data H) = count_tok "C" clist /\
  binary H /\
  Forall (fun row => length row = count_tok "B" clist) (data H).
Proof.
  intros clist H. apply (classical_pcm_rows_and_entries clist H). reflexivity.
Defined.

(** C5, as stated, fails: a check with no connection index gives a row of
    zeros, and the description is accepted. *)
Lemma classical_pcm_zero_row :
  classical_pcm [TStr "C"; TStr "B"] = ok (NdArray [1%nat; 1%nat] [[0]]) /\
  ~ Forall (fun row => In 1 row) (data (NdArray [1%nat; 1%nat] [[0]])).
Proof.
  split; [reflexivity |].
  intros Hall. inversion Hall as [| ? ? Hin _]; subst.
  destruct Hin as [Heq | []]. discriminate.
Qed.

(** C5, amended. When [classical_pcm] returns, a row of the matrix contains
    a 1 exactly when the check it belongs to has at least one connection
    index; in particular every row contains a 1 when every [C] is directly
    followed by an integer. *)
Theorem classical_pcm_row_has_one (clist : list token) (H : ndarray) :
  classical_pcm clist = ok H ->
  Forall2 (fun row run => In 1 row <-> run <> []) (data H) (index_runs clist) /\
  (Forall (fun run => run <> []) (index_runs clist) ->
   Forall (fun row => In 1 row) (data H)).
Proof.
  unfold classical_pcm. intros Hc.
  destruct (classical_pcm_rows (count_tok "B" clist) clist) as [e | rows] eqn:Hr;
    simpl in Hc; [discriminate |].
  destruct (classical_pcm_rows_spec _ _ _ Hr) as (_ & _ & _ & Hone).
  assert (Hdata : data H = rows).
  { inversion Hc; subst. now destruct rows. }
  rewrite Hdata. split; [exact Hone |].
  clear Hr Hc Hdata. induction Hone as [| row run rows runs Hiff _ IH]; intros Hall.
  - constructor.
  - inversion Hall; subst. constructor; [now apply Hiff | now apply IH].
Qed.

Lemma classical_pcm_row_has_one_witness :
  let clist := [TStr "B"; TStr "C"; TInt 0; TStr "B"; TStr "C"; TInt (-1)] in
  let H := NdArray [2%nat; 2%nat] [[1; 0]; [0; 1]] in
  Forall2 (fun row run => In 1 row <-> run <> []) (data H) (index_runs clist) /\
  (Forall (fun run => run <> []) (index_runs clist) ->
   Forall (fun row => In 1 row) (data H)).
Proof.
  intros clist H. apply (classical_pcm_row_has_one clist H). reflexivity.
Defined.


(** An integer that follows no [C] is never looked at. *)
Lemma classical_pcm_stray_index :
  classical_pcm [TStr "B"; TInt 7; TStr "C"; TInt 0]
  = ok (NdArray [1%nat; 1%nat] [[1]]).
Proof. reflexivity. Qed.






(** ** [hypergraph_pcm] *)

Section HypergraphPcm.

Lemma dot_nil_r (u : list Z) : dot u [] = 0.
Proof. unfold dot. now rewrite zip_with_nil_r. Qed.

Lemma dot_comm (u v : list Z) : dot u v = dot v u.
Proof.
  revert v. induction u as [| x u IH]; intros [| y v]; try reflexivity.
  unfold dot in *. simpl. rewrite IH. lia.
Qed.

Lemma dot_app (u1 u2 v1 v2 : list Z) :
  length u1 = length v1 ->
  dot (u1 ++ u2) (v1 ++ v2) = dot u1 v1 + dot u2 v2.
Proof.
  revert v1. induction u1 as [| x u1 IH]; intros [| y v1] Hlen;
    simpl in Hlen; try discriminate.
  - reflexivity.
  - injection Hlen as Hlen. unfold dot in *. simpl. rewrite (IH v1 Hlen). lia.
Qed.

Lemma dot_scale (a b : Z) (u v : list Z) :
  dot (map (Z.mul a) u) (map (Z.mul b) v) = a * b * dot u v.
Proof.
  revert v. induction u as [| x u IH]; intros [| y v]; unfold dot in *; simpl;
    try lia.
  rewrite IH. lia.
Qed.

Lemma length_kron_row (a b : list Z) :
  length (kron_row a b) = (length a * length b)%nat.
Proof.
  unfold kron_row. induction a as [| x a IH]; simpl; [reflexivity |].
  now rewrite length_app, length_map, IH.
Qed.

(** The mixed-product rule on rows. *)
Lemma dot_kron_row (a b c d : list Z) :
  length b = length d ->
  dot (kron_row a b) (kron_row c d) = dot a c * dot b d.
Proof.
  intros Hbd. revert c. induction a as [| x a IH]; intros [| y c].
  - reflexivity.
  - reflexivity.
  - now rewrite !dot_nil_r.
  - change (kron_row (x :: a) b) with (map (Z.mul x) b ++ kron_row a b).
    change (kron_row (y :: c) d) with (map (Z.mul y) d ++ kron_row c d).
    rewrite dot_app by (now rewrite !length_map).
    rewrite dot_scale, IH.
    change (dot (x :: a) (y :: c)) with (x * y + dot a c). ring.
Qed.

Lemma dot_unit_from (v : list Z) (i s : nat) :
  dot v (map (fun j => if Nat.eqb i j then 1 else 0) (seq s (length v)))
  = if (s <=? i)%nat then nth (i - s) v 0 else 0.
Proof.
  revert s. induction v as [| x v IH]; intros s; simpl.
  - destruct (s <=? i)%nat; [| reflexivity]. now destruct (i - s)%nat.
  - unfold dot in *. simpl. rewrite IH.
    destruct (Nat.eqb_spec i s) as [-> | Hne].
    + rewrite Nat.leb_refl, Nat.sub_diag.
      destruct (Nat.leb_spec (S s) s); [lia | lia].
    + destruct (Nat.leb_spec s i) as [Hle | Hgt].
      * destruct (Nat.leb_spec (S s) i) as [Hle' | Hgt']; [| lia].
        replace (i - s)%nat with (S (i - S s)) by lia. simpl. lia.
      * destruct (Nat.leb_spec (S s) i); [lia | lia].
Qed.

Lemma length_unit_row (n i : nat) : length (unit_row n i) = n.
Proof. unfold unit_row. now rewrite length_map, length_seq. Qed.

Lemma dot_unit_row_r (v : list Z) (i : nat) :
  dot v (unit_row (length v) i) = nth i v 0.
Proof. unfold unit_row. rewrite dot_unit_from. simpl. now rewrite Nat.sub_0_r. Qed.

Lemma dot_unit_row_l (v : list Z) (i : nat) :
  dot (unit_row (length v) i) v = nth i v 0.
Proof. rewrite dot_comm. apply dot_unit_row_r. Qed.

(** A list is the list of its entries. *)
Lemma list_as_nth {A : Type} (d : A) (l : list A) :
  l = map (fun i => nth i l d) (seq 0 (length l)).
Proof.
  apply (nth_ext _ _ d d).
  - now rewrite length_map, length_seq.
  - intros i Hi.
    rewrite (nth_indep (map (fun i => nth i l d) (seq 0 (length l))) d (nth 0 l d))
      by (now rewrite length_map, length_seq).
    rewrite (map_nth (fun i => nth i l d) (seq 0 (length l)) 0%nat i).
    now rewrite seq_nth.
Qed.

Lemma nth_column (A : ndarray) (i j : nat) :
  nth i (column j A) 0 = nth j (nth i (data A) []) 0.
Proof.
  unfold column. revert i.
  induction (data A) as [| row rows IH]; intros [| i]; simpl;
    try (now destruct j); apply IH.
Qed.

Lemma length_column (A : ndarray) (j : nat) :
  length (column j A) = length (data A).
Proof. unfold column. apply length_map. Qed.

(** Zipping two tables built over the same index lists. *)
Lemma zip_with_table {A B : Type} (h : list Z -> list Z -> list Z)
    (f g : A -> B -> list Z) (I : list A) (L : list B) :
  zip_with h (flat_map (fun i => map (f i) L) I) (flat_map (fun i => map (g i) L) I)
  = flat_map (fun i => map (fun k => h (f i k) (g i k)) L) I.
Proof.
  induction I as [| i I IH]; simpl; [reflexivity |].
  rewrite zip_with_app by (now rewrite !length_map).
  rewrite IH. f_equal.
  clear. induction L as [| k L IH]; simpl; [reflexivity | now rewrite IH].
Qed.

End HypergraphPcm.

Lemma flat_map_of_map {A B C : Type} (f : B -> list C) (g : A -> B) (l : list A) :
  flat_map f (map g l) = flat_map (fun x => f (g x)) l.
Proof. induction l as [| x l IH]; simpl; [reflexivity | now rewrite IH]. Qed.

(** The two matrices of [hypergraph_pcm], row by row. *)
Lemma hypergraph_pcm_rows (H1 H2 : ndarray) (r1 n1 r2 n2 : nat) :
  matrix_of_shape r1 n1 H1 -> matrix_of_shape r2 n2 H2 ->
  hypergraph_pcm H1 H2
  = ok (NdArray [(r1 * n2)%nat; (n1 * n2 + r1 * r2)%nat]
          (flat_map (fun i => map (hx_row H1 H2 r1 n2 i) (seq 0 n2)) (seq 0 r1)),
        NdArray [(n1 * r2)%nat; (n1 * n2 + r1 * r2)%nat]
          (flat_map (fun j => map (hz_row H1 H2 n1 r2 j) (seq 0 r2)) (seq 0 n1))).
Proof.
  intros (Hs1 & Hl1 & Hr1) (Hs2 & Hl2 & Hr2).
  unfold hypergraph_pcm, unpack_shape. rewrite Hs1, Hs2. cbn [bind ok].
  unfold append_axis1, kron, transpose, eye, dim2.
  cbn [shape data]. rewrite Hs1, Hs2. cbn [shape data].
  rewrite !Nat.eqb_refl. cbn [bind ok].
  assert (E1 : flat_map (fun rowa => map (kron_row rowa) (map (unit_row n2) (seq 0 n2)))
                 (data H1)
               = flat_map (fun i => map (fun k => kron_row (nth i (data H1) []) (unit_row n2 k))
                                      (seq 0 n2)) (seq 0 r1)).
  { rewrite (list_as_nth [] (data H1)) at 1. rewrite Hl1, flat_map_of_map.
    apply flat_map_ext. intros i. apply map_map. }
  assert (E2 : flat_map (fun rowa => map (kron_row rowa)
                                       (map (fun j => column j H2) (seq 0 n2)))
                 (map (unit_row r1) (seq 0 r1))
               = flat_map (fun i => map (fun k => kron_row (unit_row r1 i) (column k H2))
                                      (seq 0 n2)) (seq 0 r1)).
  { rewrite flat_map_of_map. apply flat_map_ext. intros i. apply map_map. }
  assert (E3 : flat_map (fun rowa => map (kron_row rowa) (data H2))
                 (map (unit_row n1) (seq 0 n1))
               = flat_map (fun j => map (fun l => kron_row (unit_row n1 j) (nth l (data H2) []))
                                      (seq 0 r2)) (seq 0 n1)).
  { rewrite flat_map_of_map. apply flat_map_ext. intros j.
    rewrite (list_as_nth [] (data H2)) at 1. rewrite Hl2. apply map_map. }
  assert (E4 : flat_map (fun rowa => map (kron_row rowa)
                                       (map (unit_row r2) (seq 0 r2)))
                 (map (fun j => column j H1) (seq 0 n1))
               = flat_map (fun j => map (fun l => kron_row (column j H1) (unit_row r2 l))
                                      (seq 0 r2)) (seq 0 n1)).
  { rewrite flat_map_of_map. apply flat_map_ext. intros j. apply map_map. }
  rewrite E1, E2, E3, E4, !zip_with_table. reflexivity.
Qed.

Lemma Forall_nth_length (rows : list (list Z)) (n i : nat) :
  Forall (fun row => length row = n) rows -> (i < length rows)%nat ->
  length (nth i rows []) = n.
Proof.
  intros Hall Hi. rewrite List.Forall_forall in Hall.
  apply Hall, nth_In, Hi.
Qed.

Lemma length_hx_row (H1 H2 : ndarray) (r1 n1 r2 n2 i k : nat) :
  matrix_of_shape r1 n1 H1 -> matrix_of_shape r2 n2 H2 -> (i < r1)%nat ->
  length (hx_row H1 H2 r1 n2 i k) = (n1 * n2 + r1 * r2)%nat.
Proof.
  intros (_ & Hl1 & Hr1) (_ & Hl2 & _) Hi. unfold hx_row.
  rewrite length_app, !length_kron_row, !length_unit_row, length_column, Hl2.
  now rewrite (Forall_nth_length _ n1 i Hr1) by lia.
Qed.

Lemma length_hz_row (H1 H2 : ndarray) (r1 n1 r2 n2 j l : nat) :
  matrix_of_shape r1 n1 H1 -> matrix_of_shape r2 n2 H2 -> (l < r2)%nat ->
  length (hz_row H1 H2 n1 r2 j l) = (n1 * n2 + r1 * r2)%nat.
Proof.
  intros (_ & Hl1 & _) (_ & Hl2 & Hr2) Hl. unfold hz_row.
  rewrite length_app, !length_kron_row, !length_unit_row, length_column, Hl1.
  rewrite (Forall_nth_length _ n2 l Hr2) by lia. lia.
Qed.

(** A row of [HX] times a row of [HZ]: twice the same product. *)
Lemma dot_hx_hz (H1 H2 : ndarray) (r1 n1 r2 n2 i k j l : nat) :
  matrix_of_shape r1 n1 H1 -> matrix_of_shape r2 n2 H2 ->
  (i < r1)%nat -> (l < r2)%nat ->
  dot (hx_row H1 H2 r1 n2 i k) (hz_row H1 H2 n1 r2 j l)
  = 2 * (nth j (nth i (data H1) []) 0 * nth k (nth l (data H2) []) 0).
Proof.
  intros (_ & Hl1 & Hr1) (_ & Hl2 & Hr2) Hi Hl. unfold hx_row, hz_row.
  pose proof (Forall_nth_length _ n1 i Hr1 ltac:(lia)) as Hrow1.
  pose proof (Forall_nth_length _ n2 l Hr2 ltac:(lia)) as Hrow2.
  rewrite dot_app
    by (rewrite !length_kron_row, !length_unit_row, Hrow1, Hrow2; reflexivity).
  rewrite dot_kron_row by (now rewrite length_unit_row, Hrow2).
  rewrite dot_kron_row by (now rewrite length_unit_row, length_column, Hl2).
  rewrite <- Hrow1 at 1. rewrite dot_unit_row_r.
  rewrite <- Hrow2 at 1. rewrite dot_unit_row_l.
  replace r1 with (length (column j H1)) by (now rewrite length_column).
  rewrite dot_unit_row_l.
  replace r2 with (length (column k H2)) by (now rewrite length_column).
  rewrite dot_unit_row_r.
  rewrite !nth_column. ring.
Qed.

Lemma length_table {A B C : Type} (f : A -> B -> C) (I : list A) (L : list B) :
  length (flat_map (fun i => map (f i) L) I) = (length I * length L)%nat.
Proof.
  induction I as [| i I IH]; simpl; [reflexivity |].
  now rewrite length_app, length_map, IH.
Qed.

Lemma in_table {A B C : Type} (f : A -> B -> C) (I : list A) (L : list B) (y : C) :
  In y (flat_map (fun i => map (f i) L) I) ->
  exists i k, In i I /\ In k L /\ y = f i k.
Proof.
  intros Hin. apply in_flat_map in Hin as (i & Hi & Hin).
  apply in_map_iff in Hin as (k & <- & Hk). now exists i, k.
Qed.

(** A column of the transpose is a row. *)
Lemma column_of_transpose (A : ndarray) (sh : list nat) (c j : nat) :
  Forall (fun row => length row = c) (data A) -> (j < length (data A))%nat ->
  column j (NdArray sh (map (fun k => column k A) (seq 0 c))) = nth j (data A) [].
Proof.
  intros Hrows Hj. unfold column at 1. cbn [data]. rewrite map_map.
  rewrite (list_as_nth 0 (nth j (data A) [])) at 1.
  rewrite (Forall_nth_length _ c j Hrows Hj).
  apply map_ext. intros k. apply nth_column.
Qed.

(** Entries of tables, of Kronecker rows and of unit rows. *)
Lemma nth_table {A : Type} (f : nat -> nat -> A) (n m i k : nat) (d : A) :
  (i < n)%nat -> (k < m)%nat ->
  nth (i * m + k) (flat_map (fun i => map (f i) (seq 0 m)) (seq 0 n)) d = f i k.
Proof.
  intros Hi Hk.
  assert (Hgen : forall s, nth (i * m + k)
                   (flat_map (fun i => map (f i) (seq 0 m)) (seq s n)) d = f (s + i)%nat k).
  { revert i Hi. induction n as [| n IH]; intros i Hi s; [lia |].
    cbn [seq flat_map]. destruct i as [| i].
    - rewrite app_nth1 by (rewrite length_map, length_seq; lia).
      rewrite (nth_indep _ d (f s 0%nat)) by (rewrite length_map, length_seq; lia).
      rewrite (map_nth (f s) (seq 0 m) 0%nat). rewrite seq_nth by lia.
      now rewrite Nat.add_0_r.
    - rewrite app_nth2 by (rewrite length_map, length_seq; lia).
      rewrite length_map, length_seq.
      replace (S i * m + k - m)%nat with (i * m + k)%nat by lia.
      rewrite IH by lia. f_equal. lia. }
  apply (Hgen 0%nat).
Qed.

Lemma nth_kron_row (ra rb : list Z) (j l : nat) :
  (l < length rb)%nat ->
  nth (j * length rb + l) (kron_row ra rb) 0 = nth j ra 0 * nth l rb 0.
Proof.
  intros Hl. unfold kron_row. revert j.
  induction ra as [| a ra IH]; intros j.
  - simpl. destruct (j * length rb + l)%nat, j; reflexivity.
  - cbn [flat_map]. destruct j as [| j].
    + rewrite app_nth1 by (rewrite length_map; lia).
      rewrite (nth_indep _ 0 (a * 0)) by (rewrite length_map; lia).
      rewrite (map_nth (Z.mul a)). reflexivity.
    + rewrite app_nth2 by (rewrite length_map; lia).
      rewrite length_map.
      replace (S j * length rb + l - length rb)%nat with (j * length rb + l)%nat by lia.
      apply IH.
Qed.

Lemma nth_unit_row (n i j : nat) :
  (j < n)%nat -> nth j (unit_row n i) 0 = delta i j.
Proof.
  intros Hj. unfold unit_row, delta.
  rewrite (nth_indep _ 0 ((fun j => if Nat.eqb i j then 1 else 0) 0%nat))
    by (now rewrite length_map, length_seq).
  rewrite (map_nth (fun j => if Nat.eqb i j then 1 else 0)).
  now rewrite seq_nth.
Qed.

(** The entries of a row of [HX] and of a row of [HZ]. *)
Lemma hx_row_entries (H1 H2 : ndarray) (r1 n1 r2 n2 i k : nat) :
  matrix_of_shape r1 n1 H1 -> matrix_of_shape r2 n2 H2 -> (i < r1)%nat -> (k < n2)%nat ->
  (forall j l, (j < n1)%nat -> (l < n2)%nat ->
     nth (j * n2 + l) (hx_row H1 H2 r1 n2 i k) 0 = entry H1 i j * delta k l) /\
  (forall i' l, (i' < r1)%nat -> (l < r2)%nat ->
     nth (n1 * n2 + i' * r2 + l) (hx_row H1 H2 r1 n2 i k) 0 = delta i i' * entry H2 l k).
Proof.
  intros (_ & Hl1 & Hr1) (_ & Hl2 & Hr2) Hi Hk. unfold hx_row.
  pose proof (Forall_nth_length _ n1 i Hr1 ltac:(lia)) as Hrow1.
  split.
  - intros j l Hj Hl.
    rewrite app_nth1 by (rewrite length_kron_row, length_unit_row, Hrow1; nia).
    rewrite <- (length_unit_row n2 k) at 1.
    rewrite nth_kron_row by (now rewrite length_unit_row).
    now rewrite nth_unit_row.
  - intros i' l Hi' Hl.
    rewrite app_nth2 by (rewrite length_kron_row, length_unit_row, Hrow1; nia).
    rewrite length_kron_row, length_unit_row, Hrow1.
    replace (n1 * n2 + i' * r2 + l - n1 * n2)%nat with (i' * r2 + l)%nat by lia.
    rewrite <- Hl2 at 1. rewrite <- (length_column H2 k).
    rewrite nth_kron_row by (rewrite length_column; lia).
    rewrite nth_unit_row by lia. now rewrite nth_column.
Qed.

Lemma hz_row_entries (H1 H2 : ndarray) (r1 n1 r2 n2 j l : nat) :
  matrix_of_shape r1 n1 H1 -> matrix_of_shape r2 n2 H2 -> (j < n1)%nat -> (l < r2)%nat ->
  (forall j' k, (j' < n1)%nat -> (k < n2)%nat ->
     nth (j' * n2 + k) (hz_row H1 H2 n1 r2 j l) 0 = delta j j' * entry H2 l k) /\
  (forall i l', (i < r1)%nat -> (l' < r2)%nat ->
     nth (n1 * n2 + i * r2 + l') (hz_row H1 H2 n1 r2 j l) 0 = entry H1 i j * delta l l').
Proof.
  intros (_ & Hl1 & Hr1) (_ & Hl2 & Hr2) Hj Hl. unfold hz_row.
  pose proof (Forall_nth_length _ n2 l Hr2 ltac:(lia)) as Hrow2.
  split.
  - intros j' k Hj' Hk.
    rewrite app_nth1 by (rewrite length_kron_row, length_unit_row, Hrow2; nia).
    rewrite <- Hrow2 at 1.
    rewrite nth_kron_row by lia.
    now rewrite nth_unit_row.
  - intros i l' Hi Hl'.
    rewrite app_nth2 by (rewrite length_kron_row, length_unit_row, Hrow2; nia).
    rewrite length_kron_row, length_unit_row, Hrow2.
    replace (n1 * n2 + i * r2 + l' - n1 * n2)%nat with (i * r2 + l')%nat by lia.
    rewrite <- (length_unit_row r2 l) at 1.
    rewrite nth_kron_row by (now rewrite length_unit_row).
    rewrite nth_unit_row by lia. now rewrite nth_column.
Qed.

(** Rows of zeros and ones. *)
Lemma binary_kron_row (ra rb : list Z) :
  Forall (fun x => x = 0 \/ x = 1) ra -> Forall (fun x => x = 0 \/ x = 1) rb ->
  Forall (fun x => x = 0 \/ x = 1) (kron_row ra rb).
Proof.
  intros Ha Hb. unfold kron_row. apply List.Forall_forall. intros x Hin.
  apply in_flat_map in Hin as (a & Hina & Hin).
  apply in_map_iff in Hin as (b & <- & Hinb).
  rewrite List.Forall_forall in Ha, Hb.
  destruct (Ha a Hina) as [-> | ->], (Hb b Hinb) as [-> | ->]; lia.
Qed.

Lemma binary_unit_row (n i : nat) : Forall (fun x => x = 0 \/ x = 1) (unit_row n i).
Proof.
  unfold unit_row. apply List.Forall_forall. intros x Hin.
  apply in_map_iff in Hin as (j & <- & _). destruct (Nat.eqb i j); lia.
Qed.

Lemma binary_nth_row (A : ndarray) (i : nat) :
  binary A -> Forall (fun x => x = 0 \/ x = 1) (nth i (data A) []).
Proof.
  intros Hb. destruct (Nat.lt_ge_cases i (length (data A))) as [Hi | Hi].
  - unfold binary in Hb. rewrite List.Forall_forall in Hb. apply Hb, nth_In, Hi.
  - rewrite nth_overflow by lia. constructor.
Qed.

Lemma binary_column (A : ndarray) (j : nat) :
  binary A -> Forall (fun x => x = 0 \/ x = 1) (column j A).
Proof.
  intros Hb. unfold column. apply List.Forall_forall. intros x Hin.
  apply in_map_iff in Hin as (row & <- & Hrow).
  unfold binary in Hb. rewrite List.Forall_forall in Hb.
  specialize (Hb row Hrow).
  destruct (Nat.lt_ge_cases j (length row)) as [Hj | Hj].
  - rewrite List.Forall_forall in Hb. apply Hb, nth_In, Hj.
  - rewrite nth_overflow by lia. now left.
Qed.

(** C1. For all binary matrices [H1] (r1 x n1) and [H2] (r2 x n2),
    [hypergraph_pcm] returns a pair [(HX, HZ)] of binary matrices with
    [n1 * n2 + r1 * r2] columns, which are, entry by entry, the block
    matrices [HX = [H1 (x) I_n2 | I_r1 (x) H2^T]] and
    [HZ = [I_n1 (x) H2 | H1^T (x) I_r2]]; their product [HX . HZ^T] is
    defined and has every entry zero modulo two: the CSS commutation
    law. *)
Theorem hypergraph_pcm_css_commutation (H1 H2 : ndarray) (r1 n1 r2 n2 : nat) :
  matrix_of_shape r1 n1 H1 -> matrix_of_shape r2 n2 H2 ->
  binary H1 -> binary H2 ->
  exists HX HZ P,
    hypergraph_pcm H1 H2 = ok (HX, HZ) /\
    matrix_of_shape (r1 * n2) (n1 * n2 + r1 * r2) HX /\
    matrix_of_shape (n1 * r2) (n1 * n2 + r1 * r2) HZ /\
    binary HX /\ binary HZ /\
    (forall i k, (i < r1)%nat -> (k < n2)%nat ->
       (forall j l, (j < n1)%nat -> (l < n2)%nat ->
          entry HX (i * n2 + k) (j * n2 + l) = entry H1 i j * delta k l) /\
       (forall i' l, (i' < r1)%nat -> (l < r2)%nat ->
          entry HX (i * n2 + k) (n1 * n2 + i' * r2 + l) = delta i i' * entry H2 l k)) /\
    (forall j l, (j < n1)%nat -> (l < r2)%nat ->
       (forall j' k, (j' < n1)%nat -> (k < n2)%nat ->
          entry HZ (j * r2 + l) (j' * n2 + k) = delta j j' * entry H2 l k) /\
       (forall i l', (i < r1)%nat -> (l' < r2)%nat ->
          entry HZ (j * r2 + l) (n1 * n2 + i * r2 + l') = entry H1 i j * delta l l')) /\
    matmul HX (transpose HZ) = ok P /\
    matrix_of_shape (r1 * n2) (n1 * r2) P /\
    zero_mod2 P.
Proof.
  intros Hm1 Hm2 Hb1 Hb2. rewrite (hypergraph_pcm_rows H1 H2 r1 n1 r2 n2 Hm1 Hm2).
  eexists _, _, _. split; [reflexivity |].
  assert (Hrowsx : Forall (fun row => length row = (n1 * n2 + r1 * r2)%nat)
                     (flat_map (fun i => map (hx_row H1 H2 r1 n2 i) (seq 0 n2)) (seq 0 r1))).
  { apply List.Forall_forall. intros rowx Hx.
    apply in_table in Hx as (i & k & Hi & _ & ->). apply in_seq in Hi.
    apply (length_hx_row H1 H2 r1 n1 r2 n2); [exact Hm1 | exact Hm2 | lia]. }
  assert (Hrowsz : Forall (fun row => length row = (n1 * n2 + r1 * r2)%nat)
                     (flat_map (fun j => map (hz_row H1 H2 n1 r2 j) (seq 0 r2)) (seq 0 n1))).
  { apply List.Forall_forall. intros rowz Hz.
    apply in_table in Hz as (j' & l & _ & Hl & ->). apply in_seq in Hl.
    apply (length_hz_row H1 H2 r1 n1 r2 n2); [exact Hm1 | exact Hm2 | lia]. }
  split; [| split; [| split; [| split; [| split; [| split]]]]].
  - split; [reflexivity |]. cbn [data]. split; [| exact Hrowsx].
    now rewrite length_table, !length_seq.
  - split; [reflexivity |]. cbn [data]. split; [| exact Hrowsz].
    now rewrite length_table, !length_seq.
  - unfold binary. cbn [data]. apply List.Forall_forall. intros rowx Hx.
    apply in_table in Hx as (i & k & _ & _ & ->). unfold hx_row.
    apply Forall_app. split; apply binary_kron_row;
      auto using binary_unit_row, binary_nth_row, binary_column.
  - unfold binary. cbn [data]. apply List.Forall_forall. intros rowz Hz.
    apply in_table in Hz as (j & l & _ & _ & ->). unfold hz_row.
    apply Forall_app. split; apply binary_kron_row;
      auto using binary_unit_row, binary_nth_row, binary_column.
  - intros i k Hi Hk. unfold entry at 1 3. cbn [data].
    rewrite nth_table by assumption.
    exact (hx_row_entries H1 H2 r1 n1 r2 n2 i k Hm1 Hm2 Hi Hk).
  - intros j l Hj Hl. unfold entry at 1 3. cbn [data].
    rewrite nth_table by assumption.
    exact (hz_row_entries H1 H2 r1 n1 r2 n2 j l Hm1 Hm2 Hj Hl).
  - unfold matmul, transpose, dim2. cbn [shape data]. rewrite Nat.eqb_refl.
    split; [reflexivity |]. split.
    + split; [reflexivity |]. cbn [data]. split.
      * now rewrite length_map, length_table, !length_seq.
      * apply List.Forall_forall. intros row Hin.
        apply in_map_iff in Hin as (rowx & <- & _).
        now rewrite length_map, length_seq.
    + unfold zero_mod2. cbn [data].
      apply List.Forall_forall. intros row Hin.
      apply in_map_iff in Hin as (rowx & <- & Hx).
      apply in_table in Hx as (i & k & Hi & Hk & ->).
      apply in_seq in Hi.
      apply List.Forall_forall. intros x Hin.
      apply in_map_iff in Hin as (j & <- & Hj). apply in_seq in Hj.
      set (HZ := NdArray _ (flat_map _ (seq 0 n1))).
      assert (Hlen : length (data HZ) = (n1 * r2)%nat).
      { subst HZ. cbn [data]. now rewrite length_table, !length_seq. }
      rewrite column_of_transpose by (exact Hrowsz || lia).
      assert (Hz : In (nth j (data HZ) []) (data HZ)) by (apply nth_In; lia).
      subst HZ. cbn [data] in Hz |- *.
      apply in_table in Hz as (j' & l & _ & Hl & ->). apply in_seq in Hl.
      rewrite (dot_hx_hz H1 H2 r1 n1 r2 n2) by (assumption || lia).
      rewrite Z.mul_comm. apply Z.mod_mul. lia.
Qed.

Lemma hypergraph_pcm_css_commutation_witness :
  exists HX HZ P,
    hypergraph_pcm (NdArray [2%nat; 3%nat] [[1; 1; 0]; [0; 1; 1]])
      (NdArray [1%nat; 2%nat] [[1; 1]]) = ok (HX, HZ) /\
    entry HX 1 3 = 1 /\ entry HX 1 7 = 0 /\ entry HZ 2 7 = 1 /\
    matmul HX (transpose HZ) = ok P /\
    matrix_of_shape (2 * 2) (3 * 1) P /\
    zero_mod2 P.
Proof.
  destruct (hypergraph_pcm_css_commutation
              (NdArray [2%nat; 3%nat] [[1; 1; 0]; [0; 1; 1]])
              (NdArray [1%nat; 2%nat] [[1; 1]]) 2 3 1 2)
    as (HX & HZ & P & Hrun & _ & _ & _ & _ & Hx & Hz & Hmul & Hshape & Hzero).
  - repeat split; repeat constructor.
  - repeat split; repeat constructor.
  - unfold binary; cbn [data];
      repeat (match goal with |- Forall _ _ => constructor end); lia.
  - unfold binary; cbn [data];
      repeat (match goal with |- Forall _ _ => constructor end); lia.
  - exists HX, HZ, P. split; [exact Hrun |].
    split; [exact (proj1 (Hx 0 1 ltac:(lia) ltac:(lia)) 1 1 ltac:(lia) ltac:(lia))%nat |].
    split; [exact (proj2 (Hx 0 1 ltac:(lia) ltac:(lia)) 1 0 ltac:(lia) ltac:(lia))%nat |].
    split; [exact (proj2 (Hz 2 0 ltac:(lia) ltac:(lia)) 1 0 ltac:(lia) ltac:(lia))%nat |].
    auto.
Defined.

(** ** The constructor *)

Section Constructor.

Lemma normalize_noise_inv (count : nat) (what : string) (given : result nat)
    (a : noise_arg) (p : list Q) :
  normalize_noise count what given a = ok p -> length p = count.
Proof.
  destruct a as [q | v]; simpl.
  - intros Heq. inversion Heq. apply repeat_length.
  - destruct (Nat.eqb_spec (length v) count) as [Hlen | Hlen].
    + intros Heq. inversion Heq. now subst.
    + destruct given; discriminate.
Qed.

(** A constructor call that succeeds has normalized the four noise
    arguments and gone on with [build_code]. *)
Lemma StabilizerModel_init_inv (code : string) (c : option (list instruction))
    (n : nat) (a1 a2 a3 a4 : noise_arg) (kw : kwargs) (m : StabilizerModel) :
  StabilizerModel_init code c n a1 a2 a3 a4 kw = ok m ->
  exists nc nd nz nx,
    length nc = 15%nat /\ length nd = 3%nat /\ length nz = 3%nat /\
    length nx = 3%nat /\
    build_code (Model (default [] c) n [] [] [] [] (Some nc) (Some nd) (Some nz)
                  (Some nx) kw) code = ok m.
Proof.
  unfold StabilizerModel_init. intros Hinit.
  destruct (normalize_noise 15 _ _ a1) as [e | nc] eqn:H1; [discriminate |].
  destruct (normalize_noise 3 _ _ a2) as [e | nd] eqn:H2; [discriminate |].
  destruct (normalize_noise 3 _ _ a3) as [e | nz] eqn:H3; [discriminate |].
  destruct (normalize_noise 3 _ _ a4) as [e | nx] eqn:H4; [discriminate |].
  exists nc, nd, nz, nx.
  apply normalize_noise_inv in H1, H2, H3, H4. auto.
Qed.

Lemma in_range (n q : Z) : In q (range n) <-> 0 <= q < n.
Proof.
  unfold range. rewrite in_map_iff. split.
  - intros (i & <- & Hi). apply in_seq in Hi. lia.
  - intros Hq. exists (Z.to_nat q). split; [lia |]. apply in_seq. lia.
Qed.

Lemma in_stride2_seq (n a : nat) (x : Z) :
  In x (stride2 (map Z.of_nat (seq a n))) ->
  exists i : nat, x = Z.of_nat (a + 2 * i) /\ (2 * i < n)%nat.
Proof.
  revert a. induction n as [n IH] using lt_wf_ind. intros a Hin.
  destruct n as [| [| n]]; simpl in Hin.
  - contradiction.
  - destruct Hin as [<- | []]. exists 0%nat. split; [f_equal; lia | lia].
  - destruct Hin as [<- | Hin].
    + exists 0%nat. split; [f_equal; lia | lia].
    + apply IH in Hin as (i & -> & Hi); [| lia].
      exists (S i). split; [f_equal; lia | lia].
Qed.

Lemma tail_range (n : Z) :
  tail (range n) = map Z.of_nat (seq 1 (Z.to_nat n - 1)).
Proof.
  unfold range. destruct (Z.to_nat n) as [| k]; simpl; [reflexivity |].
  now rewrite Nat.sub_0_r.
Qed.

(** The qubits of the repetition code: data qubits in [[0, 2d]], checks
    in [[1, 2d - 1]]. *)
Lemma repetition_data_range (d q : Z) :
  In q (stride2 (range (2 * d + 1))) -> 0 <= q <= 2 * d.
Proof.
  unfold range. intros Hin. apply in_stride2_seq in Hin as (i & -> & Hi). lia.
Qed.

Lemma repetition_check_range (d q : Z) :
  In q (stride2 (tail (range (2 * d + 1)))) -> 1 <= q <= 2 * d - 1.
Proof.
  rewrite tail_range. intros Hin. apply in_stride2_seq in Hin as (i & -> & Hi). lia.
Qed.

Lemma qubits_of_qubits (s : string) (qs : list Z) (p : list Q) :
  qubits_of (Instruction s (map qubit qs) p) = qs.
Proof.
  unfold qubits_of. simpl. induction qs as [| q qs IH]; simpl;
    [reflexivity | now rewrite IH].
Qed.

Lemma Forall_repeat_circuit (P : instruction -> Prop) (c : list instruction) (n : nat) :
  Forall P c -> Forall P (repeat_circuit c n).
Proof.
  intros Hc. unfold repeat_circuit. induction n as [| n IH]; simpl.
  - constructor.
  - apply Forall_app. now split.
Qed.

End Constructor.

Lemma parse_repetition_code : parse_code "repetition_code" = ok ("repetition_code", None).
Proof. reflexivity. Qed.

Lemma build_repetition_code (self : StabilizerModel) (d : Z) :
  distance (code_params self) = Some d ->
  build_code self "repetition_code"
  = _repetition_code
      (set_qubits self (circuit self) (range (2 * d + 1))
         (stride2 (range (2 * d + 1))) (stride2 (tail (range (2 * d + 1))))
         (x_check_qubits self)).
Proof.
  intros Hd. unfold build_code. rewrite parse_repetition_code. cbn [bind ok].
  rewrite String.eqb_refl, Hd. reflexivity.
Qed.

Lemma repetition_round_qubits (self : StabilizerModel) (d k : Z) :
  Forall (fun q => 0 <= q <= 2 * d) (data_qubits self) ->
  Forall (fun q => 1 <= q <= 2 * d - 1) (z_check_qubits self) ->
  Forall (fun i => Forall (fun q => 0 <= q <= 2 * d) (qubits_of i))
    (repetition_round self k).
Proof.
  intros Hdata Hz.
  assert (Hz' : Forall (fun q => 0 <= q <= 2 * d) (z_check_qubits self)).
  { eapply Forall_impl; [exact Hz |]. simpl. intros; lia. }
  unfold repetition_round. repeat apply Forall_app_2.
  - apply List.Forall_forall. intros i Hin.
    apply in_flat_map in Hin as (q & Hq & Hin).
    rewrite List.Forall_forall in Hz. specialize (Hz q Hq).
    apply in_app_or in Hin as [Hin | Hin].
    + destruct Hin as [<- | [<- | []]]; repeat constructor; lia.
    + destruct (noise_circuit self); [| contradiction].
      destruct Hin as [<- | [<- | []]]; repeat constructor; lia.
  - destruct (noise_data self); repeat constructor.
    unfold PAULI_CHANNEL_1. now rewrite qubits_of_qubits.
  - destruct (noise_z_check self); repeat constructor.
    unfold PAULI_CHANNEL_1. now rewrite qubits_of_qubits.
  - repeat constructor. unfold MR. now rewrite qubits_of_qubits.
  - apply List.Forall_forall. intros i Hin.
    apply in_map_iff in Hin as (j & <- & _). constructor.
Qed.

(** C10. For every distance [d] (so for every [d >= 1]) the repetition-code
    constructor allocates the qubits [0 .. 2d], and every qubit addressed by
    an instruction it emits (gates, noise channels, measurements) lies in
    [[0, 2d]]. *)
Theorem repetition_code_qubits_in_range (c : option (list instruction)) (n : nat)
    (a1 a2 a3 a4 : noise_arg) (kw : kwargs) (d : Z) (m : StabilizerModel) :
  distance kw = Some d ->
  StabilizerModel_init "repetition_code" c n a1 a2 a3 a4 kw = ok m ->
  qubits m = range (2 * d + 1) /\
  exists emitted,
    circuit m = default [] c ++ emitted /\
    Forall (fun i => Forall (fun q => 0 <= q <= 2 * d) (qubits_of i)) emitted.
Proof.
  intros Hd Hinit.
  apply StabilizerModel_init_inv in Hinit as (nc & nd & nz & nx & _ & _ & _ & _ & Hb).
  rewrite (build_repetition_code _ d) in Hb by exact Hd.
  unfold _repetition_code in Hb.
  cbn [code_params set_qubits circuit rounds z_check_qubits data_qubits] in Hb.
  rewrite Hd in Hb. cbn [bind param ok] in Hb. inversion Hb; subst m; clear Hb.
  cbn [qubits circuit set_circuit]. split; [reflexivity |].
  eexists. split; [reflexivity |].
  assert (Hdata : Forall (fun q => 0 <= q <= 2 * d) (stride2 (range (2 * d + 1)))).
  { apply List.Forall_forall. intros q. apply repetition_data_range. }
  assert (Hz : Forall (fun q => 1 <= q <= 2 * d - 1)
                 (stride2 (tail (range (2 * d + 1))))).
  { apply List.Forall_forall. intros q. apply repetition_check_range. }
  apply Forall_cons_2.
  { unfold M. rewrite qubits_of_qubits.
    eapply Forall_impl; [exact Hz |]. simpl. intros; lia. }
  apply Forall_app_2.
  { apply Forall_repeat_circuit. now apply repetition_round_qubits. }
  apply Forall_cons_2.
  { unfold M. now rewrite qubits_of_qubits. }
  apply Forall_app_2.
  - apply List.Forall_forall. intros i Hin.
    apply in_map_iff in Hin as (j & <- & _). constructor.
  - repeat constructor.
Qed.

Lemma repetition_code_qubits_in_range_witness :
  exists m,
    StabilizerModel_init "repetition_code" None 3 (NScalar 0) (NScalar 0)
      (NScalar 0) (NScalar 0) (Kwargs (Some 3) None None None None) = ok m /\
    qubits m = range (2 * 3 + 1) /\
    exists emitted,
      circuit m = default [] None ++ emitted /\
      Forall (fun i => Forall (fun q => 0 <= q <= 2 * 3) (qubits_of i)) emitted.
Proof.
  eexists. split; [reflexivity |].
  apply (repetition_code_qubits_in_range None 3 (NScalar 0) (NScalar 0)
           (NScalar 0) (NScalar 0) (Kwargs (Some 3) None None None None) 3);
    reflexivity.
Defined.

(** C6. A repetition code built with [distance = 3] and [rounds = 2], for
    whatever noise arguments the constructor accepts, has exactly 9
    [DETECTOR] instructions (3 in each of the 2 rounds and 3 after the
    final measurement of the data qubits) and one [OBSERVABLE_INCLUDE], whose
    only target is the measurement record -1. *)
Theorem repetition_code_d3_r2_detectors (a1 a2 a3 a4 : noise_arg) (kw : kwargs)
    (m : StabilizerModel) :
  distance kw = Some 3 ->
  StabilizerModel_init "repetition_code" None 2 a1 a2 a3 a4 kw = ok m ->
  length (instructions_named "DETECTOR" (circuit m)) = 9%nat /\
  instructions_named "OBSERVABLE_INCLUDE" (circuit m) = [OBSERVABLE_INCLUDE [-1] 0] /\
  map lookbacks_of (instructions_named "OBSERVABLE_INCLUDE" (circuit m)) = [[-1]].
Proof.
  intros Hd Hinit.
  apply StabilizerModel_init_inv in Hinit as (nc & nd & nz & nx & _ & _ & _ & _ & Hb).
  rewrite (build_repetition_code _ 3) in Hb by exact Hd.
  unfold _repetition_code in Hb.
  cbn [code_params set_qubits circuit rounds z_check_qubits data_qubits] in Hb.
  rewrite Hd in Hb. cbn [bind param ok] in Hb. inversion Hb; subst m; clear Hb.
  cbn [circuit set_circuit]. split; [reflexivity | split; reflexivity].
Qed.

Lemma repetition_code_d3_r2_detectors_witness :
  exists m,
    StabilizerModel_init "repetition_code" None 2 (NScalar 0) (NScalar 0)
      (NScalar 0) (NScalar 0) (Kwargs (Some 3) None None None None) = ok m /\
    length (instructions_named "DETECTOR" (circuit m)) = 9%nat /\
    instructions_named "OBSERVABLE_INCLUDE" (circuit m) = [OBSERVABLE_INCLUDE [-1] 0] /\
    map lookbacks_of (instructions_named "OBSERVABLE_INCLUDE" (circuit m)) = [[-1]].
Proof.
  eexists. split; [reflexivity |].
  apply (repetition_code_d3_r2_detectors (NScalar 0) (NScalar 0) (NScalar 0)
           (NScalar 0) (Kwargs (Some 3) None None None None));
    reflexivity.
Defined.

Lemma build_surface_code (self : StabilizerModel) (code : string)
    (subcode : option string) (sc : Z * Z) :
  parse_code code = ok ("surface_code", subcode) ->
  scale (code_params self) = Some sc ->
  build_code self code
  = if negb (sc.1 mod 2 =? 0) && negb (sc.2 mod 2 =? 0) then
      _surface_code
        (set_qubits self
           (circuit self
            ++ map (fun site => QUBIT_COORDS (site.1 * sc.2 + site.2) site.1 site.2)
                 (sites sc))
           (range (sc.1 * sc.2)) (qubits_of_role Data sc)
           (qubits_of_role ZCheck sc) (qubits_of_role XCheck sc))
        subcode
    else raise (AssertionError "Scale of the surface code must be odd.").
Proof.
  intros Hp Hs. unfold build_code. rewrite Hp. cbn [bind ok].
  change (String.eqb "surface_code" "repetition_code") with false.
  rewrite String.eqb_refl, Hs. reflexivity.
Qed.

(** C8. The surface-code constructor (with or without a subcode) fails for
    every scale [(R, C)] in which a dimension is even: with well-formed
    noise arguments the error is the assertion "Scale of the surface code
    must be odd.", raised before any role is assigned.  When it succeeds
    both dimensions are odd and the roles are those of the checkerboard. *)
Theorem surface_code_rejects_even_scale (code : string) (subcode : option string)
    (c : option (list instruction)) (n : nat) (a1 a2 a3 a4 : noise_arg)
    (kw : kwargs) (R C : Z) :
  parse_code code = ok ("surface_code", subcode) ->
  scale kw = Some (R, C) ->
  ((Z.Even R \/ Z.Even C) ->
   is_ok (StabilizerModel_init code c n a1 a2 a3 a4 kw) = false /\
   forall self, code_params self = kw ->
     build_code self code
     = raise (AssertionError "Scale of the surface code must be odd.")) /\
  (forall m, StabilizerModel_init code c n a1 a2 a3 a4 kw = ok m ->
     Z.Odd R /\ Z.Odd C /\
     qubits m = range (R * C) /\
     data_qubits m = qubits_of_role Data (R, C) /\
     z_check_qubits m = qubits_of_role ZCheck (R, C) /\
     x_check_qubits m = qubits_of_role XCheck (R, C)).
Proof.
  intros Hp Hs. split.
  - intros Heven.
    assert (Hb : forall self, code_params self = kw ->
              build_code self code
              = raise (AssertionError "Scale of the surface code must be odd.")).
    { intros self Hkw. rewrite (build_surface_code self code subcode (R, C) Hp)
        by (now rewrite Hkw).
      cbn [fst snd].
      destruct Heven as [[k ->] | [k ->]]; rewrite (Z.mul_comm 2 k), Z_mod_mult.
      - reflexivity.
      - now rewrite andb_false_r. }
    split; [| exact Hb].
    destruct (StabilizerModel_init code c n a1 a2 a3 a4 kw) as [e | m] eqn:Hinit;
      [reflexivity |].
    apply StabilizerModel_init_inv in Hinit as (nc & nd & nz & nx & _ & _ & _ & _ & Hbuild).
    rewrite Hb in Hbuild by reflexivity. discriminate.
  - intros m Hinit.
    apply StabilizerModel_init_inv in Hinit as (nc & nd & nz & nx & _ & _ & _ & _ & Hb).
    rewrite (build_surface_code _ code subcode (R, C) Hp) in Hb by exact Hs.
    cbn [fst snd] in Hb.
    destruct (Z.eqb_spec (R mod 2) 0) as [HR | HR]; [discriminate |].
    destruct (Z.eqb_spec (C mod 2) 0) as [HC | HC]; [discriminate |].
    cbn [negb andb] in Hb. unfold _surface_code in Hb.
    cbn [code_params set_qubits] in Hb. rewrite Hs in Hb. cbn [bind param ok] in Hb.
    inversion Hb; subst m; clear Hb. cbn.
    split; [| split]; try (repeat split; reflexivity).
    + exists (R / 2). pose proof (Z.div_mod R 2). pose proof (Z.mod_pos_bound R 2). lia.
    + exists (C / 2). pose proof (Z.div_mod C 2). pose proof (Z.mod_pos_bound C 2). lia.
Qed.

Lemma surface_code_rejects_even_scale_witness :
  is_ok (StabilizerModel_init "surface_code:z_memory" None 1 (NScalar 0)
           (NScalar 0) (NScalar 0) (NScalar 0)
           (Kwargs None (Some (3, 4)) None None None)) = false /\
  (forall m,
     StabilizerModel_init "surface_code:x_memory" None 1 (NScalar 0)
       (NScalar 0) (NScalar 0) (NScalar 0)
       (Kwargs None (Some (3, 3)) None None None) = ok m ->
     Z.Odd 3 /\ Z.Odd 3 /\ z_check_qubits m = qubits_of_role ZCheck (3, 3)).
Proof.
  split.
  - apply (surface_code_rejects_even_scale "surface_code:z_memory"
             (Some "z_memory") None 1 (NScalar 0) (NScalar 0) (NScalar 0)
             (NScalar 0) (Kwargs None (Some (3, 4)) None None None) 3 4
             eq_refl eq_refl).
    right. exists 2. reflexivity.
  - intros m Hm.
    destruct (surface_code_rejects_even_scale "surface_code:x_memory"
                (Some "x_memory") None 1 (NScalar 0) (NScalar 0) (NScalar 0)
                (NScalar 0) (Kwargs None (Some (3, 3)) None None None) 3 3
                eq_refl eq_refl) as [_ Hodd].
    destruct (Hodd m Hm) as (H3 & H3' & _ & _ & Hz & _). auto.
Defined.

Example surface_code_3_3_builds :
  is_ok (StabilizerModel_init "surface_code:x_memory" None 1 (NScalar 0)
           (NScalar 0) (NScalar 0) (NScalar 0)
           (Kwargs None (Some (3, 3)) None None None)) = true.
Proof. reflexivity. Qed.

(** ** Zero noise and disabled noise *)

















(** The arguments of the noise channels are the noise attributes. *)
Section NoiseArguments.

Variable A : list Q -> Prop.
Variable self : StabilizerModel.
Hypothesis A_circuit : forall p, noise_circuit self = Some p -> A p.
Hypothesis A_data : forall p, noise_data self = Some p -> A p.
Hypothesis A_z_check : forall p, noise_z_check self = Some p -> A p.
Hypothesis A_x_check : forall p, noise_x_check self = Some p -> A p.









End NoiseArguments.




(** ** The rounds of the surface code *)

Lemma surface_site_no_measure (self : StabilizerModel) (sc : Z * Z) (row col : Z) :
  Forall (fun i => name i <> "MR" /\ name i <> "M" /\ name i <> "DETECTOR")
    (surface_site self sc row col).
Proof.
  unfold surface_site.
  destruct ((row mod 2 =? 0) && negb (col mod 2 =? 0)).
  - destruct (row =? 0); [| destruct (row =? sc.1 - 1)];
      destruct (noise_circuit self) as [p |]; repeat constructor; discriminate.
  - destruct (negb (row mod 2 =? 0) && (col mod 2 =? 0)); [| constructor].
    destruct (col =? 0); [| destruct (col =? sc.2 - 1)];
      destruct (noise_circuit self) as [p |]; repeat constructor; discriminate.
Qed.

Lemma surface_checks_no_measure (self : StabilizerModel) (sc : Z * Z) :
  Forall (fun i => name i <> "MR" /\ name i <> "M" /\ name i <> "DETECTOR")
    (surface_checks self sc).
Proof.
  unfold surface_checks. repeat apply Forall_app_2.
  - apply List.Forall_forall. intros i Hin.
    apply in_flat_map in Hin as (site & _ & Hin).
    pose proof (surface_site_no_measure self sc site.1 site.2) as Hs.
    rewrite List.Forall_forall in Hs. now apply Hs.
  - destruct (noise_data self); repeat constructor; discriminate.
  - destruct (noise_z_check self); repeat constructor; discriminate.
  - destruct (noise_x_check self); repeat constructor; discriminate.
Qed.

(** C3, as stated, fails for [x_memory]: on the 3 x 3 lattice the round
    ends with the measurement of the Z-checks (the other basis), then the
    measurement of the X-checks (the active basis), then the detectors; it
    does not end with a measurement of the Z-checks. *)
Lemma x_memory_measures_z_checks_first :
  exists m,
    StabilizerModel_init "surface_code:x_memory" None 1 (NScalar 0) (NScalar 0)
      (NScalar 0) (NScalar 0) (Kwargs None (Some (3, 3)) None None None) = ok m /\
    z_check_qubits m = [1; 7] /\ x_check_qubits m = [3; 5] /\
    surface_round m (3, 3) (Some "x_memory")
    = surface_checks m (3, 3)
      ++ [MR [1; 7]; MR [3; 5]; DETECTOR [-1; -5]; DETECTOR [-2; -6]] /\
    ~ (exists checks,
         surface_round m (3, 3) (Some "x_memory")
         = checks ++ [MR [3; 5]] ++ [DETECTOR [-1; -5]; DETECTOR [-2; -6]]
           ++ [MR [1; 7]]).
Proof.
  eexists. split; [reflexivity |]. split; [reflexivity |]. split; [reflexivity |].
  split; [reflexivity |].
  intros [checks Heq]. apply (f_equal (@last instruction)) in Heq.
  rewrite !app_assoc, last_snoc in Heq. vm_compute in Heq. discriminate Heq.
Qed.

Lemma round_detectors_eq (self : StabilizerModel) (checks : list Z) :
  round_detectors self checks
  = map (fun k => DETECTOR [-1 - k;
                            -1 - k - (Z.of_nat (length (x_check_qubits self))
                                      + Z.of_nat (length (z_check_qubits self)))])
      (range_len checks).
Proof. unfold round_detectors. now rewrite length_app, Nat2Z.inj_add. Qed.

(** C3, amended. In every round of the surface code the checks and their
    noise come first and contain no measurement or detector.  For
    [z_memory] the round then measures and resets the Z-checks, emits one
    detector per Z-check, with the records [-1 - k] and
    [-1 - k - (number of X-checks + number of Z-checks)], and only then
    measures and resets the X-checks.  For [x_memory] the round measures
    and resets the Z-checks first, then the X-checks, and ends with one
    detector per X-check with the same two records.  The built circuit
    repeats this round [rounds] times. *)
Theorem surface_code_round_order (code subcode : string)
    (c : option (list instruction)) (n : nat) (a1 a2 a3 a4 : noise_arg)
    (kw : kwargs) (sc : Z * Z) (m : StabilizerModel) :
  parse_code code = ok ("surface_code", Some subcode) ->
  scale kw = Some sc ->
  StabilizerModel_init code c n a1 a2 a3 a4 kw = ok m ->
  let z := z_check_qubits m in
  let x := x_check_qubits m in
  let detectors (checks : list Z) :=
    map (fun k => DETECTOR [-1 - k;
                            -1 - k - (Z.of_nat (length x) + Z.of_nat (length z))])
      (range_len checks) in
  (exists post,
     circuit m
     = default [] c
       ++ map (fun site => QUBIT_COORDS (site.1 * sc.2 + site.2) site.1 site.2)
            (sites sc)
       ++ [R (qubits m); M (z ++ x)]
       ++ repeat_circuit (surface_round m sc (Some subcode)) n
       ++ M (data_qubits m) :: post) /\
  Forall (fun i => name i <> "MR" /\ name i <> "M" /\ name i <> "DETECTOR")
    (surface_checks m sc) /\
  (subcode = "z_memory" ->
   surface_round m sc (Some subcode)
   = surface_checks m sc ++ [MR z] ++ detectors z ++ [MR x]) /\
  (subcode = "x_memory" ->
   surface_round m sc (Some subcode)
   = surface_checks m sc ++ [MR z] ++ [MR x] ++ detectors x).
Proof.
  intros Hp Hs Hinit z x detectors.
  apply StabilizerModel_init_inv in Hinit as (nc & nd & nz & nx & _ & _ & _ & _ & Hb).
  rewrite (build_surface_code _ code (Some subcode) sc Hp) in Hb by exact Hs.
  destruct (negb (sc.1 mod 2 =? 0) && negb (sc.2 mod 2 =? 0)); [| discriminate].
  unfold _surface_code in Hb.
  cbn [code_params set_qubits] in Hb. rewrite Hs in Hb. cbn [bind param ok] in Hb.
  unfold ok in Hb. injection Hb as Hm. subst detectors x z.
  split; [| split; [| split]].
  - eexists. subst m. cbn [circuit set_circuit set_qubits qubits data_qubits
      z_check_qubits x_check_qubits rounds].
    rewrite <- !app_assoc. reflexivity.
  - apply surface_checks_no_measure.
  - intros ->. unfold surface_round, surface_detect.
    rewrite !round_detectors_eq. reflexivity.
  - intros ->. unfold surface_round, surface_detect.
    rewrite !round_detectors_eq. reflexivity.
Qed.

Lemma surface_code_round_order_witness :
  exists m,
    StabilizerModel_init "surface_code:x_memory" None 2 (NScalar 0) (NScalar 0)
      (NScalar 0) (NScalar 0) (Kwargs None (Some (3, 3)) None None None) = ok m /\
    surface_round m (3, 3) (Some "x_memory")
    = surface_checks m (3, 3) ++ [MR (z_check_qubits m)] ++ [MR (x_check_qubits m)]
      ++ map (fun k => DETECTOR [-1 - k;
                -1 - k - (Z.of_nat (length (x_check_qubits m))
                          + Z.of_nat (length (z_check_qubits m)))])
           (range_len (x_check_qubits m)).
Proof.
  eexists. split; [reflexivity |].
  apply (surface_code_round_order "surface_code:x_memory" "x_memory" None 2
           (NScalar 0) (NScalar 0) (NScalar 0) (NScalar 0)
           (Kwargs None (Some (3, 3)) None None None) (3, 3) _ eq_refl eq_refl
           eq_refl).
  reflexivity.
Defined.

(** ** The remainders of the final loops *)

Lemma in_qubits_of_role (r : role) (sc : Z * Z) (q : Z) :
  In q (qubits_of_role r sc) ->
  exists row col,
    0 <= row < sc.1 /\ 0 <= col < sc.2 /\ role_of row col = r /\
    q = row * sc.2 + col.
Proof.
  unfold qubits_of_role, sites. intros Hin.
  apply in_map_iff in Hin as ([row col] & <- & Hin).
  apply filter_In in Hin as [Hin Hrole].
  apply in_flat_map in Hin as (row' & Hrow & Hin).
  apply in_map_iff in Hin as (col' & Heq & Hcol). injection Heq as -> ->.
  apply in_range in Hrow, Hcol. exists row, col. cbn [fst snd] in *.
  repeat split; try lia.
  unfold is_role in Hrole. cbn [fst snd] in Hrole.
  destruct r, (role_of row col); (reflexivity || discriminate Hrole).
Qed.

(** The loops over the checks after the final measurement take remainders
    modulo [scale[1] // 2] (for [z_memory]) and [scale[1] // 2 + 1] (for
    [x_memory]); neither is zero when there is a check to loop over. *)
Lemma final_loops_divisors (sc : Z * Z) :
  (qubits_of_role ZCheck sc <> [] -> sc.2 / 2 <> 0) /\
  (qubits_of_role XCheck sc <> [] -> sc.2 / 2 + 1 <> 0).
Proof.
  split; intros Hne.
  - destruct (qubits_of_role ZCheck sc) as [| q l] eqn:Hq; [congruence |].
    destruct (in_qubits_of_role ZCheck sc q) as (row & col & _ & Hcol & Hrole & _);
      [rewrite Hq; now left |].
    assert (1 <= col).
    { unfold role_of in Hrole.
      destruct (Z.eqb_spec (row mod 2) 0); destruct (Z.eqb_spec (col mod 2) 0) as [Hc | Hc];
        try discriminate Hrole.
      destruct (Z.eq_dec col 0) as [-> | ]; [now rewrite Z.mod_0_l in Hc | lia]. }
    pose proof (Z.div_le_mono 2 sc.2 2 ltac:(lia) ltac:(lia)) as Hdiv.
    rewrite Z.div_same in Hdiv by lia. lia.
  - destruct (qubits_of_role XCheck sc) as [| q l] eqn:Hq; [congruence |].
    destruct (in_qubits_of_role XCheck sc q) as (row & col & _ & Hcol & _ & _);
      [rewrite Hq; now left |].
    pose proof (Z.div_pos sc.2 2 ltac:(lia) ltac:(lia)). lia.
Qed.

(** ** [intersecting_edges] *)










(** What the unpacking [edge1, edge2 = pair] needs and gives. *)
Lemma pair_shares_node_inv (p : gset edge) (b : bool) :
  pair_shares_node p = ok b ->
  exists edge1 edge2,
    edge1 <> edge2 /\ p = {[edge1; edge2]} /\ b = share_node edge1 edge2.
Proof.
  unfold pair_shares_node. intros Hp.
  destruct (elements p) as [| e1 [| e2 [| e3 l]]] eqn:He; try discriminate Hp.
  injection Hp as <-. exists e1, e2.
  assert (Hnd : NoDup [e1; e2]) by (rewrite <- He; apply NoDup_elements).
  split; [| split; [| reflexivity]].
  - intros ->. apply NoDup_cons in Hnd as [Hnot _]. apply Hnot. now left.
  - apply set_eq. intros e. rewrite <- elem_of_elements, He. set_solver.
Qed.

Lemma crossing_pairs_cons (positions : gmap nat point) (edge1 edge2 : edge)
    (rest : list (edge * edge)) (acc : gset (gset edge)) :
  crossing_pairs positions ((edge1, edge2) :: rest) acc
  = let* b := segments_cross positions edge1 edge2 in
    crossing_pairs positions rest (if b then acc ∪ {[ {[edge1; edge2]} ]} else acc).
Proof.
  unfold segments_cross. cbn [crossing_pairs].
  destruct (position positions edge1.1); [reflexivity |].
  destruct (position positions edge1.2); [reflexivity |].
  destruct (position positions edge2.1); [reflexivity |].
  destruct (position positions edge2.2); [reflexivity |].
  cbn [bind ok]. now destruct (do_lines_intersect _ _).
Qed.





Lemma in_index_pairs (n i j : nat) :
  In (i, j) (index_pairs n) <-> (i < j < n)%nat.
Proof.
  unfold index_pairs. rewrite in_flat_map. split.
  - intros (i' & Hi & Hin). apply in_map_iff in Hin as (j' & Heq & Hj).
    injection Heq as -> ->. apply in_seq in Hi, Hj. lia.
  - intros Hij. exists i. split; [apply in_seq; lia |].
    apply in_map_iff. exists j. split; [reflexivity | apply in_seq; lia].
Qed.

Lemma NoDup_index_pairs (n : nat) : NoDup (index_pairs n).
Proof.
  unfold index_pairs. generalize (NoDup_seq 0 n).
  induction (seq 0 n) as [| i I IH]; intros Hnd; simpl; [constructor |].
  apply NoDup_cons in Hnd as [Hi Hnd].
  apply NoDup_app. split; [| split; [| now apply IH]].
  - apply (NoDup_fmap_2 (pair i)), NoDup_seq.
  - intros [a b] Hin Hin'.
    apply list_elem_of_In, in_map_iff in Hin as (j & Heq & _). injection Heq as -> _.
    apply list_elem_of_In, in_flat_map in Hin' as (i' & Hi' & Hin').
    apply in_map_iff in Hin' as (j' & Heq & _). injection Heq as -> _.
    apply Hi. now apply list_elem_of_In.
Qed.

Lemma select_edges_spec (A : ndarray) (candidates edges : list edge) :
  select_edges A candidates = ok edges ->
  NoDup candidates ->
  NoDup edges /\ forall e, In e edges -> In e candidates /\ getitem2 A e.1 e.2 = ok 1.
Proof.
  revert edges. induction candidates as [| [i j] rest IH]; intros edges Hs Hnd.
  - injection Hs as <-. split; [constructor | intros e []].
  - cbn [select_edges] in Hs.
    destruct (getitem2 A i j) as [err | v] eqn:Hv; [discriminate Hs |].
    destruct (select_edges A rest) as [err | edges'] eqn:Hrest; [discriminate Hs |].
    cbn [bind] in Hs. injection Hs as <-.
    apply NoDup_cons in Hnd as [Hi Hnd].
    destruct (IH edges' eq_refl Hnd) as [Hnd' Hin'].
    destruct (Z.eqb_spec v 1) as [-> | Hne].
    + split.
      * apply NoDup_cons. split; [| exact Hnd'].
        intros Hin. apply Hi. apply list_elem_of_In.
        apply list_elem_of_In in Hin. now apply Hin'.
      * intros e [<- | Hin]; [split; [now left | exact Hv] |].
        destruct (Hin' e Hin). split; [now right | assumption].
    + split; [exact Hnd' |]. intros e Hin.
      destruct (Hin' e Hin). split; [now right | assumption].
Qed.
















(** * Further properties *)

(** ** The entries of [classical_pcm] *)

Lemma setitem_one_spec (vec vec' : list Z) (idx : Z) :
  setitem vec idx 1 = ok vec' ->
  vec' = <[Z.to_nat (idx mod Z.of_nat (length vec)) := 1]> vec /\
  0 <= idx mod Z.of_nat (length vec) < Z.of_nat (length vec).
Proof.
  intros Hs. pose proof (setitem_inv _ _ _ _ Hs) as [Hr _].
  assert (Hn : 0 < Z.of_nat (length vec)) by lia.
  split; [| now apply Z.mod_pos_bound].
  unfold setitem in Hs.
  destruct (fits_long idx); simpl in Hs; [| discriminate].
  destruct (Z.leb_spec 0 idx) as [Hp | Hp]; simpl in Hs.
  - destruct (Z.ltb_spec idx (Z.of_nat (length vec))); [| lia].
    injection Hs as <-. now rewrite Z.mod_small by lia.
  - destruct (Z.leb_spec (- Z.of_nat (length vec)) idx); [| lia].
    destruct (Z.ltb_spec idx 0); [| lia]. simpl in Hs. injection Hs as <-.
    replace (idx mod Z.of_nat (length vec)) with (idx + Z.of_nat (length vec));
      [reflexivity |].
    apply (Z.mod_unique _ _ (-1)); lia.
Qed.

Lemma nth_insert_one (vec : list Z) (i j : nat) :
  (i < length vec)%nat ->
  nth j (<[i := 1]> vec) 0 = 1 <-> nth j vec 0 = 1 \/ j = i.
Proof.
  intros Hi. destruct (decide (j = i)) as [-> | Hne].
  - rewrite (nth_lookup_Some _ _ _ 1); [tauto |].
    now apply list_lookup_insert_eq.
  - assert (Heq : nth j (<[i := 1]> vec) 0 = nth j vec 0).
    { rewrite !nth_lookup. now rewrite list_lookup_insert_ne by congruence. }
    rewrite Heq. tauto.
Qed.

Lemma fill_one_hot_entries (rest : list token) (vec vec' : list Z) (j : nat) :
  fill_one_hot vec rest = ok vec' ->
  nth j vec' 0 = 1 <->
  nth j vec 0 = 1 \/
  exists idx, In idx (index_run rest) /\ idx mod Z.of_nat (length vec) = Z.of_nat j.
Proof.
  revert vec. induction rest as [| [s | idx] rest IH]; intros vec Hf; simpl in Hf.
  - injection Hf as <-. simpl. split; [auto | intros [H | (idx & [] & _)]; exact H].
  - injection Hf as <-. simpl. split; [auto | intros [H | (idx & [] & _)]; exact H].
  - destruct (setitem vec idx 1) as [e | v] eqn:Hs; simpl in Hf; [discriminate |].
    apply setitem_one_spec in Hs as [-> Hb].
    rewrite (IH _ Hf), length_insert, nth_insert_one by lia. simpl. split.
    + intros [[H | ->] | (i & Hi & Hm)].
      * now left.
      * right. exists idx. split; [now left | lia].
      * right. exists i. split; [now right | exact Hm].
    + intros [H | (i & [<- | Hi] & Hm)].
      * left. now left.
      * left. right. lia.
      * right. now exists i.
Qed.

Lemma classical_pcm_rows_entries (n : nat) (clist : list token)
    (rows : list (list Z)) :
  classical_pcm_rows n clist = ok rows ->
  Forall2 (fun row run =>
             forall j, nth j row 0 = 1 <->
               exists idx, In idx run /\ idx mod Z.of_nat n = Z.of_nat j)
    rows (index_runs clist).
Proof.
  revert rows. induction clist as [| t rest IH]; intros rows Hr; simpl in Hr.
  - injection Hr as <-. constructor.
  - simpl. destruct (tok_is "C" t).
    + destruct (fill_one_hot (zeros n) rest) as [e | row] eqn:Hf; simpl in Hr;
        [discriminate |].
      destruct (classical_pcm_rows n rest) as [e | rows'] eqn:Hrest; simpl in Hr;
        [discriminate |].
      injection Hr as <-. constructor; [| now apply IH].
      intros j. rewrite (fill_one_hot_entries _ _ _ j Hf), length_zeros.
      split; [| auto]. intros [Hz | H]; [| exact H].
      exfalso. unfold zeros in Hz.
      destruct (Nat.lt_ge_cases j n) as [Hlt | Hge].
      * rewrite nth_repeat_lt in Hz by exact Hlt. discriminate.
      * rewrite nth_overflow in Hz by (now rewrite repeat_length). discriminate.
    + now apply IH.
Qed.

(** X1. The matrix of [classical_pcm], entry by entry: with [n] the number of
    [B] markers, the entry in column [j] of the row of a check is 1 exactly
    when one of the connection indices of that check is [j] modulo [n] (an
    index [j - n] counts as [j]); every other entry is 0. *)
Theorem classical_pcm_entries (clist : list token) (H : ndarray) :
  classical_pcm clist = ok H ->
  Forall2 (fun row run =>
             forall j, nth j row 0 = 1 <->
               exists idx, In idx run /\
                 idx mod Z.of_nat (count_tok "B" clist) = Z.of_nat j)
    (data H) (index_runs clist).
Proof.
  unfold classical_pcm. intros Hc.
  destruct (classical_pcm_rows (count_tok "B" clist) clist) as [e | rows] eqn:Hr;
    simpl in Hc; [discriminate |].
  injection Hc as <-.
  replace (data (np_array (count_tok "B" clist) rows)) with rows
    by (now destruct rows).
  now apply classical_pcm_rows_entries.
Qed.

Lemma classical_pcm_entries_witness :
  let clist := [TStr "B"; TStr "C"; TInt 0; TStr "B"; TInt (-1); TStr "B"] in
  let H := NdArray [1%nat; 3%nat] [[1; 0; 0]] in
  Forall2 (fun row run =>
             forall j, nth j row 0 = 1 <->
               exists idx, In idx run /\
                 idx mod Z.of_nat (count_tok "B" clist) = Z.of_nat j)
    (data H) (index_runs clist).
Proof.
  intros clist H. apply (classical_pcm_entries clist H). reflexivity.
Defined.

(** ** Shapes and failures of [hypergraph_pcm] *)

(** X2. On two well-formed matrices [H1] (r1 x n1) and [H2] (r2 x n2),
    [hypergraph_pcm] always returns: [HX] is a well-formed
    (r1 n2) x (n1 n2 + r1 r2) matrix and [HZ] a well-formed
    (n1 r2) x (n1 n2 + r1 r2) matrix, and both are binary when [H1] and
    [H2] are. *)
Theorem hypergraph_pcm_shapes (H1 H2 : ndarray) (r1 n1 r2 n2 : nat) :
  matrix_of_shape r1 n1 H1 -> matrix_of_shape r2 n2 H2 ->
  exists HX HZ,
    hypergraph_pcm H1 H2 = ok (HX, HZ) /\
    matrix_of_shape (r1 * n2) (n1 * n2 + r1 * r2) HX /\
    matrix_of_shape (n1 * r2) (n1 * n2 + r1 * r2) HZ /\
    (binary H1 -> binary H2 -> binary HX /\ binary HZ).
Proof.
  intros Hm1 Hm2. rewrite (hypergraph_pcm_rows H1 H2 r1 n1 r2 n2 Hm1 Hm2).
  eexists _, _. split; [reflexivity |]. split; [| split].
  - split; [reflexivity |]. cbn [data]. split.
    + now rewrite length_table, !length_seq.
    + apply List.Forall_forall. intros row Hin.
      apply in_table in Hin as (i & k & Hi & _ & ->). apply in_seq in Hi.
      apply (length_hx_row H1 H2 r1 n1 r2 n2); [exact Hm1 | exact Hm2 | lia].
  - split; [reflexivity |]. cbn [data]. split.
    + now rewrite length_table, !length_seq.
    + apply List.Forall_forall. intros row Hin.
      apply in_table in Hin as (j & l & _ & Hl & ->). apply in_seq in Hl.
      apply (length_hz_row H1 H2 r1 n1 r2 n2); [exact Hm1 | exact Hm2 | lia].
  - intros Hb1 Hb2. unfold binary. cbn [data]. split.
    + apply List.Forall_forall. intros row Hin.
      apply in_table in Hin as (i & k & _ & _ & ->). unfold hx_row.
      apply Forall_app_2; apply binary_kron_row;
        auto using binary_unit_row, binary_nth_row, binary_column.
    + apply List.Forall_forall. intros row Hin.
      apply in_table in Hin as (j & l & _ & _ & ->). unfold hz_row.
      apply Forall_app_2; apply binary_kron_row;
        auto using binary_unit_row, binary_nth_row, binary_column.
Qed.

Lemma hypergraph_pcm_shapes_witness :
  exists HX HZ,
    hypergraph_pcm (NdArray [2%nat; 3%nat] [[1; 1; 0]; [0; 1; 1]])
      (NdArray [1%nat; 2%nat] [[1; 1]]) = ok (HX, HZ) /\
    matrix_of_shape (2 * 2) (3 * 2 + 2 * 1) HX /\
    matrix_of_shape (3 * 1) (3 * 2 + 2 * 1) HZ /\
    (binary (NdArray [2%nat; 3%nat] [[1; 1; 0]; [0; 1; 1]]) ->
     binary (NdArray [1%nat; 2%nat] [[1; 1]]) -> binary HX /\ binary HZ).
Proof.
  apply (hypergraph_pcm_shapes
           (NdArray [2%nat; 3%nat] [[1; 1; 0]; [0; 1; 1]])
           (NdArray [1%nat; 2%nat] [[1; 1]]) 2 3 1 2).
  - repeat split; repeat constructor.
  - repeat split; repeat constructor.
Defined.

(** X3. [hypergraph_pcm] fails exactly when one of its arguments is not
    two-dimensional, with the [ValueError] of the shape unpacking; the
    concatenations never fail.  In particular it fails on the matrix that
    [classical_pcm] returns for a description without [C] marker. *)
Theorem hypergraph_pcm_failure (H1 H2 : ndarray) :
  (length (shape H1) <> 2%nat \/ length (shape H2) <> 2%nat ->
   hypergraph_pcm H1 H2 = raise ValueError) /\
  (length (shape H1) = 2%nat -> length (shape H2) = 2%nat ->
   is_ok (hypergraph_pcm H1 H2) = true) /\
  (forall clist, count_tok "C" clist = 0%nat ->
     is_ok (classical_pcm clist) = true ->
     exists H, classical_pcm clist = ok H /\ shape H = [0%nat] /\
       hypergraph_pcm H H2 = raise ValueError).
Proof.
  split; [| split].
  - unfold hypergraph_pcm, unpack_shape.
    destruct (shape H1) as [| a [| b [| c l]]]; simpl; try reflexivity.
    + intros [Hn | Hn]; [congruence |].
      destruct (shape H2) as [| a' [| b' [| c' l']]]; simpl in *; try reflexivity.
      congruence.
  - unfold hypergraph_pcm, unpack_shape, append_axis1, kron, transpose, eye, dim2.
    destruct (shape H1) as [| a [| b [| c l]]]; simpl; try discriminate.
    destruct (shape H2) as [| a' [| b' [| c' l']]]; simpl; try discriminate.
    intros _ _. cbn [shape]. now rewrite !Nat.eqb_refl.
  - intros clist Hc Hok.
    destruct (classical_pcm clist) as [e | H] eqn:Hcl; [discriminate Hok |].
    exists H. split; [reflexivity |].
    unfold classical_pcm in Hcl.
    destruct (classical_pcm_rows _ clist) as [e | rows] eqn:Hr; simpl in Hcl;
      [discriminate |].
    destruct (classical_pcm_rows_spec _ _ _ Hr) as (Hlen & _).
    rewrite Hc in Hlen. injection Hcl as <-. destruct rows; [| discriminate Hlen].
    split; reflexivity.
Qed.

Lemma hypergraph_pcm_failure_witness :
  hypergraph_pcm (NdArray [0%nat] []) (NdArray [1%nat; 2%nat] [[1; 1]])
  = raise ValueError /\
  is_ok (hypergraph_pcm (NdArray [1%nat; 1%nat] [[1]])
           (NdArray [1%nat; 2%nat] [[1; 1]])) = true /\
  exists H, classical_pcm [TStr "B"; TStr "B"] = ok H /\ shape H = [0%nat] /\
    hypergraph_pcm H (NdArray [1%nat; 2%nat] [[1; 1]]) = raise ValueError.
Proof.
  split; [| split].
  - apply (hypergraph_pcm_failure (NdArray [0%nat] [])
             (NdArray [1%nat; 2%nat] [[1; 1]])).
    left. discriminate.
  - now apply (hypergraph_pcm_failure (NdArray [1%nat; 1%nat] [[1]])
                 (NdArray [1%nat; 2%nat] [[1; 1]])).
  - now apply (hypergraph_pcm_failure (NdArray [0%nat] [])
                 (NdArray [1%nat; 2%nat] [[1; 1]])).
Defined.

(** ** The edges [intersecting_edges] reads *)

Lemma getitem2_error (A : ndarray) (i j : nat) (e : error) :
  getitem2 A i j = inl e -> e = IndexError.
Proof.
  unfold getitem2. destruct (data A !! i) as [row |]; [| now intros [= <-]].
  destruct (row !! j); [discriminate | now intros [= <-]].
Qed.

Lemma getitem2_matrix (A : ndarray) (r c i j : nat) :
  matrix_of_shape r c A ->
  getitem2 A i j
  = if decide (i < r /\ j < c)%nat then ok (nth j (nth i (data A) []) 0)
    else raise IndexError.
Proof.
  intros (_ & Hlen & Hrows). unfold getitem2.
  destruct (data A !! i) as [row |] eqn:Hrow.
  - pose proof (lookup_lt_Some _ _ _ Hrow) as Hi.
    assert (Hl : length row = c).
    { rewrite List.Forall_forall in Hrows. apply Hrows, list_elem_of_In.
      apply list_elem_of_lookup. now exists i. }
    rewrite (nth_lookup_Some _ _ [] _ Hrow).
    destruct (row !! j) as [v |] eqn:Hv.
    + pose proof (lookup_lt_Some _ _ _ Hv). rewrite (nth_lookup_Some _ _ 0 _ Hv).
      now rewrite decide_True by lia.
    + apply lookup_ge_None in Hv. now rewrite decide_False by lia.
  - apply lookup_ge_None in Hrow. now rewrite decide_False by lia.
Qed.

Lemma select_edges_error (A : ndarray) (candidates : list edge) :
  (exists e, In e candidates /\ is_ok (getitem2 A e.1 e.2) = false) ->
  select_edges A candidates = raise IndexError.
Proof.
  induction candidates as [| [i j] rest IH]; intros (e & Hin & He); [destruct Hin |].
  cbn [select_edges].
  destruct (getitem2 A i j) as [err | v] eqn:Hv.
  - now rewrite (getitem2_error _ _ _ _ Hv).
  - cbn [bind]. destruct Hin as [<- | Hin].
    + cbn [fst snd] in He. rewrite Hv in He. discriminate He.
    + rewrite IH by (now exists e). reflexivity.
Qed.

Lemma select_edges_complete (A : ndarray) (candidates : list edge) :
  (forall e, In e candidates -> is_ok (getitem2 A e.1 e.2) = true) ->
  exists edges,
    select_edges A candidates = ok edges /\
    forall e, In e edges <-> In e candidates /\ getitem2 A e.1 e.2 = ok 1.
Proof.
  induction candidates as [| [i j] rest IH]; intros Hall.
  - exists []. split; [reflexivity |]. intros e. simpl. tauto.
  - destruct IH as (edges & Hs & Hmem); [intros e He; apply Hall; now right |].
    pose proof (Hall (i, j) (or_introl eq_refl)) as Hij. cbn [fst snd] in Hij.
    cbn [select_edges]. destruct (getitem2 A i j) as [err | v] eqn:Hv;
      [discriminate Hij |].
    rewrite Hs. cbn [bind]. eexists. split; [reflexivity |].
    intros e. destruct (Z.eqb_spec v 1) as [-> | Hne]; simpl; rewrite Hmem.
    + split.
      * intros [<- | [Hin He]]; [split; [now left | exact Hv] |].
        split; [now right | exact He].
      * intros [[<- | Hin] He]; [now left | right; now split].
    + split.
      * intros [Hin He]. split; [now right | exact He].
      * intros [[<- | Hin] He]; [| now split].
        cbn [fst snd] in He. rewrite Hv in He. injection He as ->. congruence.
Qed.

(** X4. On a well-formed matrix with [n] rows and at least [n] columns,
    [intersecting_edges] takes as edges exactly the pairs [(i, j)] with
    [i < j < n] whose entry [A[i, j]] is 1, each once: only the entries
    above the diagonal are read, so the entries on and below the diagonal
    play no part.  On a matrix with at least two rows and fewer columns than
    rows the enumeration fails with [IndexError]. *)
Theorem edges_of_matrix (A : ndarray) (n c : nat) :
  matrix_of_shape n c A ->
  ((n <= c)%nat ->
   exists edges,
     edges_of A = ok edges /\ NoDup edges /\
     forall i j, In (i, j) edges <->
       (i < j < n)%nat /\ nth j (nth i (data A) []) 0 = 1) /\
  ((c < n)%nat -> (2 <= n)%nat ->
   edges_of A = raise IndexError /\
   forall positions, intersecting_edges A positions = raise IndexError).
Proof.
  intros Hm. pose proof Hm as (Hshape & _ & _).
  assert (Hlen : len A = n) by (unfold len; now rewrite Hshape).
  split.
  - intros Hnc. unfold edges_of. rewrite Hlen.
    destruct (select_edges_complete A (index_pairs n)) as (edges & Hs & Hmem).
    { intros [i j] Hin. apply in_index_pairs in Hin. cbn [fst snd].
      rewrite (getitem2_matrix A n c i j Hm). now rewrite decide_True by lia. }
    exists edges. split; [exact Hs |]. split.
    + apply (select_edges_spec _ _ _ Hs), NoDup_index_pairs.
    + intros i j. rewrite Hmem, in_index_pairs. cbn [fst snd].
      rewrite (getitem2_matrix A n c i j Hm). split.
      * intros [Hij Hv]. split; [exact Hij |].
        rewrite decide_True in Hv by lia. now injection Hv.
      * intros [Hij Hv]. split; [exact Hij |].
        rewrite decide_True by lia. now rewrite Hv.
  - intros Hcn Hn.
    assert (He : edges_of A = raise IndexError).
    { unfold edges_of. rewrite Hlen. apply select_edges_error.
      exists (0%nat, (n - 1)%nat). split; [apply in_index_pairs; lia |].
      cbn [fst snd]. rewrite (getitem2_matrix A n c _ _ Hm).
      now rewrite decide_False by lia. }
    split; [exact He |]. intros positions. unfold intersecting_edges.
    now rewrite He.
Qed.

Lemma edges_of_matrix_witness :
  (exists edges,
     edges_of (NdArray [3%nat; 3%nat] [[0; 1; 0]; [5; 0; 1]; [1; 0; 0]]) = ok edges /\
     NoDup edges /\
     forall i j, In (i, j) edges <->
       (i < j < 3)%nat /\
       nth j (nth i [[0; 1; 0]; [5; 0; 1]; [1; 0; 0]] []) 0 = 1) /\
  edges_of (NdArray [2%nat; 1%nat] [[0]; [1]]) = raise IndexError.
Proof.
  split.
  - apply (edges_of_matrix (NdArray [3%nat; 3%nat] [[0; 1; 0]; [5; 0; 1]; [1; 0; 0]])
             3 3); [repeat split; repeat constructor | lia].
  - apply (edges_of_matrix (NdArray [2%nat; 1%nat] [[0]; [1]]) 2 1);
      [repeat split; repeat constructor | lia | lia].
Defined.

(** ** What [intersecting_edges] reports *)








Lemma segments_cross_error (positions : gmap nat point) (edge1 edge2 : edge) :
  positions !! edge1.1 = None \/ positions !! edge1.2 = None \/
  positions !! edge2.1 = None \/ positions !! edge2.2 = None ->
  segments_cross positions edge1 edge2 = raise KeyError.
Proof.
  unfold segments_cross, position. intros Hn.
  destruct (positions !! edge1.1); [| reflexivity].
  destruct (positions !! edge1.2); [| reflexivity].
  destruct (positions !! edge2.1); [| reflexivity].
  destruct (positions !! edge2.2); [| reflexivity].
  destruct Hn as [Hn | [Hn | [Hn | Hn]]]; discriminate Hn.
Qed.

Lemma segments_cross_error_inv (positions : gmap nat point) (edge1 edge2 : edge)
    (e : error) :
  segments_cross positions edge1 edge2 = inl e -> e = KeyError.
Proof.
  unfold segments_cross, position. intros Hs.
  destruct (positions !! edge1.1); [| now injection Hs].
  destruct (positions !! edge1.2); [| now injection Hs].
  destruct (positions !! edge2.1); [| now injection Hs].
  destruct (positions !! edge2.2); [| now injection Hs].
  discriminate Hs.
Qed.

Lemma crossing_pairs_error (positions : gmap nat point)
    (pairs : list (edge * edge)) (acc : gset (gset edge)) :
  (exists edge1 edge2, In (edge1, edge2) pairs /\
     is_ok (segments_cross positions edge1 edge2) = false) ->
  crossing_pairs positions pairs acc = raise KeyError.
Proof.
  revert acc. induction pairs as [| [e1 e2] rest IH]; intros acc (a & b & Hin & He);
    [destruct Hin |].
  rewrite crossing_pairs_cons.
  destruct (segments_cross positions e1 e2) as [err | r] eqn:Hs.
  - now rewrite (segments_cross_error_inv _ _ _ _ Hs).
  - cbn [bind]. destruct Hin as [Heq | Hin].
    + injection Heq as <- <-. rewrite Hs in He. discriminate He.
    + apply IH. now exists a, b.
Qed.

Lemma combinations2_partner {A : Type} (l : list A) (a : A) :
  In a l -> (2 <= length l)%nat ->
  exists b, In (a, b) (combinations2 l) \/ In (b, a) (combinations2 l).
Proof.
  intros Ha Hlen. destruct l as [| x [| y l]]; simpl in Hlen; try lia.
  destruct Ha as [<- | Ha].
  - exists y. left. simpl. now left.
  - exists x. right.
    change (combinations2 (x :: y :: l))
      with (map (pair x) (y :: l) ++ combinations2 (y :: l)).
    apply in_or_app. left. apply in_map_iff. now exists a.
Qed.







(** X8. With fewer than two edges [intersecting_edges] returns the empty
    set without reading any position.  With two edges or more it fails with
    [KeyError] as soon as an endpoint of an edge has no position. *)
Theorem intersecting_edges_positions (adjacency_matrix : ndarray)
    (positions : gmap nat point) (edges : list edge) :
  edges_of adjacency_matrix = ok edges ->
  ((length edges < 2)%nat ->
   intersecting_edges adjacency_matrix positions = ok ∅) /\
  ((2 <= length edges)%nat ->
   (exists e, In e edges /\
      (positions !! e.1 = None \/ positions !! e.2 = None)) ->
   intersecting_edges adjacency_matrix positions = raise KeyError).
Proof.
  intros He. unfold intersecting_edges. rewrite He. cbn [bind ok]. split.
  - intros Hlen. destruct edges as [| x [| y l]]; simpl in Hlen; try lia;
      cbn [combinations2 map app crossing_pairs bind ok];
      rewrite elements_empty; cbn [sharing_pairs bind ok]; unfold ok; f_equal;
      set_solver.
  - intros Hlen (e & Hin & Hnone).
    rewrite crossing_pairs_error; [reflexivity |].
    destruct (combinations2_partner edges e Hin Hlen) as (e' & [Hc | Hc]).
    + exists e, e'. split; [exact Hc |]. rewrite segments_cross_error; [reflexivity |].
      tauto.
    + exists e', e. split; [exact Hc |]. rewrite segments_cross_error; [reflexivity |].
      tauto.
Qed.

Lemma intersecting_edges_positions_witness :
  intersecting_edges (NdArray [2%nat; 2%nat] [[0; 1]; [1; 0]]) ∅ = ok ∅ /\
  intersecting_edges path4 (delete 3%nat unit_square) = raise KeyError.
Proof.
  split.
  - apply (intersecting_edges_positions (NdArray [2%nat; 2%nat] [[0; 1]; [1; 0]])
             ∅ [(0%nat, 1%nat)] eq_refl). simpl. lia.
  - apply (intersecting_edges_positions path4 (delete 3%nat unit_square)
             [(0, 1); (1, 2); (2, 3)]%nat eq_refl).
    + simpl. lia.
    + exists (2%nat, 3%nat). split; [simpl; tauto |]. right. reflexivity.
Defined.

(** ** The noise arguments of the constructor *)

Lemma normalize_noise_accepted (count : nat) (what : string) (given : result nat)
    (a : noise_arg) :
  noise_accepted count a ->
  normalize_noise count what given a = ok (normalized count a).
Proof.
  destruct a as [p | v]; simpl; [reflexivity |].
  intros ->. now rewrite Nat.eqb_refl.
Qed.



(** The attributes [build_code] never touches. *)
Lemma build_code_attributes (self m : StabilizerModel) (code : string) :
  build_code self code = ok m ->
  rounds m = rounds self /\ code_params m = code_params self /\
  noise_circuit m = noise_circuit self /\ noise_data m = noise_data self /\
  noise_z_check m = noise_z_check self /\ noise_x_check m = noise_x_check self /\
  exists emitted, circuit m = circuit self ++ emitted.
Proof.
  unfold build_code.
  destruct (parse_code code) as [e | [main_code subcode]]; [discriminate |].
  cbn [bind].
  destruct (String.eqb main_code "repetition_code").
  { destruct (distance (code_params self)) as [d |] eqn:Hd; [| discriminate].
    cbn [param bind ok]. unfold _repetition_code. cbn [set_qubits code_params].
    rewrite Hd. cbn [param bind ok]. unfold ok. intros [= <-].
    cbn. repeat split. eexists. reflexivity. }
  destruct (String.eqb main_code "surface_code").
  { destruct (scale (code_params self)) as [sc |] eqn:Hs; [| discriminate].
    cbn [param bind ok].
    destruct (negb (sc.1 mod 2 =? 0) && negb (sc.2 mod 2 =? 0)); [| discriminate].
    unfold _surface_code. cbn [set_qubits code_params].
    rewrite Hs. cbn [param bind ok]. unfold ok. intros [= <-].
    cbn [rounds code_params noise_circuit noise_data noise_z_check noise_x_check
         set_circuit circuit].
    repeat split. eexists. rewrite <- app_assoc. reflexivity. }
  destruct (String.eqb main_code "hypergraph_product_code"); [| discriminate].
  destruct (clist1 (code_params self)) as [l1 |] eqn:H1; [| discriminate].
  destruct (clist2 (code_params self)) as [l2 |] eqn:H2; [| discriminate].
  cbn [param bind ok].
  destruct (classical_pcm l1) as [e | M1] eqn:Hc1; [discriminate |].
  destruct (classical_pcm l2) as [e | M2] eqn:Hc2; [discriminate |]. cbn [bind].
  unfold _hypergraph_product_code. cbn [set_qubits code_params].
  destruct (pos (code_params self)); [| discriminate].
  rewrite H1, H2. cbn [param bind ok]. rewrite Hc1, Hc2. cbn [bind].
  destruct (hypergraph_pcm M1 M2) as [e | [HX HZ]]; [discriminate |]. cbn [bind].
  unfold ok. intros [= <-]. cbn. repeat split. exists []. now rewrite app_nil_r.
Qed.



(** X10. The failures of the constructor on its noise arguments.  A list for
    [noise_circuit] whose length is not 15 fails the first assertion, with
    the length in the message.  When the first three arguments are accepted
    and [noise_x_check] is a list whose length is not 3, the message of the
    failed assertion is built from the length of [noise_z_check]: the error
    is [TypeError] when [noise_z_check] is a number, and an assertion error
    that names "Data qubit noise" and the length 3 when it is a list. *)
Theorem constructor_noise_errors (code : string) (c : option (list instruction))
    (n : nat) (a1 a2 a3 a4 : noise_arg) (kw : kwargs) :
  (forall v, a1 = NVector v -> length v <> 15%nat ->
     StabilizerModel_init code c n a1 a2 a3 a4 kw
     = raise (AssertionError
                (assertion_message "Stabilizer measurement noise takes 15 parameters"
                   (length v)))) /\
  (forall v, noise_accepted 15 a1 -> noise_accepted 3 a2 -> noise_accepted 3 a3 ->
     a4 = NVector v -> length v <> 3%nat ->
     StabilizerModel_init code c n a1 a2 a3 a4 kw
     = match a3 with
       | NScalar _ => raise TypeError
       | NVector _ =>
           raise (AssertionError "Data qubit noise takes 3 parameters, given 3.")
       end).
Proof.
  split.
  - intros v -> Hlen. unfold StabilizerModel_init. cbn [normalize_noise noise_len].
    destruct (Nat.eqb_spec (length v) 15); [contradiction | reflexivity].
  - intros v A1 A2 A3 -> Hlen. unfold StabilizerModel_init.
    rewrite !normalize_noise_accepted by assumption. cbn [bind ok normalize_noise].
    destruct (Nat.eqb_spec (length v) 3); [contradiction |].
    destruct a3 as [p | vz]; [reflexivity |].
    simpl in A3. cbn [noise_len bind ok]. now rewrite A3.
Qed.

Lemma constructor_noise_errors_witness :
  StabilizerModel_init "repetition_code" None 1 (NVector [0; 0]%Q) (NScalar 0)
    (NScalar 0) (NScalar 0) (Kwargs (Some 2) None None None None)
  = raise (AssertionError
             "Stabilizer measurement noise takes 15 parameters, given 2.") /\
  StabilizerModel_init "repetition_code" None 1 (NScalar 0) (NScalar 0)
    (NScalar 0) (NVector [0; 0]%Q) (Kwargs (Some 2) None None None None)
  = raise TypeError.
Proof.
  split.
  - apply (constructor_noise_errors "repetition_code" None 1 (NVector [0; 0]%Q)
             (NScalar 0) (NScalar 0) (NScalar 0)
             (Kwargs (Some 2) None None None None)) with (v := [0; 0]%Q);
      [reflexivity | simpl; lia].
  - apply (constructor_noise_errors "repetition_code" None 1 (NScalar 0)
             (NScalar 0) (NScalar 0) (NVector [0; 0]%Q)
             (Kwargs (Some 2) None None None None)) with (v := [0; 0]%Q);
      simpl; auto.
Defined.

(** ** The code string and the keyword arguments *)

Lemma length_split_colon (code : string) :
  length (split_colon code) = S (colons code).
Proof.
  induction code as [| ch rest IH]; [reflexivity |]. simpl.
  destruct (Ascii.eqb ch ":"); simpl; [now rewrite IH |].
  destruct (split_colon rest) as [| h t] eqn:Hs; simpl in *; [discriminate IH | exact IH].
Qed.

Lemma split_colon_no_colon (code : string) :
  colons code = 0%nat -> split_colon code = [code].
Proof.
  induction code as [| ch rest IH]; [reflexivity |]. simpl.
  destruct (Ascii.eqb ch ":"); [discriminate |]. simpl. intros Hc.
  now rewrite (IH Hc).
Qed.

(** X11. The code string.  A string without colon is the main code, without
    subcode; a string with two colons or more fails the unpacking of its
    split with [ValueError]; and a main code that is none of the three code
    families is refused with [ValueError], whatever the keyword arguments. *)
Theorem code_string_errors (self : StabilizerModel) (code : string) :
  (colons code = 0%nat -> parse_code code = ok (code, None)) /\
  ((2 <= colons code)%nat -> build_code self code = raise ValueError) /\
  (forall main_code subcode,
     parse_code code = ok (main_code, subcode) ->
     main_code <> "repetition_code" -> main_code <> "surface_code" ->
     main_code <> "hypergraph_product_code" ->
     build_code self code = raise ValueError).
Proof.
  split; [| split].
  - intros Hc. unfold parse_code. now rewrite split_colon_no_colon.
  - intros Hc. unfold build_code, parse_code.
    pose proof (length_split_colon code) as Hl.
    destruct (split_colon code) as [| a [| b [| d l]]]; simpl in Hl; try lia.
    reflexivity.
  - intros main_code subcode Hp H1 H2 H3. unfold build_code. rewrite Hp. cbn [bind ok].
    apply String.eqb_neq in H1, H2, H3. now rewrite H1, H2, H3.
Qed.

Lemma code_string_errors_witness :
  parse_code "surface_code" = ok ("surface_code", None) /\
  build_code (Model [] 1 [] [] [] [] None None None None
                (Kwargs (Some 3) None None None None)) "repetition_code:a:b"
  = raise ValueError /\
  build_code (Model [] 1 [] [] [] [] None None None None
                (Kwargs (Some 3) None None None None)) "toric_code:z_memory"
  = raise ValueError.
Proof.
  split; [| split].
  - now apply (code_string_errors
                 (Model [] 1 [] [] [] [] None None None None
                    (Kwargs (Some 3) None None None None)) "surface_code").
  - apply (code_string_errors
             (Model [] 1 [] [] [] [] None None None None
                (Kwargs (Some 3) None None None None)) "repetition_code:a:b").
    simpl. lia.
  - apply (code_string_errors
             (Model [] 1 [] [] [] [] None None None None
                (Kwargs (Some 3) None None None None)) "toric_code:z_memory")
      with (main_code := "toric_code") (subcode := Some "z_memory");
      [reflexivity | discriminate | discriminate | discriminate].
Defined.

(** X12. A keyword argument that a code family reads and that is missing
    gives [KeyError]: [distance] for the repetition code, [scale] for the
    surface code, [clist1] or [clist2] for the hypergraph-product code, and
    also [pos] once the two classical matrices are built. *)
Theorem missing_keyword (self : StabilizerModel) (code : string)
    (subcode : option string) :
  (parse_code code = ok ("repetition_code", subcode) ->
   distance (code_params self) = None -> build_code self code = raise KeyError) /\
  (parse_code code = ok ("surface_code", subcode) ->
   scale (code_params self) = None -> build_code self code = raise KeyError) /\
  (parse_code code = ok ("hypergraph_product_code", subcode) ->
   clist1 (code_params self) = None \/ clist2 (code_params self) = None ->
   build_code self code = raise KeyError) /\
  (parse_code code = ok ("hypergraph_product_code", subcode) ->
   forall l1 l2,
     clist1 (code_params self) = Some l1 -> clist2 (code_params self) = Some l2 ->
     is_ok (classical_pcm l1) = true -> is_ok (classical_pcm l2) = true ->
     pos (code_params self) = None ->
     build_code self code = raise KeyError).
Proof.
  unfold build_code. repeat split.
  - intros -> Hd. cbn [bind ok]. rewrite String.eqb_refl. now rewrite Hd.
  - intros -> Hs. cbn [bind ok].
    change (String.eqb "surface_code" "repetition_code") with false.
    rewrite String.eqb_refl. now rewrite Hs.
  - intros -> Hc. cbn [bind ok].
    change (String.eqb "hypergraph_product_code" "repetition_code") with false.
    change (String.eqb "hypergraph_product_code" "surface_code") with false.
    rewrite String.eqb_refl.
    destruct Hc as [Hc | Hc]; rewrite Hc; [reflexivity |].
    now destruct (clist1 (code_params self)).
  - intros -> l1 l2 H1 H2 Hc1 Hc2 Hpos. cbn [bind ok].
    change (String.eqb "hypergraph_product_code" "repetition_code") with false.
    change (String.eqb "hypergraph_product_code" "surface_code") with false.
    rewrite String.eqb_refl, H1, H2. cbn [param bind ok].
    destruct (classical_pcm l1); [discriminate Hc1 |].
    destruct (classical_pcm l2); [discriminate Hc2 |]. cbn [bind].
    unfold _hypergraph_product_code. cbn [set_qubits code_params].
    now rewrite Hpos.
Qed.

Lemma missing_keyword_witness :
  build_code (Model [] 1 [] [] [] [] None None None None
                (Kwargs None (Some (3, 3)) None None None)) "repetition_code"
  = raise KeyError /\
  build_code (Model [] 1 [] [] [] [] None None None None
                (Kwargs None None (Some [TStr "B"; TStr "C"; TInt 0])
                   (Some [TStr "B"; TStr "C"; TInt 0]) None))
    "hypergraph_product_code"
  = raise KeyError.
Proof.
  split.
  - destruct (missing_keyword
                (Model [] 1 [] [] [] [] None None None None
                   (Kwargs None (Some (3, 3)) None None None))
                "repetition_code" None) as (Hrep & _).
    apply Hrep; reflexivity.
  - destruct (missing_keyword
                (Model [] 1 [] [] [] [] None None None None
                   (Kwargs None None (Some [TStr "B"; TStr "C"; TInt 0])
                      (Some [TStr "B"; TStr "C"; TInt 0]) None))
                "hypergraph_product_code" None) as (_ & _ & _ & Hpos).
    apply (Hpos eq_refl [TStr "B"; TStr "C"; TInt 0] [TStr "B"; TStr "C"; TInt 0]);
      reflexivity.
Defined.

(** X13. The constructor only appends to the circuit it is given: the given
    circuit (the empty one by default) is a prefix of the circuit of the
    model, whose rounds and keyword arguments are those of the call.  The
    hypergraph-product code appends nothing at all. *)
Theorem constructor_appends (code : string) (c : option (list instruction))
    (n : nat) (a1 a2 a3 a4 : noise_arg) (kw : kwargs) (m : StabilizerModel) :
  StabilizerModel_init code c n a1 a2 a3 a4 kw = ok m ->
  rounds m = n /\ code_params m = kw /\
  (exists emitted, circuit m = default [] c ++ emitted) /\
  (forall subcode, parse_code code = ok ("hypergraph_product_code", subcode) ->
     circuit m = default [] c).
Proof.
  intros Hinit.
  apply StabilizerModel_init_inv in Hinit as (nc & nd & nz & nx & _ & _ & _ & _ & Hb).
  pose proof (build_code_attributes _ _ _ Hb) as (Hr & Hk & _ & _ & _ & _ & He).
  cbn in Hr, Hk, He. repeat split; try assumption.
  intros subcode Hp. revert Hb. unfold build_code. rewrite Hp. cbn [bind ok].
  change (String.eqb "hypergraph_product_code" "repetition_code") with false.
  change (String.eqb "hypergraph_product_code" "surface_code") with false.
  rewrite String.eqb_refl. cbn [code_params].
  destruct (clist1 kw) as [l1 |] eqn:H1; [| discriminate].
  destruct (clist2 kw) as [l2 |] eqn:H2; [| discriminate].
  cbn [param bind ok].
  destruct (classical_pcm l1) as [e | M1] eqn:Hc1; [discriminate |].
  destruct (classical_pcm l2) as [e | M2] eqn:Hc2; [discriminate |]. cbn [bind].
  unfold _hypergraph_product_code. cbn [set_qubits code_params].
  destruct (pos kw); [| discriminate].
  rewrite H1, H2. cbn [param bind ok]. rewrite Hc1, Hc2. cbn [bind].
  destruct (hypergraph_pcm M1 M2) as [e | [HX HZ]]; [discriminate |]. cbn [bind].
  unfold ok. intros [= <-]. reflexivity.
Qed.

Lemma constructor_appends_witness :
  exists m,
    StabilizerModel_init "repetition_code" (Some [H 0]) 2 (NScalar 0) (NScalar 0)
      (NScalar 0) (NScalar 0) (Kwargs (Some 1) None None None None) = ok m /\
    rounds m = 2%nat /\
    exists emitted, circuit m = default [] (Some [H 0]) ++ emitted.
Proof.
  eexists. split; [reflexivity |].
  destruct (constructor_appends "repetition_code" (Some [H 0]) 2 (NScalar 0)
              (NScalar 0) (NScalar 0) (NScalar 0)
              (Kwargs (Some 1) None None None None) _ eq_refl)
    as (Hr & _ & He & _).
  split; [exact Hr | exact He].
Defined.

(** ** The qubits of the repetition code *)

Lemma stride2_seq (n a : nat) :
  stride2 (map Z.of_nat (seq a n))
  = map (fun i => Z.of_nat a + 2 * i) (range (Z.of_nat ((n + 1) / 2))).
Proof.
  revert a. induction n as [n IH] using lt_wf_ind. intros a.
  destruct n as [| [| n]].
  - reflexivity.
  - simpl. f_equal. lia.
  - change (stride2 (map Z.of_nat (seq a (S (S n)))))
      with (Z.of_nat a :: stride2 (map Z.of_nat (seq (S (S a)) n))).
    rewrite IH by lia.
    replace ((S (S n) + 1) / 2)%nat with (S ((n + 1) / 2)).
    + unfold range. rewrite !Nat2Z.id. cbn [seq map]. f_equal; [lia |].
      rewrite <- seq_shift, !map_map. apply map_ext. intros i. lia.
    + replace (S (S n) + 1)%nat with ((n + 1) + 1 * 2)%nat by lia.
      rewrite Nat.div_add by lia. lia.
Qed.

(** X14. The roles of the repetition code of distance [d >= 0]: the qubits
    are [0 .. 2d], the [d + 1] data qubits are the even ones, the [d]
    Z-checks the odd ones, and there is no X-check. *)
Theorem repetition_code_roles (c : option (list instruction)) (n : nat)
    (a1 a2 a3 a4 : noise_arg) (kw : kwargs) (d : Z) (m : StabilizerModel) :
  distance kw = Some d -> 0 <= d ->
  StabilizerModel_init "repetition_code" c n a1 a2 a3 a4 kw = ok m ->
  qubits m = range (2 * d + 1) /\
  data_qubits m = map (fun i => 2 * i) (range (d + 1)) /\
  z_check_qubits m = map (fun i => 2 * i + 1) (range d) /\
  x_check_qubits m = [] /\
  length (qubits m) = Z.to_nat (2 * d + 1) /\
  length (data_qubits m) = Z.to_nat (d + 1) /\
  length (z_check_qubits m) = Z.to_nat d.
Proof.
  intros Hd Hpos Hinit.
  apply StabilizerModel_init_inv in Hinit as (nc & nd & nz & nx & _ & _ & _ & _ & Hb).
  rewrite (build_repetition_code _ d) in Hb by exact Hd.
  unfold _repetition_code in Hb. cbn [code_params set_qubits] in Hb.
  rewrite Hd in Hb. cbn [bind param ok] in Hb. unfold ok in Hb.
  injection Hb as <-.
  cbn [qubits data_qubits z_check_qubits x_check_qubits set_circuit set_qubits].
  assert (Hdata : stride2 (range (2 * d + 1)) = map (fun i => 2 * i) (range (d + 1))).
  { unfold range at 1. rewrite stride2_seq.
    replace ((Z.to_nat (2 * d + 1) + 1) / 2)%nat with (Z.to_nat (d + 1)).
    - rewrite Z2Nat.id by lia. apply map_ext. intros i. lia.
    - replace (Z.to_nat (2 * d + 1) + 1)%nat with (Z.to_nat (d + 1) * 2)%nat by lia.
      now rewrite Nat.div_mul by lia. }
  assert (Hz : stride2 (tail (range (2 * d + 1))) = map (fun i => 2 * i + 1) (range d)).
  { rewrite tail_range, stride2_seq.
    replace ((Z.to_nat (2 * d + 1) - 1 + 1) / 2)%nat with (Z.to_nat d).
    - rewrite Z2Nat.id by lia. apply map_ext. intros i. lia.
    - replace (Z.to_nat (2 * d + 1) - 1 + 1)%nat with (1 + Z.to_nat d * 2)%nat by lia.
      now rewrite Nat.div_add by lia. }
  rewrite Hdata, Hz. repeat split.
  - unfold range. now rewrite length_map, length_seq.
  - unfold range. now rewrite !length_map, length_seq.
  - unfold range. now rewrite !length_map, length_seq.
Qed.

Lemma repetition_code_roles_witness :
  exists m,
    StabilizerModel_init "repetition_code" None 1 (NScalar 0) (NScalar 0)
      (NScalar 0) (NScalar 0) (Kwargs (Some 2) None None None None) = ok m /\
    data_qubits m = map (fun i => 2 * i) (range (2 + 1)) /\
    z_check_qubits m = map (fun i => 2 * i + 1) (range 2).
Proof.
  eexists. split; [reflexivity |].
  destruct (repetition_code_roles None 1 (NScalar 0) (NScalar 0) (NScalar 0)
              (NScalar 0) (Kwargs (Some 2) None None None None) 2 _ eq_refl
              ltac:(lia) eq_refl) as (_ & Hdata & Hz & _).
  split; [exact Hdata | exact Hz].
Defined.

(** ** The measurement stream *)

Lemma lookup_map {A B : Type} (f : A -> B) (l : list A) (i : nat) :
  map f l !! i = f <$> (l !! i).
Proof.
  revert i. induction l as [| x l IH]; intros [| i]; simpl; auto.
Qed.

Lemma lookup_range (n : Z) (i : nat) :
  (i < Z.to_nat n)%nat -> range n !! i = Some (Z.of_nat i).
Proof.
  intros Hi. unfold range. rewrite lookup_map, lookup_seq_lt by exact Hi.
  reflexivity.
Qed.

Lemma length_range (n : Z) : length (range n) = Z.to_nat n.
Proof. unfold range. now rewrite length_map, length_seq. Qed.

Lemma record_at_last (stream t : list Z) (k : nat) :
  (k < length t)%nat ->
  record_at (stream ++ t) (-1 - Z.of_nat k) = t !! (length t - 1 - k)%nat.
Proof.
  intros Hk. unfold record_at. rewrite length_app.
  destruct (Z.ltb_spec (-1 - Z.of_nat k) 0); [| lia].
  destruct (Z.leb_spec (- Z.of_nat (length stream + length t)) (-1 - Z.of_nat k));
    [| lia].
  cbn [andb]. rewrite lookup_app_r by lia. f_equal. lia.
Qed.

Lemma record_at_skip (stream t : list Z) (k : Z) :
  0 <= k ->
  record_at (stream ++ t) (-1 - k - Z.of_nat (length t)) = record_at stream (-1 - k).
Proof.
  intros Hk. unfold record_at. rewrite length_app.
  destruct (Z.ltb_spec (-1 - k - Z.of_nat (length t)) 0); [| lia].
  destruct (Z.ltb_spec (-1 - k) 0); [| lia]. cbn [andb].
  destruct (Z.leb_spec (- Z.of_nat (length stream + length t))
              (-1 - k - Z.of_nat (length t)));
    destruct (Z.leb_spec (- Z.of_nat (length stream)) (-1 - k)); try lia;
    [| reflexivity].
  rewrite lookup_app_l by lia. f_equal. lia.
Qed.

Lemma record_stream_app (c1 c2 : list instruction) :
  record_stream (c1 ++ c2) = record_stream c1 ++ record_stream c2.
Proof. unfold record_stream. apply flat_map_app. Qed.

Lemma resolved_app (s : string) (stream : list Z) (c1 c2 : list instruction) :
  resolved s stream (c1 ++ c2)
  = resolved s stream c1 ++ resolved s (stream ++ record_stream c1) c2.
Proof.
  revert stream. induction c1 as [| i c1 IH]; intros stream.
  - simpl. now rewrite app_nil_r.
  - cbn [app resolved]. rewrite IH, <- !app_assoc. reflexivity.
Qed.

Lemma record_stream_none (c : list instruction) :
  Forall (fun i => is_measurement i = false) c -> record_stream c = [].
Proof.
  induction 1 as [| i c Hi _ IH]; [reflexivity |].
  unfold record_stream in *. cbn [flat_map]. unfold records_of at 1.
  now rewrite Hi, IH.
Qed.

Lemma resolved_none (s : string) (stream : list Z) (c : list instruction) :
  Forall (fun i => has_name s i = false /\ is_measurement i = false) c ->
  resolved s stream c = [].
Proof.
  intros Hc. revert stream. induction Hc as [| i c [Hn Hm] _ IH]; intros stream;
    [reflexivity |].
  cbn [resolved]. unfold records_of. rewrite Hn, Hm, app_nil_r. apply IH.
Qed.

Lemma lookbacks_of_records (s : string) (ks : list Z) (p : list Q) :
  lookbacks_of (Instruction s (map target_rec ks) p) = ks.
Proof.
  unfold lookbacks_of. cbn [targets]. induction ks as [| k ks IH]; simpl;
    [reflexivity | now rewrite IH].
Qed.

Lemma qubits_of_lookbacks (s : string) (ks : list Z) (p : list Q) :
  qubits_of (Instruction s (map target_rec ks) p) = [].
Proof.
  unfold qubits_of. cbn [targets]. induction ks as [| k ks IH]; simpl;
    [reflexivity | exact IH].
Qed.

Lemma lookbacks_of_DETECTOR (ks : list Z) : lookbacks_of (DETECTOR ks) = ks.
Proof. apply lookbacks_of_records. Qed.

Lemma records_of_DETECTOR (ks : list Z) : records_of (DETECTOR ks) = [].
Proof. reflexivity. Qed.

(** The detectors of a run of [DETECTOR] instructions. *)
Lemma resolved_detectors {A : Type} (f : A -> list Z) (l : list A) (stream : list Z) :
  resolved "DETECTOR" stream (map (fun k => DETECTOR (f k)) l)
  = map (fun k => map (record_at stream) (f k)) l /\
  record_stream (map (fun k => DETECTOR (f k)) l) = [] /\
  resolved "OBSERVABLE_INCLUDE" stream (map (fun k => DETECTOR (f k)) l) = [].
Proof.
  induction l as [| k l (IH1 & IH2 & IH3)]; [repeat split |].
  cbn [map resolved]. rewrite records_of_DETECTOR, app_nil_r, IH1, IH3.
  rewrite lookbacks_of_DETECTOR. split; [reflexivity |]. split; [| reflexivity].
  unfold record_stream in *. cbn [flat_map]. now rewrite IH2.
Qed.

(** Repeating a block whose resolution does not depend on the records
    before the last [length z] ones. *)
Lemma resolved_repeat_circuit (s : string) (body : list instruction) (z : list Z)
    (R : list (list (option Z))) (n : nat) (stream : list Z) :
  record_stream body = z ->
  (forall st, resolved s (st ++ z) body = R) ->
  resolved s (stream ++ z) (repeat_circuit body n) = List.concat (repeat R n) /\
  exists st', stream ++ z ++ record_stream (repeat_circuit body n) = st' ++ z.
Proof.
  intros Hz HR. revert stream. unfold repeat_circuit.
  induction n as [| n IH]; intros stream.
  - simpl. split; [reflexivity |]. exists stream. now rewrite app_nil_r.
  - cbn [repeat List.concat]. rewrite resolved_app, HR, Hz, record_stream_app, Hz.
    destruct (IH (stream ++ z)) as [IH1 (st' & IH2)]. rewrite IH1.
    split; [reflexivity |]. exists st'. rewrite <- IH2, <- !app_assoc. reflexivity.
Qed.

Lemma resolved_quiet (s : string) (stream : list Z) (c1 c2 : list instruction) :
  s = "DETECTOR" \/ s = "OBSERVABLE_INCLUDE" ->
  Forall quiet c1 ->
  resolved s stream (c1 ++ c2) = resolved s stream c2 /\
  record_stream (c1 ++ c2) = record_stream c2.
Proof.
  intros Hs Hq.
  assert (Hr : record_stream c1 = []).
  { apply record_stream_none. eapply Forall_impl; [exact Hq |]. now intros i (H & _). }
  rewrite resolved_app, record_stream_app, Hr, app_nil_r. split; [| reflexivity].
  rewrite resolved_none; [reflexivity |].
  eapply Forall_impl; [exact Hq |]. intros i (Hm & Hd & Ho).
  destruct Hs as [-> | ->]; now split.
Qed.

Lemma records_of_measure (s : string) (qs : list Z) :
  s = "M" \/ s = "MR" -> records_of (Instruction s (map qubit qs) []) = qs.
Proof.
  intros [-> | ->]; unfold records_of, is_measurement, has_name; cbn [name orb];
    [change (String.eqb "M" "M") with true
    | change (String.eqb "MR" "M") with false;
      change (String.eqb "MR" "MR") with true];
    cbn [orb]; apply qubits_of_qubits.
Qed.

Lemma resolved_measure (s : string) (stream qs : list Z) (rest : list instruction) :
  s = "DETECTOR" \/ s = "OBSERVABLE_INCLUDE" ->
  resolved s stream (MR qs :: rest) = resolved s (stream ++ qs) rest /\
  resolved s stream (M qs :: rest) = resolved s (stream ++ qs) rest /\
  record_stream (MR qs :: rest) = qs ++ record_stream rest /\
  record_stream (M qs :: rest) = qs ++ record_stream rest.
Proof.
  intros Hs. unfold record_stream. cbn [resolved flat_map]. unfold MR, M.
  rewrite !records_of_measure by auto.
  destruct Hs as [-> | ->]; repeat split.
Qed.

Lemma repetition_gates_quiet (self : StabilizerModel) :
  Forall quiet
    (flat_map (fun m =>
         [CNOT (m - 1) m; CNOT (m + 1) m] ++
         match noise_circuit self with
         | Some p => [PAULI_CHANNEL_2 (m - 1) m p; PAULI_CHANNEL_2 (m + 1) m p]
         | None => []
         end) (z_check_qubits self)) /\
  Forall quiet
    match noise_data self with
    | Some p => [PAULI_CHANNEL_1 (data_qubits self) p]
    | None => []
    end /\
  Forall quiet
    match noise_z_check self with
    | Some p => [PAULI_CHANNEL_1 (z_check_qubits self) p]
    | None => []
    end.
Proof.
  repeat split.
  - apply List.Forall_forall. intros i Hin.
    apply in_flat_map in Hin as (q & _ & Hin).
    destruct (noise_circuit self); simpl in Hin;
      intuition (subst; repeat split).
  - destruct (noise_data self); repeat constructor.
  - destruct (noise_z_check self); repeat constructor.
Qed.

(** One round of the repetition code on the stream. *)
Lemma repetition_round_resolved (self : StabilizerModel) (d : Z) (stream : list Z) :
  record_stream (repetition_round self d) = z_check_qubits self /\
  resolved "DETECTOR" stream (repetition_round self d)
  = map (fun k => [record_at (stream ++ z_check_qubits self) (-1 - k);
                   record_at (stream ++ z_check_qubits self) (-1 - k - d)])
      (range_len (z_check_qubits self)) /\
  resolved "OBSERVABLE_INCLUDE" stream (repetition_round self d) = [].
Proof.
  unfold repetition_round.
  destruct (repetition_gates_quiet self) as (Q1 & Q2 & Q3).
  pose proof (resolved_detectors (fun k => [-1 - k; -1 - k - d])
                (range_len (z_check_qubits self))
                (stream ++ z_check_qubits self)) as (D1 & D2 & D3).
  repeat split.
  - rewrite (proj2 (resolved_quiet "DETECTOR" stream _ _ (or_introl eq_refl) Q1)).
    rewrite (proj2 (resolved_quiet "DETECTOR" stream _ _ (or_introl eq_refl) Q2)).
    rewrite (proj2 (resolved_quiet "DETECTOR" stream _ _ (or_introl eq_refl) Q3)).
    cbn [app].
    destruct (resolved_measure "DETECTOR" stream (z_check_qubits self)
                (map (fun k => DETECTOR [-1 - k; -1 - k - d])
                   (range_len (z_check_qubits self))) (or_introl eq_refl))
      as (_ & _ & -> & _).
    now rewrite D2, app_nil_r.
  - rewrite (proj1 (resolved_quiet "DETECTOR" stream _ _ (or_introl eq_refl) Q1)).
    rewrite (proj1 (resolved_quiet "DETECTOR" stream _ _ (or_introl eq_refl) Q2)).
    rewrite (proj1 (resolved_quiet "DETECTOR" stream _ _ (or_introl eq_refl) Q3)).
    cbn [app].
    destruct (resolved_measure "DETECTOR" stream (z_check_qubits self)
                (map (fun k => DETECTOR [-1 - k; -1 - k - d])
                   (range_len (z_check_qubits self))) (or_introl eq_refl))
      as (-> & _).
    exact D1.
  - rewrite (proj1 (resolved_quiet "OBSERVABLE_INCLUDE" stream _ _ (or_intror eq_refl) Q1)).
    rewrite (proj1 (resolved_quiet "OBSERVABLE_INCLUDE" stream _ _ (or_intror eq_refl) Q2)).
    rewrite (proj1 (resolved_quiet "OBSERVABLE_INCLUDE" stream _ _ (or_intror eq_refl) Q3)).
    cbn [app].
    destruct (resolved_measure "OBSERVABLE_INCLUDE" stream (z_check_qubits self)
                (map (fun k => DETECTOR [-1 - k; -1 - k - d])
                   (range_len (z_check_qubits self))) (or_intror eq_refl))
      as (-> & _).
    exact D3.
Qed.

Lemma record_stream_repeat_circuit (body : list instruction) (n : nat) :
  record_stream (repeat_circuit body n) = List.concat (repeat (record_stream body) n).
Proof.
  unfold repeat_circuit. induction n as [| n IH]; [reflexivity |].
  cbn [repeat List.concat]. now rewrite record_stream_app, IH.
Qed.

Lemma repetition_lists (d : Z) :
  0 <= d ->
  stride2 (range (2 * d + 1)) = map (fun i => 2 * i) (range (d + 1)) /\
  stride2 (tail (range (2 * d + 1))) = map (fun i => 2 * i + 1) (range d).
Proof.
  intros Hpos. split.
  - unfold range at 1. rewrite stride2_seq.
    replace ((Z.to_nat (2 * d + 1) + 1) / 2)%nat with (Z.to_nat (d + 1)).
    + rewrite Z2Nat.id by lia. apply map_ext. intros i. lia.
    + replace (Z.to_nat (2 * d + 1) + 1)%nat with (Z.to_nat (d + 1) * 2)%nat by lia.
      now rewrite Nat.div_mul by lia.
  - rewrite tail_range, stride2_seq.
    replace ((Z.to_nat (2 * d + 1) - 1 + 1) / 2)%nat with (Z.to_nat d).
    + rewrite Z2Nat.id by lia. apply map_ext. intros i. lia.
    + replace (Z.to_nat (2 * d + 1) - 1 + 1)%nat with (1 + Z.to_nat d * 2)%nat by lia.
      now rewrite Nat.div_add by lia.
Qed.

(** The record [-1 - k] after a run of measurements of the qubits
    [f 0 .. f (n - 1)]. *)
Lemma record_at_map (f : Z -> Z) (n : Z) (stream : list Z) (k : Z) :
  0 <= k < n ->
  record_at (stream ++ map f (range n)) (-1 - k) = Some (f (n - 1 - k)).
Proof.
  intros Hk. replace k with (Z.of_nat (Z.to_nat k)) at 1 by lia.
  rewrite record_at_last by (rewrite length_map, length_range; lia).
  rewrite length_map, length_range, lookup_map, lookup_range by lia.
  simpl. f_equal. f_equal. lia.
Qed.

Lemma record_at_map_skip (f : Z -> Z) (n : Z) (stream : list Z) (k : Z) :
  0 <= k -> 0 <= n ->
  record_at (stream ++ map f (range n)) (-1 - k - n) = record_at stream (-1 - k).
Proof.
  intros Hk Hn.
  replace n with (Z.of_nat (length (map f (range n)))) at 2
    by (rewrite length_map, length_range; lia).
  now apply record_at_skip.
Qed.

Lemma repetition_code_stream (self : StabilizerModel) (d : Z) (m : StabilizerModel) :
  distance (code_params self) = Some d -> 0 <= d ->
  build_code self "repetition_code" = ok m ->
  exists emitted,
    circuit m = circuit self ++ emitted /\
    record_stream emitted
    = map (fun i => 2 * i + 1) (range d)
      ++ List.concat (repeat (map (fun i => 2 * i + 1) (range d)) (rounds self))
      ++ map (fun i => 2 * i) (range (d + 1)) /\
    forall stream,
      resolved "DETECTOR" stream emitted
      = List.concat
          (repeat (map (fun k => [Some (2 * (d - 1 - k) + 1);
                                  Some (2 * (d - 1 - k) + 1)]) (range d))
             (rounds self))
        ++ map (fun k => [Some (2 * (d - 1 - k) + 2); Some (2 * (d - 1 - k));
                          Some (2 * (d - 1 - k) + 1)]) (range d) /\
      resolved "OBSERVABLE_INCLUDE" stream emitted = [[Some (2 * d)]].
Proof.
  intros Hd Hpos Hb.
  rewrite (build_repetition_code _ d) in Hb by exact Hd.
  destruct (repetition_lists d Hpos) as (Hdata & Hz).
  rewrite Hdata, Hz in Hb.
  set (self' := set_qubits _ _ _ _ _ _) in Hb.
  unfold _repetition_code in Hb.
  assert (Hd' : distance (code_params self') = Some d) by exact Hd.
  rewrite Hd' in Hb. cbn [bind param ok] in Hb. unfold ok in Hb.
  injection Hb as <-.
  assert (Ez : z_check_qubits self' = map (fun i => 2 * i + 1) (range d))
    by reflexivity.
  assert (Ed : data_qubits self' = map (fun i => 2 * i) (range (d + 1)))
    by reflexivity.
  assert (Er : rounds self' = rounds self) by reflexivity.
  assert (Ec : circuit self' = circuit self) by reflexivity.
  assert (El : range_len (map (fun i => 2 * i + 1) (range d)) = range d).
  { unfold range_len. rewrite length_map, length_range. f_equal. lia. }
  pose proof (repetition_round_resolved self' d) as Hround.
  rewrite Ez, El in Hround.
  clearbody self'. rewrite El.
  clear Ez Ed Er Ec Hd Hd'.
  set (z := map (fun i => 2 * i + 1) (range d)) in *.
  set (data := map (fun i => 2 * i) (range (d + 1))).
  set (body := repetition_round self' d) in *.
  eexists. split; [reflexivity |]. split.
  - cbn [app].
    destruct (resolved_measure "DETECTOR" [] z
                (repeat_circuit body (rounds self) ++
                 M data :: map (fun k => DETECTOR [-1 - k; -2 - k; -2 - k - d])
                             (range d) ++ [OBSERVABLE_INCLUDE [-1] 0])
                (or_introl eq_refl)) as (_ & _ & _ & ->).
    rewrite record_stream_app, record_stream_repeat_circuit.
    destruct (Hround []) as (-> & _).
    destruct (resolved_measure "DETECTOR" [] data
                (map (fun k => DETECTOR [-1 - k; -2 - k; -2 - k - d])
                             (range d) ++ [OBSERVABLE_INCLUDE [-1] 0])
                (or_introl eq_refl)) as (_ & _ & _ & ->).
    rewrite record_stream_app.
    destruct (resolved_detectors (fun k => [-1 - k; -2 - k; -2 - k - d]) (range d) [])
      as (_ & -> & _).
    cbn [app]. unfold record_stream. cbn [flat_map].
    change (records_of (OBSERVABLE_INCLUDE [-1] 0)) with (@nil Z).
    now rewrite !app_nil_r.
  - intros stream.
    assert (HR : forall st,
      resolved "DETECTOR" (st ++ z) body
      = map (fun k => [Some (2 * (d - 1 - k) + 1); Some (2 * (d - 1 - k) + 1)])
          (range d)).
    { intros st. destruct (Hround (st ++ z)) as (_ & -> & _).
      apply map_ext_in. intros k Hk. apply in_range in Hk.
      unfold z. rewrite record_at_map by lia.
      rewrite record_at_map_skip by lia. rewrite record_at_map by lia.
      reflexivity. }
    assert (HO : forall st, resolved "OBSERVABLE_INCLUDE" (st ++ z) body = []).
    { intros st. now destruct (Hround (st ++ z)) as (_ & _ & ->). }
    assert (Hbz : record_stream body = z) by now destruct (Hround []).
    cbn [app].
    destruct (resolved_repeat_circuit "DETECTOR" body z _ (rounds self) stream Hbz HR)
      as (HD1 & st' & Hst).
    destruct (resolved_repeat_circuit "OBSERVABLE_INCLUDE" body z _ (rounds self)
                stream Hbz HO) as (HO1 & _).
    split.
    + destruct (resolved_measure "DETECTOR" stream z
                (repeat_circuit body (rounds self) ++
                 M data :: map (fun k => DETECTOR [-1 - k; -2 - k; -2 - k - d])
                             (range d) ++ [OBSERVABLE_INCLUDE [-1] 0])
                (or_introl eq_refl)) as (_ & -> & _).
      rewrite resolved_app, HD1. f_equal.
      rewrite <- app_assoc, Hst.
      destruct (resolved_measure "DETECTOR" (st' ++ z) data
                (map (fun k => DETECTOR [-1 - k; -2 - k; -2 - k - d])
                             (range d) ++ [OBSERVABLE_INCLUDE [-1] 0])
                (or_introl eq_refl)) as (_ & -> & _).
      rewrite resolved_app.
      destruct (resolved_detectors (fun k => [-1 - k; -2 - k; -2 - k - d]) (range d)
                  ((st' ++ z) ++ data)) as (-> & -> & _).
      cbn [resolved]. change (has_name "DETECTOR" (OBSERVABLE_INCLUDE [-1] 0)) with false.
      cbn [app]. rewrite app_nil_r.
      apply map_ext_in. intros k Hk. apply in_range in Hk. cbn [map].
      unfold data.
      rewrite (record_at_map (fun i => 2 * i) (d + 1)) by lia.
      replace (-2 - k) with (-1 - (k + 1)) by lia.
      rewrite (record_at_map (fun i => 2 * i) (d + 1)) by lia.
      replace (-1 - (k + 1) - d) with (-1 - k - (d + 1)) by lia.
      rewrite record_at_map_skip by lia.
      unfold z. rewrite record_at_map by lia.
      replace (2 * (d + 1 - 1 - k)) with (2 * (d - 1 - k) + 2) by lia.
      replace (2 * (d + 1 - 1 - (k + 1))) with (2 * (d - 1 - k)) by lia.
      reflexivity.
    + destruct (resolved_measure "OBSERVABLE_INCLUDE" stream z
                (repeat_circuit body (rounds self) ++
                 M data :: map (fun k => DETECTOR [-1 - k; -2 - k; -2 - k - d])
                             (range d) ++ [OBSERVABLE_INCLUDE [-1] 0])
                (or_intror eq_refl)) as (_ & -> & _).
      rewrite resolved_app, HO1.
      assert (Hnil : forall j, List.concat (repeat [] j) = @nil (list (option Z)))
        by (induction j; simpl; auto).
      rewrite Hnil.
      cbn [app]. rewrite <- app_assoc, Hst.
      destruct (resolved_measure "OBSERVABLE_INCLUDE" (st' ++ z) data
                (map (fun k => DETECTOR [-1 - k; -2 - k; -2 - k - d])
                             (range d) ++ [OBSERVABLE_INCLUDE [-1] 0])
                (or_intror eq_refl)) as (_ & -> & _).
      rewrite resolved_app.
      destruct (resolved_detectors (fun k => [-1 - k; -2 - k; -2 - k - d]) (range d)
                  ((st' ++ z) ++ data)) as (_ & -> & ->).
      cbn [resolved app].
      change (has_name "OBSERVABLE_INCLUDE" (OBSERVABLE_INCLUDE [-1] 0)) with true.
      cbn [app]. rewrite app_nil_r.
      change (lookbacks_of (OBSERVABLE_INCLUDE [-1] 0)) with [-1]. cbn [map].
      unfold data. change (-1) with (-1 - 0).
      rewrite (record_at_map (fun i => 2 * i) (d + 1)) by lia.
      replace (2 * (d + 1 - 1 - 0)) with (2 * d) by lia. reflexivity.
Qed.

(** X15. The repetition code of distance [d >= 0] on the measurement
    records: the code appends one measurement of the checks, then [rounds]
    times a measurement of the checks, and at last one of the data qubits.
    Whatever was recorded before, the two lookbacks of each round detector
    designate the same check qubit [q], measured in this round and in the
    measurement before; the three lookbacks of each final detector
    designate the data qubits [q + 1] and [q - 1] and the last measurement
    of the check [q] between them; the observable is the last data qubit,
    [2 d]. The checks are taken from the last one down. *)
Theorem repetition_code_detectors (c : option (list instruction)) (n : nat)
    (a1 a2 a3 a4 : noise_arg) (kw : kwargs) (d : Z) (m : StabilizerModel) :
  distance kw = Some d -> 0 <= d ->
  StabilizerModel_init "repetition_code" c n a1 a2 a3 a4 kw = ok m ->
  exists emitted,
    circuit m = default [] c ++ emitted /\
    record_stream emitted
    = map (fun i => 2 * i + 1) (range d)
      ++ List.concat (repeat (map (fun i => 2 * i + 1) (range d)) n)
      ++ map (fun i => 2 * i) (range (d + 1)) /\
    forall stream,
      resolved "DETECTOR" stream emitted
      = List.concat
          (repeat (map (fun k => [Some (2 * (d - 1 - k) + 1);
                                  Some (2 * (d - 1 - k) + 1)]) (range d)) n)
        ++ map (fun k => [Some (2 * (d - 1 - k) + 2); Some (2 * (d - 1 - k));
                          Some (2 * (d - 1 - k) + 1)]) (range d) /\
      resolved "OBSERVABLE_INCLUDE" stream emitted = [[Some (2 * d)]].
Proof.
  intros Hd Hpos Hinit.
  apply StabilizerModel_init_inv in Hinit as (nc & nd & nz & nx & _ & _ & _ & _ & Hb).
  apply (repetition_code_stream _ d m) in Hb; [exact Hb | exact Hd | exact Hpos].
Qed.

Lemma repetition_code_detectors_witness :
  exists m,
    StabilizerModel_init "repetition_code" None 2 (NScalar 0) (NScalar 0)
      (NScalar 0) (NScalar 0) (Kwargs (Some 3) None None None None) = ok m /\
    exists emitted,
      circuit m = emitted /\
      forall stream,
        resolved "DETECTOR" stream emitted
        = [[Some 5; Some 5]; [Some 3; Some 3]; [Some 1; Some 1];
           [Some 5; Some 5]; [Some 3; Some 3]; [Some 1; Some 1];
           [Some 6; Some 4; Some 5]; [Some 4; Some 2; Some 3];
           [Some 2; Some 0; Some 1]] /\
        resolved "OBSERVABLE_INCLUDE" stream emitted = [[Some 6]].
Proof.
  eexists. split; [reflexivity |].
  destruct (repetition_code_detectors None 2 (NScalar 0) (NScalar 0) (NScalar 0)
              (NScalar 0) (Kwargs (Some 3) None None None None) 3 _ eq_refl
              ltac:(lia) eq_refl) as (emitted & Hc & _ & Hr).
  exists emitted. split; [exact Hc |]. exact Hr.
Defined.

(** ** The qubits of the surface code *)

Lemma in_sites (sc : Z * Z) (row col : Z) :
  In (row, col) (sites sc) <-> 0 <= row < sc.1 /\ 0 <= col < sc.2.
Proof.
  unfold sites. rewrite in_flat_map. split.
  - intros (r & Hr & Hin). apply in_map_iff in Hin as (c & Heq & Hc).
    injection Heq as -> ->. apply in_range in Hr, Hc. lia.
  - intros [Hr Hc]. exists row. split; [now apply in_range |].
    apply in_map_iff. exists col. split; [reflexivity | now apply in_range].
Qed.

Lemma qubits_of_role_range (r : role) (sc : Z * Z) :
  Forall (fun q => 0 <= q < sc.1 * sc.2) (qubits_of_role r sc).
Proof.
  apply List.Forall_forall. intros q Hq.
  apply in_qubits_of_role in Hq as (row & col & Hr & Hc & _ & ->). nia.
Qed.

(** The gates of one grid position stay on the grid, unless the grid has
    one row and a Z-check. *)
Lemma surface_site_qubits (self : StabilizerModel) (R C row col : Z) :
  R mod 2 <> 0 -> C mod 2 <> 0 -> R <> 1 \/ C <= 1 ->
  0 <= row < R -> 0 <= col < C ->
  Forall (fun i => Forall (fun q => 0 <= q < R * C) (qubits_of i))
    (surface_site self (R, C) row col).
Proof.
  intros HR HC Hone Hrow Hcol. unfold surface_site. cbn [fst snd].
  destruct (Z.eqb_spec (row mod 2) 0) as [Er | Er];
    destruct (Z.eqb_spec (col mod 2) 0) as [Ec | Ec]; cbn [negb andb].
  - constructor.
  - (* Z-check *)
    assert (1 <= col <= C - 2) by (Z.div_mod_to_equations; lia).
    assert (2 <= R) by lia.
    assert (0 <= row * C) by nia.
    assert (row * C + C <= R * C) by nia.
    destruct (Z.eqb_spec row 0) as [E0 | E0];
      [| destruct (Z.eqb_spec row (R - 1)) as [E1 | E1]].
    + assert (row * C + 2 * C <= R * C) by nia.
      destruct (noise_circuit self);
        repeat first [apply Forall_app_2 | apply Forall_cons_2 | apply Forall_nil_2];
        cbn; repeat constructor; lia.
    + assert (C <= row * C) by nia.
      destruct (noise_circuit self);
        repeat first [apply Forall_app_2 | apply Forall_cons_2 | apply Forall_nil_2];
        cbn; repeat constructor; lia.
    + assert (C <= row * C) by nia.
      assert (row * C + 2 * C <= R * C) by nia.
      destruct (noise_circuit self);
        repeat first [apply Forall_app_2 | apply Forall_cons_2 | apply Forall_nil_2];
        cbn; repeat constructor; lia.
  - (* X-check *)
    assert (1 <= row <= R - 2) by (Z.div_mod_to_equations; lia).
    assert (1 <= C) by lia.
    assert (C <= row * C) by nia.
    assert (row * C + 2 * C <= R * C) by nia.
    destruct (Z.eqb_spec col 0) as [E0 | E0];
      [| destruct (Z.eqb_spec col (C - 1)) as [E1 | E1]];
      destruct (noise_circuit self);
        repeat first [apply Forall_app_2 | apply Forall_cons_2 | apply Forall_nil_2];
        cbn; repeat constructor; lia.
  - constructor.
Qed.

(** What a successful surface-code build has done. *)
Lemma build_surface_code_inv (self : StabilizerModel) (code : string)
    (subcode : option string) (rows cols : Z) (m : StabilizerModel) :
  parse_code code = ok ("surface_code", subcode) ->
  scale (code_params self) = Some (rows, cols) ->
  build_code self code = ok m ->
  rows mod 2 <> 0 /\ cols mod 2 <> 0 /\
  exists self',
    qubits self' = range (rows * cols) /\
    data_qubits self' = qubits_of_role Data (rows, cols) /\
    z_check_qubits self' = qubits_of_role ZCheck (rows, cols) /\
    x_check_qubits self' = qubits_of_role XCheck (rows, cols) /\
    rounds self' = rounds self /\
    qubits m = range (rows * cols) /\
    circuit m
    = circuit self
      ++ map (fun site => QUBIT_COORDS (site.1 * cols + site.2) site.1 site.2)
           (sites (rows, cols))
      ++ [R (qubits self')]
      ++ [M (z_check_qubits self' ++ x_check_qubits self')]
      ++ repeat_circuit (surface_round self' (rows, cols) subcode) (rounds self)
      ++ [M (data_qubits self')]
      ++ (if bool_decide (subcode = Some "z_memory") then
            z_final_detectors self' (rows, cols) (range_len (z_check_qubits self')) 0 0
          else if bool_decide (subcode = Some "x_memory") then
            x_final_detectors self' (rows, cols) (range_len (x_check_qubits self')) 0
          else [])
      ++ [OBSERVABLE_INCLUDE (observable_lookback_indices (rows, cols) subcode) 0].
Proof.
  intros Hp Hs Hb.
  rewrite (build_surface_code _ code subcode (rows, cols) Hp) in Hb by exact Hs.
  cbn [fst snd] in Hb.
  destruct (Z.eqb_spec (rows mod 2) 0) as [Hrows | Hrows]; [discriminate |].
  destruct (Z.eqb_spec (cols mod 2) 0) as [Hcols | Hcols]; [discriminate |].
  cbn [negb andb] in Hb.
  set (self' := set_qubits _ _ _ _ _ _) in Hb.
  unfold _surface_code in Hb.
  assert (Hs' : scale (code_params self') = Some (rows, cols)) by exact Hs.
  rewrite Hs' in Hb. cbn [bind param ok] in Hb. unfold ok in Hb.
  injection Hb as <-.
  split; [exact Hrows |]. split; [exact Hcols |].
  exists self'. repeat split; try reflexivity.
  cbn [circuit set_circuit]. unfold self' at 1. cbn [circuit set_qubits].
  rewrite <- app_assoc. reflexivity.
Qed.

Lemma final_detectors_no_qubits (self : StabilizerModel) (sc : Z * Z)
    (ks : list Z) (row skip : Z) :
  Forall (fun i => qubits_of i = []) (z_final_detectors self sc ks row skip) /\
  Forall (fun i => qubits_of i = []) (x_final_detectors self sc ks skip).
Proof.
  split.
  - revert row skip. induction ks as [| k ks IH]; intros row skip; [constructor |].
    cbn [z_final_detectors].
    destruct ((k mod (sc.2 / 2) =? 0) && negb (k =? 0));
      (constructor; [apply qubits_of_lookbacks | apply IH]).
  - revert skip. induction ks as [| k ks IH]; intros skip; [constructor |].
    cbn [x_final_detectors].
    constructor; [apply qubits_of_lookbacks | apply IH].
Qed.

Lemma surface_round_qubits (self : StabilizerModel) (subcode : option string)
    (rows cols : Z) :
  rows mod 2 <> 0 -> cols mod 2 <> 0 -> rows <> 1 \/ cols <= 1 ->
  Forall (fun q => 0 <= q < rows * cols) (data_qubits self) ->
  Forall (fun q => 0 <= q < rows * cols) (z_check_qubits self) ->
  Forall (fun q => 0 <= q < rows * cols) (x_check_qubits self) ->
  Forall (fun i => Forall (fun q => 0 <= q < rows * cols) (qubits_of i))
    (surface_round self (rows, cols) subcode).
Proof.
  intros Hrows Hcols Hone Hd Hz Hx.
  unfold surface_round, surface_checks, surface_detect.
  repeat apply Forall_app_2.
  - apply List.Forall_forall. intros i Hin.
    apply in_flat_map in Hin as ([row col] & Hsite & Hin).
    apply in_sites in Hsite. cbn [fst snd] in *.
    pose proof (surface_site_qubits self rows cols row col Hrows Hcols Hone
                  (proj1 Hsite) (proj2 Hsite)) as Hs.
    rewrite List.Forall_forall in Hs. now apply Hs.
  - destruct (noise_data self); repeat constructor.
    unfold PAULI_CHANNEL_1. now rewrite qubits_of_qubits.
  - destruct (noise_z_check self); repeat constructor.
    unfold PAULI_CHANNEL_1. now rewrite qubits_of_qubits.
  - destruct (noise_x_check self); repeat constructor.
    unfold PAULI_CHANNEL_1. now rewrite qubits_of_qubits.
  - repeat constructor. unfold MR. now rewrite qubits_of_qubits.
  - assert (Hdet : forall checks,
              Forall (fun i => Forall (fun q => 0 <= q < rows * cols) (qubits_of i))
                (round_detectors self checks)).
    { intros checks. apply List.Forall_forall. intros i Hin.
      apply in_map_iff in Hin as (k & <- & _).
      unfold DETECTOR. rewrite qubits_of_lookbacks. constructor. }
    assert (Hmx : Forall (fun i => Forall (fun q => 0 <= q < rows * cols) (qubits_of i))
                    [MR (x_check_qubits self)]).
    { repeat constructor. unfold MR. now rewrite qubits_of_qubits. }
    destruct (bool_decide (subcode = Some "z_memory"));
      [| destruct (bool_decide (subcode = Some "x_memory"))].
    + apply Forall_app_2; [apply Hdet | exact Hmx].
    + apply Forall_app_2; [exact Hmx | apply Hdet].
    + constructor.
Qed.

Lemma surface_code_in_range (self : StabilizerModel) (code : string)
    (subcode : option string) (rows cols : Z) (m : StabilizerModel) :
  parse_code code = ok ("surface_code", subcode) ->
  scale (code_params self) = Some (rows, cols) ->
  build_code self code = ok m ->
  qubits m = range (rows * cols) /\
  (rows <> 1 \/ cols <= 1 ->
   exists emitted,
     circuit m = circuit self ++ emitted /\
     Forall (fun i => Forall (fun q => 0 <= q < rows * cols) (qubits_of i)) emitted) /\
  (rows = 1 -> 3 <= cols -> (1 <= rounds self)%nat ->
   In (CNOT (1 + cols) 1) (circuit m) /\ ~ In (1 + cols) (qubits m)).
Proof.
  intros Hp Hs Hb.
  destruct (build_surface_code_inv self code subcode rows cols m Hp Hs Hb)
    as (Hrows & Hcols & self' & Eq & Ed & Ez & Ex & Er & Eqm & Ec).
  split; [exact Eqm |]. split.
  - intros Hone. eexists. split; [exact Ec |].
    pose proof (qubits_of_role_range Data (rows, cols)) as Hd.
    pose proof (qubits_of_role_range ZCheck (rows, cols)) as Hz.
    pose proof (qubits_of_role_range XCheck (rows, cols)) as Hx.
    cbn [fst snd] in Hd, Hz, Hx. rewrite <- Ed in Hd. rewrite <- Ez in Hz.
    rewrite <- Ex in Hx.
    repeat apply Forall_app_2.
    + apply List.Forall_forall. intros i Hin.
      apply in_map_iff in Hin as ([row col] & <- & Hsite).
      apply in_sites in Hsite. cbn [fst snd] in *.
      repeat constructor; nia.
    + repeat constructor. unfold R. rewrite qubits_of_qubits, Eq.
      apply List.Forall_forall. intros q Hq. now apply in_range in Hq.
    + repeat constructor. unfold M. rewrite qubits_of_qubits.
      now apply Forall_app_2.
    + apply Forall_repeat_circuit.
      now apply surface_round_qubits.
    + repeat constructor. unfold M. now rewrite qubits_of_qubits.
    + destruct (final_detectors_no_qubits self' (rows, cols)
                  (range_len (z_check_qubits self')) 0 0) as [Hfz _].
      destruct (final_detectors_no_qubits self' (rows, cols)
                  (range_len (x_check_qubits self')) 0 0) as [_ Hfx].
      destruct (bool_decide (subcode = Some "z_memory"));
        [| destruct (bool_decide (subcode = Some "x_memory"))].
      * eapply Forall_impl; [exact Hfz |]. intros i ->. constructor.
      * eapply Forall_impl; [exact Hfx |]. intros i ->. constructor.
      * constructor.
    + repeat constructor. unfold OBSERVABLE_INCLUDE.
      rewrite qubits_of_lookbacks. constructor.
  - intros -> Hc Hn. split.
    + rewrite Ec. apply in_or_app. right. apply in_or_app. right.
      apply in_or_app. right. apply in_or_app. right. apply in_or_app. left.
      destruct (rounds self) as [| n]; [lia |].
      unfold repeat_circuit. cbn [repeat List.concat]. apply in_or_app. left.
      unfold surface_round, surface_checks.
      apply in_or_app. left. apply in_or_app. left.
      apply in_flat_map. exists (0, 1). split; [apply in_sites; cbn; lia |].
      unfold surface_site. cbn [fst snd].
      change (0 mod 2 =? 0) with true. change (1 mod 2 =? 0) with false.
      cbn [negb andb]. change (0 =? 0) with true.
      cbn [app]. right. right. left. reflexivity.
    + rewrite Eqm. intros Hin. apply in_range in Hin. lia.
Qed.

(** X16. The qubits the surface code addresses.  The qubits are
    [0 .. rows * cols - 1].  Unless the grid has one row and three columns
    or more, every qubit addressed by an instruction the constructor emits
    (coordinates, reset, gates, noise channels, measurements) is one of
    them.  On a grid of one row and three columns or more, with one round
    or more, the Z-check at column 1 is given the gate [CNOT 1+cols 1],
    whose control is not a qubit of the model. *)
Theorem surface_code_qubits_in_range (code : string) (subcode : option string)
    (c : option (list instruction)) (n : nat) (a1 a2 a3 a4 : noise_arg)
    (kw : kwargs) (rows cols : Z) (m : StabilizerModel) :
  parse_code code = ok ("surface_code", subcode) ->
  scale kw = Some (rows, cols) ->
  StabilizerModel_init code c n a1 a2 a3 a4 kw = ok m ->
  qubits m = range (rows * cols) /\
  (rows <> 1 \/ cols <= 1 ->
   exists emitted,
     circuit m = default [] c ++ emitted /\
     Forall (fun i => Forall (fun q => 0 <= q < rows * cols) (qubits_of i)) emitted) /\
  (rows = 1 -> 3 <= cols -> (1 <= n)%nat ->
   In (CNOT (1 + cols) 1) (circuit m) /\ ~ In (1 + cols) (qubits m)).
Proof.
  intros Hp Hs Hinit.
  apply StabilizerModel_init_inv in Hinit as (nc & nd & nz & nx & _ & _ & _ & _ & Hb).
  apply (surface_code_in_range _ code subcode rows cols m Hp) in Hb;
    [exact Hb | exact Hs].
Qed.

Lemma surface_code_qubits_in_range_witness :
  (exists m,
     StabilizerModel_init "surface_code:z_memory" None 1 (NScalar 0) (NScalar 0)
       (NScalar 0) (NScalar 0) (Kwargs None (Some (3, 3)) None None None) = ok m /\
     exists emitted,
       circuit m = emitted /\
       Forall (fun i => Forall (fun q => 0 <= q < 3 * 3) (qubits_of i)) emitted) /\
  (exists m,
     StabilizerModel_init "surface_code:z_memory" None 1 (NScalar 0) (NScalar 0)
       (NScalar 0) (NScalar 0) (Kwargs None (Some (1, 3)) None None None) = ok m /\
     In (CNOT (1 + 3) 1) (circuit m) /\ ~ In (1 + 3) (qubits m)).
Proof.
  split.
  - eexists. split; [reflexivity |].
    destruct (surface_code_qubits_in_range "surface_code:z_memory" (Some "z_memory")
                None 1 (NScalar 0) (NScalar 0) (NScalar 0) (NScalar 0)
                (Kwargs None (Some (3, 3)) None None None) 3 3 _ eq_refl eq_refl
                eq_refl) as (_ & Hin & _).
    apply Hin. left. lia.
  - eexists. split; [reflexivity |].
    destruct (surface_code_qubits_in_range "surface_code:z_memory" (Some "z_memory")
                None 1 (NScalar 0) (NScalar 0) (NScalar 0) (NScalar 0)
                (Kwargs None (Some (1, 3)) None None None) 1 3 _ eq_refl eq_refl
                eq_refl) as (_ & _ & Hout).
    apply Hout; [reflexivity | lia | lia].
Defined.

(** ** The surface code on the measurement stream *)

Lemma rev_reverse {A : Type} (l : list A) : rev l = reverse l.
Proof. unfold reverse. apply rev_alt. Qed.

Lemma record_at_rev (stream t : list Z) (k : Z) :
  0 <= k < Z.of_nat (length t) ->
  record_at (stream ++ t) (-1 - k) = rev t !! Z.to_nat k.
Proof.
  intros Hk. replace k with (Z.of_nat (Z.to_nat k)) at 1 by lia.
  rewrite record_at_last by lia.
  rewrite rev_reverse, reverse_lookup by lia. f_equal. lia.
Qed.

Lemma map_range_lookup {A B : Type} (g : option A -> B) (l : list A) :
  map (fun k => g (l !! Z.to_nat k)) (range_len l) = map (fun q => g (Some q)) l.
Proof.
  apply list_eq. intros i. rewrite !lookup_map. unfold range_len.
  destruct (l !! i) as [q |] eqn:Hq.
  - apply lookup_lt_Some in Hq as Hi.
    rewrite lookup_range by lia. cbn. now rewrite Nat2Z.id, Hq.
  - apply lookup_ge_None in Hq as Hi.
    replace (range (Z.of_nat (length l)) !! i) with (@None Z); [reflexivity |].
    symmetry. apply lookup_ge_None. rewrite length_range. lia.
Qed.

Lemma surface_checks_quiet (self : StabilizerModel) (sc : Z * Z) :
  Forall quiet (surface_checks self sc).
Proof.
  unfold surface_checks. repeat apply Forall_app_2.
  - apply List.Forall_forall. intros i Hin.
    apply in_flat_map in Hin as (site & _ & Hin).
    revert i Hin. apply List.Forall_forall.
    unfold surface_site.
    destruct ((site.1 mod 2 =? 0) && negb (site.2 mod 2 =? 0)).
    + destruct (site.1 =? 0); [| destruct (site.1 =? sc.1 - 1)];
        destruct (noise_circuit self) as [p |]; repeat constructor.
    + destruct (negb (site.1 mod 2 =? 0) && (site.2 mod 2 =? 0)); [| constructor].
      destruct (site.2 =? 0); [| destruct (site.2 =? sc.2 - 1)];
        destruct (noise_circuit self) as [p |]; repeat constructor.
  - destruct (noise_data self); repeat constructor.
  - destruct (noise_z_check self); repeat constructor.
  - destruct (noise_x_check self); repeat constructor.
Qed.

(** One round of the surface code on the stream. *)
Lemma surface_round_resolved (self : StabilizerModel) (sc : Z * Z)
    (subcode : option string) (stream : list Z) :
  resolved "OBSERVABLE_INCLUDE" stream (surface_round self sc subcode) = [] /\
  (subcode = Some "z_memory" ->
   record_stream (surface_round self sc subcode)
   = z_check_qubits self ++ x_check_qubits self /\
   resolved "DETECTOR" (stream ++ z_check_qubits self ++ x_check_qubits self)
     (surface_round self sc subcode)
   = map (fun q => [Some q; Some q]) (rev (z_check_qubits self))) /\
  (subcode = Some "x_memory" ->
   record_stream (surface_round self sc subcode)
   = z_check_qubits self ++ x_check_qubits self /\
   resolved "DETECTOR" (stream ++ z_check_qubits self ++ x_check_qubits self)
     (surface_round self sc subcode)
   = map (fun q => [Some q; Some q]) (rev (x_check_qubits self))) /\
  (subcode <> Some "z_memory" -> subcode <> Some "x_memory" ->
   record_stream (surface_round self sc subcode) = z_check_qubits self /\
   resolved "DETECTOR" stream (surface_round self sc subcode) = []).
Proof.
  unfold surface_round, surface_detect.
  pose proof (surface_checks_quiet self sc) as Hq.
  set (z := z_check_qubits self). set (x := x_check_qubits self).
  assert (Hdet : forall checks st,
    resolved "DETECTOR" st (round_detectors self checks)
    = map (fun k => [record_at st (-1 - k);
                     record_at st (-1 - k - Z.of_nat (length x) - Z.of_nat (length z))])
        (range_len checks) /\
    record_stream (round_detectors self checks) = [] /\
    resolved "OBSERVABLE_INCLUDE" st (round_detectors self checks) = []).
  { intros checks st. rewrite round_detectors_eq. fold x z.
    destruct (resolved_detectors
                (fun k => [-1 - k;
                           -1 - k - (Z.of_nat (length x) + Z.of_nat (length z))])
                (range_len checks) st) as (D1 & D2 & D3).
    split; [| split; [exact D2 | exact D3]].
    rewrite D1. apply map_ext. intros k. cbn [map].
    replace (-1 - k - (Z.of_nat (length x) + Z.of_nat (length z)))
      with (-1 - k - Z.of_nat (length x) - Z.of_nat (length z)) by lia.
    reflexivity. }
  assert (Hd : "DETECTOR" = "DETECTOR" \/ "DETECTOR" = "OBSERVABLE_INCLUDE")
    by now left.
  assert (Ho : "OBSERVABLE_INCLUDE" = "DETECTOR"
               \/ "OBSERVABLE_INCLUDE" = "OBSERVABLE_INCLUDE") by now right.
  assert (Hskip : forall st k, 0 <= k ->
            record_at ((st ++ z ++ x) ++ z)
              (-1 - k - Z.of_nat (length x) - Z.of_nat (length z))
            = record_at (st ++ z) (-1 - k)).
  { intros st k Hk.
    replace (-1 - k - Z.of_nat (length x) - Z.of_nat (length z))
      with (-1 - (k + Z.of_nat (length x)) - Z.of_nat (length z)) by lia.
    rewrite record_at_skip by lia. rewrite app_assoc.
    replace (-1 - (k + Z.of_nat (length x))) with (-1 - k - Z.of_nat (length x))
      by lia.
    now rewrite record_at_skip by lia. }
  assert (Hskip' : forall st k, 0 <= k ->
            record_at (((st ++ z ++ x) ++ z) ++ x)
              (-1 - k - Z.of_nat (length x) - Z.of_nat (length z))
            = record_at ((st ++ z) ++ x) (-1 - k)).
  { intros st k Hk.
    replace (-1 - k - Z.of_nat (length x) - Z.of_nat (length z))
      with (-1 - (k + Z.of_nat (length z)) - Z.of_nat (length x)) by lia.
    rewrite record_at_skip by lia.
    replace (-1 - (k + Z.of_nat (length z))) with (-1 - k - Z.of_nat (length z))
      by lia.
    rewrite record_at_skip by lia. now rewrite (app_assoc st z x). }
  split; [| split; [| split]].
  - rewrite (proj1 (resolved_quiet _ stream _ _ Ho Hq)). cbn [app].
    rewrite (proj1 (resolved_measure _ _ _ _ Ho)).
    destruct (bool_decide (subcode = Some "z_memory"));
      [| destruct (bool_decide (subcode = Some "x_memory"))].
    + rewrite resolved_app, (proj2 (proj2 (Hdet _ _))). cbn [app].
      now rewrite (proj1 (resolved_measure _ _ _ _ Ho)).
    + cbn [app]. rewrite (proj1 (resolved_measure _ _ _ _ Ho)).
      apply Hdet.
    + reflexivity.
  - intros ->. rewrite bool_decide_eq_true_2 by reflexivity. split.
    + rewrite (proj2 (resolved_quiet _ stream _ _ Hd Hq)). cbn [app].
      rewrite (proj1 (proj2 (proj2 (resolved_measure _ stream _ _ Hd)))).
      rewrite record_stream_app, (proj1 (proj2 (Hdet _ stream))). cbn [app].
      rewrite (proj1 (proj2 (proj2 (resolved_measure _ stream _ _ Hd)))).
      unfold record_stream. cbn [flat_map]. now rewrite app_nil_r.
    + rewrite (proj1 (resolved_quiet _ _ _ _ Hd Hq)). cbn [app].
      rewrite (proj1 (resolved_measure _ _ _ _ Hd)).
      rewrite resolved_app, (proj1 (Hdet _ _)), (proj1 (proj2 (Hdet _ stream))).
      rewrite (proj1 (resolved_measure _ _ _ _ Hd)). cbn [resolved].
      rewrite app_nil_r.
      rewrite <- (map_range_lookup (fun o => [o; o]) (rev z)).
      unfold range_len. rewrite length_rev.
      apply map_ext_in. intros k Hk. apply in_range in Hk.
      now rewrite Hskip, !record_at_rev by lia.
  - intros ->. rewrite bool_decide_eq_false_2 by discriminate.
    rewrite bool_decide_eq_true_2 by reflexivity. split.
    + rewrite (proj2 (resolved_quiet _ stream _ _ Hd Hq)). cbn [app].
      rewrite (proj1 (proj2 (proj2 (resolved_measure _ stream _ _ Hd)))).
      rewrite (proj1 (proj2 (proj2 (resolved_measure _ stream _ _ Hd)))).
      now rewrite (proj1 (proj2 (Hdet _ stream))), app_nil_r.
    + rewrite (proj1 (resolved_quiet _ _ _ _ Hd Hq)). cbn [app].
      rewrite (proj1 (resolved_measure _ _ _ _ Hd)).
      rewrite (proj1 (resolved_measure _ _ _ _ Hd)).
      rewrite (proj1 (Hdet _ _)).
      rewrite <- (map_range_lookup (fun o => [o; o]) (rev x)).
      unfold range_len. rewrite length_rev.
      apply map_ext_in. intros k Hk. apply in_range in Hk.
      now rewrite Hskip', !record_at_rev by lia.
  - intros Hz Hx. rewrite bool_decide_eq_false_2 by exact Hz.
    rewrite bool_decide_eq_false_2 by exact Hx. split.
    + rewrite (proj2 (resolved_quiet _ stream _ _ Hd Hq)). cbn [app].
      rewrite (proj1 (proj2 (proj2 (resolved_measure _ stream _ _ Hd)))).
      unfold record_stream. cbn [flat_map]. now rewrite app_nil_r.
    + rewrite (proj1 (resolved_quiet _ _ _ _ Hd Hq)). cbn [app].
      now rewrite (proj1 (resolved_measure _ _ _ _ Hd)).
Qed.

Lemma concat_repeat_nil {A : Type} (n : nat) :
  List.concat (repeat (@nil A) n) = [].
Proof. induction n as [| n IH]; [reflexivity | exact IH]. Qed.

Lemma lookbacks_of_OBSERVABLE_INCLUDE (ks : list Z) (index : Z) :
  lookbacks_of (OBSERVABLE_INCLUDE ks index) = ks.
Proof. apply lookbacks_of_records. Qed.

(** The circuit of the surface code on the stream: what precedes the first
    measurement records nothing, every round records the Z-checks and
    then the X-checks, and the final detectors and the observable look
    back from the records of the data qubits. *)
Lemma surface_emitted_resolved (self : StabilizerModel) (sc : Z * Z)
    (subcode : option string) (pre : list instruction) (n : nat)
    {A : Type} (f : A -> list Z) (l : list A) (idx : list Z) (checks : list Z) :
  Forall quiet pre ->
  (subcode = Some "z_memory" /\ checks = z_check_qubits self) \/
  (subcode = Some "x_memory" /\ checks = x_check_qubits self) ->
  forall stream, exists st',
    resolved "DETECTOR" stream
      (pre ++ [M (z_check_qubits self ++ x_check_qubits self)]
       ++ repeat_circuit (surface_round self sc subcode) n
       ++ [M (data_qubits self)]
       ++ map (fun k => DETECTOR (f k)) l
       ++ [OBSERVABLE_INCLUDE idx 0])
    = List.concat (repeat (map (fun q => [Some q; Some q]) (rev checks)) n)
      ++ map (fun k =>
                map (record_at (((st' ++ z_check_qubits self) ++ x_check_qubits self)
                                ++ data_qubits self)) (f k)) l /\
    resolved "OBSERVABLE_INCLUDE" stream
      (pre ++ [M (z_check_qubits self ++ x_check_qubits self)]
       ++ repeat_circuit (surface_round self sc subcode) n
       ++ [M (data_qubits self)]
       ++ map (fun k => DETECTOR (f k)) l
       ++ [OBSERVABLE_INCLUDE idx 0])
    = [map (record_at (((st' ++ z_check_qubits self) ++ x_check_qubits self)
                       ++ data_qubits self)) idx].
Proof.
  intros Hpre Hsub stream.
  set (z := z_check_qubits self). set (x := x_check_qubits self).
  set (data := data_qubits self).
  set (body := surface_round self sc subcode).
  assert (Hd : "DETECTOR" = "DETECTOR" \/ "DETECTOR" = "OBSERVABLE_INCLUDE")
    by now left.
  assert (Ho : "OBSERVABLE_INCLUDE" = "DETECTOR"
               \/ "OBSERVABLE_INCLUDE" = "OBSERVABLE_INCLUDE") by now right.
  assert (Hbz : record_stream body = z ++ x).
  { destruct (surface_round_resolved self sc subcode []) as (_ & Hz & Hx & _).
    destruct Hsub as [[Hs _] | [Hs _]]; [now apply Hz | now apply Hx]. }
  assert (HR : forall st,
            resolved "DETECTOR" (st ++ z ++ x) body
            = map (fun q => [Some q; Some q]) (rev checks)).
  { intros st.
    destruct (surface_round_resolved self sc subcode st) as (_ & Hz & Hx & _).
    destruct Hsub as [[Hs ->] | [Hs ->]]; [now apply Hz | now apply Hx]. }
  assert (HO : forall st, resolved "OBSERVABLE_INCLUDE" (st ++ z ++ x) body = []).
  { intros st. apply surface_round_resolved. }
  destruct (resolved_repeat_circuit "DETECTOR" body (z ++ x) _ n stream Hbz HR)
    as (HD1 & st' & Hst).
  destruct (resolved_repeat_circuit "OBSERVABLE_INCLUDE" body (z ++ x) _ n stream
              Hbz HO) as (HO1 & _).
  exists st'.
  assert (Hfin : forall s, s = "DETECTOR" \/ s = "OBSERVABLE_INCLUDE" ->
    resolved s stream
      (pre ++ [M (z ++ x)] ++ repeat_circuit body n ++ [M data]
       ++ map (fun k => DETECTOR (f k)) l ++ [OBSERVABLE_INCLUDE idx 0])
    = resolved s (stream ++ z ++ x) (repeat_circuit body n)
      ++ resolved s ((st' ++ z ++ x) ++ data)
           (map (fun k => DETECTOR (f k)) l ++ [OBSERVABLE_INCLUDE idx 0])).
  { intros s Hs.
    rewrite (proj1 (resolved_quiet s stream _ _ Hs Hpre)). cbn [app].
    rewrite (proj1 (proj2 (resolved_measure s _ _ _ Hs))).
    rewrite resolved_app. f_equal. rewrite <- app_assoc, Hst.
    now rewrite (proj1 (proj2 (resolved_measure s _ _ _ Hs))). }
  rewrite !Hfin by assumption. rewrite HD1, HO1, concat_repeat_nil.
  rewrite !resolved_app.
  destruct (resolved_detectors f l ((st' ++ z ++ x) ++ data)) as (-> & -> & ->).
  cbn [resolved app].
  change (has_name "DETECTOR" (OBSERVABLE_INCLUDE idx 0)) with false.
  change (has_name "OBSERVABLE_INCLUDE" (OBSERVABLE_INCLUDE idx 0)) with true.
  rewrite lookbacks_of_OBSERVABLE_INCLUDE.
  cbn [app]. rewrite !app_nil_r, (app_assoc st' z x). split; reflexivity.
Qed.

(** The loop of the final [z_memory] detectors in closed form: at step [k]
    the variables are [row = 2 (k / nx)] and [skip = (k / nx) nz]. *)
Lemma z_final_detectors_seq (self : StabilizerModel) (sc : Z * Z) (len s : nat) :
  0 < sc.2 / 2 ->
  z_final_detectors self sc (map Z.of_nat (seq s len))
    (2 * (Z.max 0 (Z.of_nat s - 1) / (sc.2 / 2)))
    (Z.max 0 (Z.of_nat s - 1) / (sc.2 / 2) * (sc.2 / 2 + 1))
  = map (fun k =>
           DETECTOR
             ([-1 - k - Z.of_nat (length (data_qubits self ++ x_check_qubits self));
               -1 - k - k / (sc.2 / 2) * (sc.2 / 2 + 1);
               -2 - k - k / (sc.2 / 2) * (sc.2 / 2 + 1)]
              ++ (if 2 * (k / (sc.2 / 2)) =? 0 then
                    [-2 - k - k / (sc.2 / 2) * (sc.2 / 2 + 1) - sc.2 / 2]
                  else if 2 * (k / (sc.2 / 2)) =? sc.1 - 1 then
                    [-1 - k - k / (sc.2 / 2) * (sc.2 / 2 + 1) + sc.2 / 2]
                  else
                    [-1 - k - k / (sc.2 / 2) * (sc.2 / 2 + 1) + sc.2 / 2;
                     -2 - k - k / (sc.2 / 2) * (sc.2 / 2 + 1) - sc.2 / 2])))
      (map Z.of_nat (seq s len)).
Proof.
  intros Hnx. revert s. induction len as [| len IH]; intros s; [reflexivity |].
  cbn [seq map z_final_detectors].
  set (nx := sc.2 / 2) in *. set (k := Z.of_nat s).
  set (pa := Z.max 0 (k - 1) / nx).
  assert (Enext : Z.max 0 (Z.of_nat (S s) - 1) / nx = k / nx)
    by (f_equal; lia).
  specialize (IH (S s)). rewrite Enext in IH.
  destruct ((k mod nx =? 0) && negb (k =? 0)) eqn:Hcond.
  - apply andb_true_iff in Hcond as [Hm Hk].
    apply Z.eqb_eq in Hm. apply negb_true_iff, Z.eqb_neq in Hk.
    assert (Ea : pa + 1 = k / nx).
    { unfold pa. subst k. Z.div_mod_to_equations. nia. }
    replace (2 * pa + 2) with (2 * (k / nx)) by lia.
    replace (pa * (nx + 1) + (nx + 1)) with (k / nx * (nx + 1)) by (rewrite <- Ea; ring).
    f_equal. exact IH.
  - assert (Ea : pa = k / nx).
    { apply andb_false_iff in Hcond as [Hm | Hk].
      - apply Z.eqb_neq in Hm. unfold pa. subst k. Z.div_mod_to_equations. nia.
      - apply negb_false_iff, Z.eqb_eq in Hk. unfold pa. rewrite Hk. reflexivity. }
    rewrite Ea. f_equal. exact IH.
Qed.

Lemma z_final_detectors_closed (self : StabilizerModel) (sc : Z * Z) (checks : list Z) :
  checks = [] \/ 0 < sc.2 / 2 ->
  z_final_detectors self sc (range_len checks) 0 0
  = map (fun k =>
           DETECTOR
             ([-1 - k - Z.of_nat (length (data_qubits self ++ x_check_qubits self));
               -1 - k - k / (sc.2 / 2) * (sc.2 / 2 + 1);
               -2 - k - k / (sc.2 / 2) * (sc.2 / 2 + 1)]
              ++ (if 2 * (k / (sc.2 / 2)) =? 0 then
                    [-2 - k - k / (sc.2 / 2) * (sc.2 / 2 + 1) - sc.2 / 2]
                  else if 2 * (k / (sc.2 / 2)) =? sc.1 - 1 then
                    [-1 - k - k / (sc.2 / 2) * (sc.2 / 2 + 1) + sc.2 / 2]
                  else
                    [-1 - k - k / (sc.2 / 2) * (sc.2 / 2 + 1) + sc.2 / 2;
                     -2 - k - k / (sc.2 / 2) * (sc.2 / 2 + 1) - sc.2 / 2])))
      (range_len checks).
Proof.
  intros [-> | Hnx]; [reflexivity |].
  pose proof (z_final_detectors_seq self sc (Z.to_nat (Z.of_nat (length checks))) 0 Hnx)
    as H.
  change (Z.max 0 (Z.of_nat 0 - 1)) with 0 in H.
  rewrite Z.div_0_l in H by lia. exact H.
Qed.

(** The same for [x_memory]: at step [k], [skip = (k / nz) nx]. *)
Lemma x_final_detectors_seq (self : StabilizerModel) (sc : Z * Z) (len s : nat) :
  0 <= sc.2 / 2 ->
  x_final_detectors self sc (map Z.of_nat (seq s len))
    (Z.max 0 (Z.of_nat s - 1) / (sc.2 / 2 + 1) * (sc.2 / 2))
  = map (fun k =>
           DETECTOR
             ((if k mod (sc.2 / 2 + 1) =? 0 then
                 [-2 - k - k / (sc.2 / 2 + 1) * (sc.2 / 2) - sc.2 / 2]
               else if k mod (sc.2 / 2 + 1) =? sc.2 / 2 + 1 - 1 then
                 [-1 - k - k / (sc.2 / 2 + 1) * (sc.2 / 2) - sc.2 / 2]
               else
                 [-2 - k - k / (sc.2 / 2 + 1) * (sc.2 / 2) - sc.2 / 2;
                  -1 - k - k / (sc.2 / 2 + 1) * (sc.2 / 2) - sc.2 / 2])
              ++ [-1 - k - Z.of_nat (length (data_qubits self ++ x_check_qubits self));
                  -1 - k - k / (sc.2 / 2 + 1) * (sc.2 / 2);
                  -2 - k - k / (sc.2 / 2 + 1) * (sc.2 / 2)]))
      (map Z.of_nat (seq s len)).
Proof.
  intros Hnx. revert s. induction len as [| len IH]; intros s; [reflexivity |].
  cbn [seq map x_final_detectors].
  set (nx := sc.2 / 2) in *. set (k := Z.of_nat s).
  set (pa := Z.max 0 (k - 1) / (nx + 1)).
  assert (Enext : Z.max 0 (Z.of_nat (S s) - 1) / (nx + 1) = k / (nx + 1))
    by (f_equal; lia).
  specialize (IH (S s)). rewrite Enext in IH.
  destruct ((k mod (nx + 1) =? 0) && negb (k =? 0)) eqn:Hcond.
  - apply andb_true_iff in Hcond as [Hm Hk].
    apply Z.eqb_eq in Hm. apply negb_true_iff, Z.eqb_neq in Hk.
    assert (Ea : pa + 1 = k / (nx + 1)).
    { unfold pa. subst k. Z.div_mod_to_equations. nia. }
    replace (pa * nx + nx) with (k / (nx + 1) * nx) by (rewrite <- Ea; ring).
    f_equal. exact IH.
  - assert (Ea : pa = k / (nx + 1)).
    { apply andb_false_iff in Hcond as [Hm | Hk].
      - apply Z.eqb_neq in Hm. unfold pa. subst k. Z.div_mod_to_equations. nia.
      - apply negb_false_iff, Z.eqb_eq in Hk. unfold pa. rewrite Hk. reflexivity. }
    rewrite Ea. f_equal. exact IH.
Qed.

Lemma x_final_detectors_closed (self : StabilizerModel) (sc : Z * Z) (checks : list Z) :
  checks = [] \/ 0 <= sc.2 / 2 ->
  x_final_detectors self sc (range_len checks) 0
  = map (fun k =>
           DETECTOR
             ((if k mod (sc.2 / 2 + 1) =? 0 then
                 [-2 - k - k / (sc.2 / 2 + 1) * (sc.2 / 2) - sc.2 / 2]
               else if k mod (sc.2 / 2 + 1) =? sc.2 / 2 + 1 - 1 then
                 [-1 - k - k / (sc.2 / 2 + 1) * (sc.2 / 2) - sc.2 / 2]
               else
                 [-2 - k - k / (sc.2 / 2 + 1) * (sc.2 / 2) - sc.2 / 2;
                  -1 - k - k / (sc.2 / 2 + 1) * (sc.2 / 2) - sc.2 / 2])
              ++ [-1 - k - Z.of_nat (length (data_qubits self ++ x_check_qubits self));
                  -1 - k - k / (sc.2 / 2 + 1) * (sc.2 / 2);
                  -2 - k - k / (sc.2 / 2 + 1) * (sc.2 / 2)]))
      (range_len checks).
Proof.
  intros [-> | Hnx]; [reflexivity |].
  pose proof (x_final_detectors_seq self sc (Z.to_nat (Z.of_nat (length checks))) 0 Hnx)
    as H.
  change (Z.max 0 (Z.of_nat 0 - 1)) with 0 in H.
  rewrite Z.div_0_l in H by lia. exact H.
Qed.

(** ** The roles of the surface code, row by row *)

Lemma range_succ (n : Z) : 0 <= n -> range (n + 1) = range n ++ [n].
Proof.
  intros Hn. unfold range. replace (Z.to_nat (n + 1)) with (S (Z.to_nat n)) by lia.
  rewrite seq_S, map_app. cbn [map Nat.add]. do 2 f_equal. lia.
Qed.

Lemma filter_sites {B : Type} (g : Z * Z -> B) (p : Z * Z -> bool)
    (l1 l2 : list Z) :
  map g (List.filter p (flat_map (fun a => map (pair a) l2) l1))
  = flat_map (fun a => map (fun b => g (a, b)) (List.filter (fun b => p (a, b)) l2)) l1.
Proof.
  induction l1 as [| a l1 IH]; [reflexivity |].
  cbn [flat_map]. rewrite List.filter_app, map_app, IH. f_equal.
  clear IH. induction l2 as [| b l2 IH]; [reflexivity |].
  cbn [map List.filter]. destruct (p (a, b)); cbn [map]; now rewrite IH.
Qed.

(** The even and the odd numbers below [n]. *)
Lemma filter_parity_range (n : nat) :
  List.filter (fun c => c mod 2 =? 0) (range (Z.of_nat n))
  = map (fun j => 2 * j) (range ((Z.of_nat n + 1) / 2)) /\
  List.filter (fun c => negb (c mod 2 =? 0)) (range (Z.of_nat n))
  = map (fun j => 2 * j + 1) (range (Z.of_nat n / 2)).
Proof.
  induction n as [| n [IHe IHo]]; [split; reflexivity |].
  replace (Z.of_nat (S n)) with (Z.of_nat n + 1) by lia.
  rewrite range_succ by lia. rewrite !List.filter_app, IHe, IHo.
  cbn [List.filter].
  destruct (Z.eqb_spec (Z.of_nat n mod 2) 0) as [E | E]; cbn [negb].
  - replace ((Z.of_nat n + 1 + 1) / 2) with ((Z.of_nat n + 1) / 2 + 1)
      by (Z.div_mod_to_equations; lia).
    replace ((Z.of_nat n + 1) / 2) with (Z.of_nat n / 2)
      by (Z.div_mod_to_equations; lia).
    rewrite range_succ by (Z.div_mod_to_equations; lia).
    rewrite !map_app, ?app_nil_r. cbn [map]. split; [| reflexivity].
    do 2 f_equal. Z.div_mod_to_equations; lia.
  - replace ((Z.of_nat n + 1 + 1) / 2) with ((Z.of_nat n + 1) / 2)
      by (Z.div_mod_to_equations; lia).
    replace ((Z.of_nat n + 1) / 2) with (Z.of_nat n / 2 + 1)
      by (Z.div_mod_to_equations; lia).
    rewrite range_succ by (Z.div_mod_to_equations; lia).
    rewrite !map_app, ?app_nil_r. cbn [map]. split; [reflexivity |].
    do 2 f_equal. Z.div_mod_to_equations; lia.
Qed.

(** The rows of a grid with an odd number of rows, two by two. *)
Lemma flat_map_range_odd {B : Type} (f : Z -> list B) (h : nat) :
  flat_map f (range (2 * Z.of_nat h + 1))
  = flat_map (fun i => f (2 * i) ++ f (2 * i + 1)) (range (Z.of_nat h))
    ++ f (2 * Z.of_nat h).
Proof.
  induction h as [| h IH]; [apply app_nil_r |].
  replace (2 * Z.of_nat (S h) + 1) with ((2 * Z.of_nat h + 1) + 1 + 1) by lia.
  rewrite (range_succ (2 * Z.of_nat h + 1 + 1)), (range_succ (2 * Z.of_nat h + 1))
    by lia.
  rewrite !flat_map_app, IH. cbn [flat_map].
  replace (Z.of_nat (S h)) with (Z.of_nat h + 1) by lia.
  rewrite range_succ by lia. rewrite flat_map_app. cbn [flat_map].
  rewrite !app_nil_r, <- !app_assoc.
  replace (2 * (Z.of_nat h + 1)) with (2 * Z.of_nat h + 1 + 1) by lia.
  reflexivity.
Qed.

(** The three roles of the grid of [2 h + 1] rows and [2 c + 1] columns. *)
Lemma qubits_of_role_closed (h c : nat) :
  let rows := 2 * Z.of_nat h + 1 in
  let cols := 2 * Z.of_nat c + 1 in
  qubits_of_role ZCheck (rows, cols)
  = flat_map (fun i => map (fun j => 2 * i * cols + (2 * j + 1)) (range (Z.of_nat c)))
      (range (Z.of_nat h + 1)) /\
  qubits_of_role XCheck (rows, cols)
  = flat_map (fun i => map (fun j => (2 * i + 1) * cols + 2 * j)
                         (range (Z.of_nat c + 1)))
      (range (Z.of_nat h)) /\
  qubits_of_role Data (rows, cols)
  = flat_map (fun i => map (fun j => 2 * i * cols + 2 * j) (range (Z.of_nat c + 1))
                       ++ map (fun j => (2 * i + 1) * cols + (2 * j + 1))
                            (range (Z.of_nat c)))
      (range (Z.of_nat h))
    ++ map (fun j => 2 * Z.of_nat h * cols + 2 * j) (range (Z.of_nat c + 1)).
Proof.
  intros rows cols.
  assert (Hrow : forall r row,
    map (fun col => row * cols + col)
      (List.filter (fun col => is_role r (row, col)) (range cols))
    = match r, row mod 2 =? 0 with
      | Data, true | XCheck, false =>
          map (fun j => row * cols + 2 * j) (range (Z.of_nat c + 1))
      | ZCheck, true | Data, false =>
          map (fun j => row * cols + (2 * j + 1)) (range (Z.of_nat c))
      | _, _ => []
      end).
  { intros r row.
    destruct (filter_parity_range (Z.to_nat cols)) as [He Ho].
    rewrite Z2Nat.id in He, Ho by (unfold cols; lia).
    replace ((cols + 1) / 2) with (Z.of_nat c + 1) in He
      by (unfold cols; Z.div_mod_to_equations; lia).
    replace (cols / 2) with (Z.of_nat c) in Ho
      by (unfold cols; Z.div_mod_to_equations; lia).
    unfold is_role, role_of. cbn [fst snd].
    destruct (row mod 2 =? 0), r.
    - erewrite filter_ext; [rewrite He, map_map; reflexivity |].
      intros col. cbv beta. now destruct (col mod 2 =? 0).
    - erewrite filter_ext; [rewrite Ho, map_map; reflexivity |].
      intros col. cbv beta. now destruct (col mod 2 =? 0).
    - erewrite filter_ext with (g := fun _ => false).
      + clear He Ho. induction (range cols) as [| a l IHl]; [reflexivity | exact IHl].
      + intros col. cbv beta. now destruct (col mod 2 =? 0).
    - erewrite filter_ext; [rewrite Ho, map_map; reflexivity |].
      intros col. cbv beta. now destruct (col mod 2 =? 0).
    - erewrite filter_ext with (g := fun _ => false).
      + clear He Ho. induction (range cols) as [| a l IHl]; [reflexivity | exact IHl].
      + intros col. cbv beta. now destruct (col mod 2 =? 0).
    - erewrite filter_ext; [rewrite He, map_map; reflexivity |].
      intros col. cbv beta. now destruct (col mod 2 =? 0). }
  assert (Hall : forall r,
    qubits_of_role r (rows, cols)
    = flat_map (fun row =>
                  map (fun col => row * cols + col)
                    (List.filter (fun col => is_role r (row, col)) (range cols)))
        (range rows)).
  { intros r. unfold qubits_of_role, sites. cbn [fst snd].
    apply (filter_sites (fun site => site.1 * cols + site.2)). }
  assert (Heven : forall i : Z, ((2 * i) mod 2 =? 0) = true).
  { intros i. apply Z.eqb_eq. Z.div_mod_to_equations. lia. }
  assert (Hodd : forall i : Z, ((2 * i + 1) mod 2 =? 0) = false).
  { intros i. apply Z.eqb_neq. Z.div_mod_to_equations. lia. }
  rewrite !Hall. unfold rows. rewrite !flat_map_range_odd.
  repeat split.
  - rewrite range_succ by lia. rewrite flat_map_app. cbn [flat_map].
    rewrite app_nil_r, !Hrow, Heven. f_equal.
    apply flat_map_ext. intros i. rewrite !Hrow, Heven, Hodd. apply app_nil_r.
  - rewrite Hrow, Heven, app_nil_r.
    apply flat_map_ext. intros i. now rewrite !Hrow, Heven, Hodd.
  - rewrite Hrow, Heven. f_equal.
    apply flat_map_ext. intros i. now rewrite !Hrow, Heven, Hodd.
Qed.

(** ** Records of a grid *)

Lemma length_flat_map_uniform {B : Type} (f : Z -> list B) (w n : nat) :
  (forall i, 0 <= i < Z.of_nat n -> length (f i) = w) ->
  length (flat_map f (range (Z.of_nat n))) = (n * w)%nat.
Proof.
  induction n as [| n IH]; intros Hw; [reflexivity |].
  replace (Z.of_nat (S n)) with (Z.of_nat n + 1) by lia.
  rewrite range_succ by lia. rewrite flat_map_app, length_app. cbn [flat_map].
  rewrite app_nil_r, IH, Hw by (intros; try apply Hw; lia). lia.
Qed.

Lemma lookup_flat_map_uniform {B : Type} (f : Z -> list B) (w n b j : nat) :
  (forall i, 0 <= i < Z.of_nat n -> length (f i) = w) ->
  (b < n)%nat -> (j < w)%nat ->
  flat_map f (range (Z.of_nat n)) !! (b * w + j)%nat = f (Z.of_nat b) !! j.
Proof.
  induction n as [| n IH]; intros Hw Hb Hj; [lia |].
  replace (Z.of_nat (S n)) with (Z.of_nat n + 1) by lia.
  rewrite range_succ by lia. rewrite flat_map_app. cbn [flat_map].
  rewrite app_nil_r.
  assert (Hlen : length (flat_map f (range (Z.of_nat n))) = (n * w)%nat)
    by (apply length_flat_map_uniform; intros; apply Hw; lia).
  destruct (decide (b < n)%nat) as [Hlt | Hge].
  - rewrite lookup_app_l by (rewrite Hlen; nia).
    apply IH; [intros; apply Hw; lia | exact Hlt | exact Hj].
  - assert (b = n) by lia. subst b.
    rewrite lookup_app_r by (rewrite Hlen; lia). rewrite Hlen. f_equal. lia.
Qed.

(** The record [-1 - (a w + j)] after the measurement of [n] rows of [w]
    qubits is in the row [n - 1 - a], at position [w - 1 - j]. *)
Lemma record_at_flat_map (f : Z -> list Z) (w n : nat) (stream : list Z) (a j : Z) :
  (forall i, 0 <= i < Z.of_nat n -> length (f i) = w) ->
  0 <= a < Z.of_nat n -> 0 <= j < Z.of_nat w ->
  record_at (stream ++ flat_map f (range (Z.of_nat n))) (-1 - (a * Z.of_nat w + j))
  = f (Z.of_nat n - 1 - a) !! Z.to_nat (Z.of_nat w - 1 - j).
Proof.
  intros Hw Ha Hj.
  pose proof (length_flat_map_uniform f w n Hw) as Hlen.
  replace (a * Z.of_nat w + j) with (Z.of_nat (Z.to_nat (a * Z.of_nat w + j)))
    by nia.
  rewrite record_at_last by (rewrite Hlen; nia). rewrite Hlen.
  replace (n * w - 1 - Z.to_nat (a * Z.of_nat w + j))%nat
    with (Z.to_nat (Z.of_nat n - 1 - a) * w + Z.to_nat (Z.of_nat w - 1 - j))%nat
    by nia.
  rewrite lookup_flat_map_uniform by (try exact Hw; lia).
  do 2 f_equal. lia.
Qed.

Lemma lookup_map_range (g : Z -> Z) (n : nat) (j : Z) :
  0 <= j < Z.of_nat n ->
  map g (range (Z.of_nat n)) !! Z.to_nat j = Some (g j).
Proof.
  intros Hj. rewrite lookup_map, lookup_range by lia. cbn. f_equal. f_equal. lia.
Qed.

Section SurfaceRecords.

Variables h c : nat.

Let rows : Z := 2 * Z.of_nat h + 1.
Let cols : Z := 2 * Z.of_nat c + 1.

(** The [k]-th Z-check from the last, [k = a c + j]: row [2 (h - a)],
    column [2 (c - 1 - j) + 1]. *)
Lemma surface_z_record (stream : list Z) (a j : Z) :
  0 <= a <= Z.of_nat h -> 0 <= j < Z.of_nat c ->
  record_at (stream ++ qubits_of_role ZCheck (rows, cols))
    (-1 - (a * Z.of_nat c + j))
  = Some (2 * (Z.of_nat h - a) * cols + (2 * (Z.of_nat c - 1 - j) + 1)).
Proof.
  intros Ha Hj. pose proof (qubits_of_role_closed h c) as Hclosed. cbv zeta in Hclosed.
  fold rows cols in Hclosed. destruct Hclosed as (-> & _ & _).
  replace (Z.of_nat h + 1) with (Z.of_nat (S h)) by lia.
  rewrite record_at_flat_map
    by (try lia; intros; now rewrite length_map, length_range, Nat2Z.id).
  rewrite lookup_map_range by lia. do 2 f_equal. lia.
Qed.

(** The [k]-th X-check from the last, [k = a (c + 1) + j]: row
    [2 (h - 1 - a) + 1], column [2 (c - j)]. *)
Lemma surface_x_record (stream : list Z) (a j : Z) :
  0 <= a < Z.of_nat h -> 0 <= j <= Z.of_nat c ->
  record_at (stream ++ qubits_of_role XCheck (rows, cols))
    (-1 - (a * (Z.of_nat c + 1) + j))
  = Some ((2 * (Z.of_nat h - 1 - a) + 1) * cols + 2 * (Z.of_nat c - j)).
Proof.
  intros Ha Hj. pose proof (qubits_of_role_closed h c) as Hclosed. cbv zeta in Hclosed.
  fold rows cols in Hclosed. destruct Hclosed as (_ & -> & _).
  replace (Z.of_nat c + 1) with (Z.of_nat (S c)) by lia.
  rewrite record_at_flat_map
    by (try lia; intros; now rewrite length_map, length_range, Nat2Z.id).
  rewrite lookup_map_range by lia. do 2 f_equal; lia.
Qed.

Lemma surface_lengths :
  Z.of_nat (length (qubits_of_role ZCheck (rows, cols)))
  = (Z.of_nat h + 1) * Z.of_nat c /\
  Z.of_nat (length (qubits_of_role XCheck (rows, cols)))
  = Z.of_nat h * (Z.of_nat c + 1) /\
  Z.of_nat (length (qubits_of_role Data (rows, cols)))
  = Z.of_nat h * cols + (Z.of_nat c + 1).
Proof.
  pose proof (qubits_of_role_closed h c) as Hclosed. cbv zeta in Hclosed.
  fold rows cols in Hclosed. destruct Hclosed as (-> & -> & ->).
  replace (Z.of_nat h + 1) with (Z.of_nat (S h)) by lia.
  rewrite (length_flat_map_uniform _ c (S h))
    by (intros; now rewrite length_map, length_range, Nat2Z.id).
  rewrite (length_flat_map_uniform _ (S c) h)
    by (intros; rewrite length_map, length_range; lia).
  rewrite length_app, (length_flat_map_uniform _ (S c + c) h)
    by (intros; rewrite length_app, !length_map, !length_range; lia).
  rewrite length_map, length_range. unfold cols. repeat split; nia.
Qed.

(** The data qubits of the even rows, from the last row up: record
    [-1 - (a cols + t)] is row [2 (h - a)], column [2 (c - t)]. *)
Lemma surface_data_record_even (stream : list Z) (a t : Z) :
  0 <= a <= Z.of_nat h -> 0 <= t <= Z.of_nat c ->
  record_at (stream ++ qubits_of_role Data (rows, cols)) (-1 - (a * cols + t))
  = Some (2 * (Z.of_nat h - a) * cols + 2 * (Z.of_nat c - t)).
Proof.
  intros Ha Ht. pose proof (qubits_of_role_closed h c) as Hclosed. cbv zeta in Hclosed.
  fold rows cols in Hclosed. destruct Hclosed as (_ & _ & ->).
  rewrite app_assoc.
  destruct (decide (a = 0)) as [-> | Hne].
  - replace (-1 - (0 * cols + t)) with (-1 - t) by lia.
    rewrite (record_at_map (fun j => 2 * Z.of_nat h * cols + 2 * j)) by lia.
    f_equal. lia.
  - replace (-1 - (a * cols + t))
      with (-1 - ((a - 1) * Z.of_nat (S c + c) + (Z.of_nat c + t)) - (Z.of_nat c + 1))
      by (unfold cols; lia).
    rewrite record_at_map_skip by nia.
    rewrite record_at_flat_map
      by (try lia; intros; rewrite length_app, !length_map, !length_range; lia).
    rewrite lookup_app_l by (rewrite length_map, length_range; lia).
    replace (Z.of_nat c + 1) with (Z.of_nat (S c)) by lia.
    rewrite lookup_map_range by lia. f_equal. lia.
Qed.

(** The data qubits of the odd rows: record [-1 - (a cols + c + 1 + t)] is
    row [2 (h - 1 - a) + 1], column [2 (c - 1 - t) + 1]. *)
Lemma surface_data_record_odd (stream : list Z) (a t : Z) :
  0 <= a < Z.of_nat h -> 0 <= t < Z.of_nat c ->
  record_at (stream ++ qubits_of_role Data (rows, cols))
    (-1 - (a * cols + (Z.of_nat c + 1) + t))
  = Some ((2 * (Z.of_nat h - 1 - a) + 1) * cols + (2 * (Z.of_nat c - 1 - t) + 1)).
Proof.
  intros Ha Ht. pose proof (qubits_of_role_closed h c) as Hclosed. cbv zeta in Hclosed.
  fold rows cols in Hclosed. destruct Hclosed as (_ & _ & ->).
  rewrite app_assoc.
  replace (-1 - (a * cols + (Z.of_nat c + 1) + t))
    with (-1 - (a * Z.of_nat (S c + c) + t) - (Z.of_nat c + 1))
    by (unfold cols; lia).
  rewrite record_at_map_skip by nia.
  rewrite record_at_flat_map
    by (try lia; intros; rewrite length_app, !length_map, !length_range; lia).
  rewrite lookup_app_r by (rewrite length_map, length_range; lia).
  rewrite length_map, length_range.
  replace (Z.to_nat (Z.of_nat (S c + c) - 1 - t) - Z.to_nat (Z.of_nat c + 1))%nat
    with (Z.to_nat (Z.of_nat c - 1 - t)) by lia.
  rewrite lookup_map_range by lia. f_equal; lia.
Qed.

End SurfaceRecords.

(** ** The surface-code circuit on the stream *)

Lemma final_detectors_are_detectors (self : StabilizerModel) (sc : Z * Z)
    (ks : list Z) (row skip : Z) :
  Forall (fun i => i = DETECTOR (lookbacks_of i))
    (z_final_detectors self sc ks row skip) /\
  Forall (fun i => i = DETECTOR (lookbacks_of i))
    (x_final_detectors self sc ks skip).
Proof.
  split.
  - revert row skip. induction ks as [| k ks IH]; intros row skip; [constructor |].
    cbn [z_final_detectors].
    destruct ((k mod (sc.2 / 2) =? 0) && negb (k =? 0));
      (constructor; [now rewrite lookbacks_of_DETECTOR | apply IH]).
  - revert skip. induction ks as [| k ks IH]; intros skip; [constructor |].
    cbn [x_final_detectors].
    constructor; [now rewrite lookbacks_of_DETECTOR | apply IH].
Qed.

Lemma detectors_as_map (l : list instruction) :
  Forall (fun i => i = DETECTOR (lookbacks_of i)) l ->
  l = map (fun i => DETECTOR (lookbacks_of i)) l.
Proof.
  induction 1 as [| i l Hi _ IH]; [reflexivity |].
  cbn [map]. now rewrite <- Hi, <- IH.
Qed.

Lemma surface_pre_quiet (sc : Z * Z) (qs : list Z) :
  Forall quiet
    (map (fun site => QUBIT_COORDS (site.1 * sc.2 + site.2) site.1 site.2) (sites sc)
     ++ [R qs]).
Proof.
  apply Forall_app_2.
  - apply List.Forall_forall. intros i Hin.
    apply in_map_iff in Hin as (site & <- & _). repeat split.
  - repeat constructor.
Qed.

(** The surface-code circuit without detection: no subcode, or one that is
    neither [z_memory] nor [x_memory]. *)
Lemma surface_emitted_plain (self : StabilizerModel) (sc : Z * Z)
    (subcode : option string) (pre : list instruction) (n : nat) (stream : list Z) :
  Forall quiet pre ->
  subcode <> Some "z_memory" -> subcode <> Some "x_memory" ->
  resolved "DETECTOR" stream
    (pre ++ [M (z_check_qubits self ++ x_check_qubits self)]
     ++ repeat_circuit (surface_round self sc subcode) n
     ++ [M (data_qubits self)] ++ [] ++ [OBSERVABLE_INCLUDE [] 0]) = [] /\
  resolved "OBSERVABLE_INCLUDE" stream
    (pre ++ [M (z_check_qubits self ++ x_check_qubits self)]
     ++ repeat_circuit (surface_round self sc subcode) n
     ++ [M (data_qubits self)] ++ [] ++ [OBSERVABLE_INCLUDE [] 0]) = [[]].
Proof.
  intros Hpre Hz Hx.
  assert (Hd : "DETECTOR" = "DETECTOR" \/ "DETECTOR" = "OBSERVABLE_INCLUDE")
    by now left.
  assert (Ho : "OBSERVABLE_INCLUDE" = "DETECTOR"
               \/ "OBSERVABLE_INCLUDE" = "OBSERVABLE_INCLUDE") by now right.
  assert (Hrep : forall s st,
            (forall st', resolved s st' (surface_round self sc subcode) = []) ->
            resolved s st (repeat_circuit (surface_round self sc subcode) n) = []).
  { intros s st Hs. revert st. unfold repeat_circuit.
    induction n as [| n IH]; intros st; [reflexivity |].
    cbn [repeat List.concat]. now rewrite resolved_app, Hs, IH. }
  split.
  - rewrite (proj1 (resolved_quiet _ stream _ _ Hd Hpre)). cbn [app].
    rewrite (proj1 (proj2 (resolved_measure _ _ _ _ Hd))).
    rewrite resolved_app, Hrep.
    + cbn [app]. now rewrite (proj1 (proj2 (resolved_measure _ _ _ _ Hd))).
    + intros st'.
      destruct (surface_round_resolved self sc subcode st') as (_ & _ & _ & H).
      now apply H.
  - rewrite (proj1 (resolved_quiet _ stream _ _ Ho Hpre)). cbn [app].
    rewrite (proj1 (proj2 (resolved_measure _ _ _ _ Ho))).
    rewrite resolved_app, Hrep.
    + cbn [app]. now rewrite (proj1 (proj2 (resolved_measure _ _ _ _ Ho))).
    + intros st'. apply surface_round_resolved.
Qed.

Lemma surface_emitted_records (self : StabilizerModel) (sc : Z * Z)
    (subcode : option string) (pre fin : list instruction) (n : nat) (idx : list Z) :
  Forall quiet pre ->
  Forall (fun i => i = DETECTOR (lookbacks_of i)) fin ->
  record_stream
    (pre ++ [M (z_check_qubits self ++ x_check_qubits self)]
     ++ repeat_circuit (surface_round self sc subcode) n
     ++ [M (data_qubits self)] ++ fin ++ [OBSERVABLE_INCLUDE idx 0])
  = (z_check_qubits self ++ x_check_qubits self)
    ++ List.concat (repeat (record_stream (surface_round self sc subcode)) n)
    ++ data_qubits self.
Proof.
  intros Hpre Hfin.
  assert (Hd : "DETECTOR" = "DETECTOR" \/ "DETECTOR" = "OBSERVABLE_INCLUDE")
    by now left.
  rewrite (proj2 (resolved_quiet _ [] _ _ Hd Hpre)). cbn [app].
  rewrite (proj2 (proj2 (proj2 (resolved_measure _ [] _ _ Hd)))).
  rewrite record_stream_app, record_stream_repeat_circuit.
  rewrite (proj2 (proj2 (proj2 (resolved_measure _ [] _ _ Hd)))).
  rewrite record_stream_app, (detectors_as_map fin Hfin).
  rewrite (proj1 (proj2 (resolved_detectors lookbacks_of fin []))).
  unfold record_stream at 2. cbn [flat_map app].
  change (records_of (OBSERVABLE_INCLUDE idx 0)) with (@nil Z).
  now rewrite !app_nil_r.
Qed.

Lemma build_surface_code_lists (self : StabilizerModel) (code : string)
    (subcode : option string) (rows cols : Z) (m : StabilizerModel) :
  parse_code code = ok ("surface_code", subcode) ->
  scale (code_params self) = Some (rows, cols) ->
  build_code self code = ok m ->
  data_qubits m = qubits_of_role Data (rows, cols) /\
  z_check_qubits m = qubits_of_role ZCheck (rows, cols) /\
  x_check_qubits m = qubits_of_role XCheck (rows, cols).
Proof.
  intros Hp Hs Hb.
  rewrite (build_surface_code _ code subcode (rows, cols) Hp) in Hb by exact Hs.
  cbn [fst snd] in Hb.
  destruct (negb (rows mod 2 =? 0) && negb (cols mod 2 =? 0)); [| discriminate].
  unfold _surface_code in Hb. cbn [code_params set_qubits] in Hb.
  rewrite Hs in Hb. cbn [bind param ok] in Hb. unfold ok in Hb.
  injection Hb as <-. repeat split.
Qed.

(** The built surface-code circuit on the stream, with the final
    detectors still to be resolved. *)
Lemma surface_code_stream (self : StabilizerModel) (code : string)
    (subcode : option string) (rows cols : Z) (m : StabilizerModel) :
  parse_code code = ok ("surface_code", subcode) ->
  scale (code_params self) = Some (rows, cols) ->
  build_code self code = ok m ->
  exists emitted self',
    circuit m = circuit self ++ emitted /\
    data_qubits self' = data_qubits m /\
    z_check_qubits self' = z_check_qubits m /\
    x_check_qubits self' = x_check_qubits m /\
    record_stream emitted
    = (z_check_qubits m ++ x_check_qubits m)
      ++ List.concat
           (repeat (record_stream (surface_round self' (rows, cols) subcode))
              (rounds self))
      ++ data_qubits m /\
    (forall checks fin,
       (subcode = Some "z_memory" /\ checks = z_check_qubits m /\
        fin = z_final_detectors self' (rows, cols) (range_len (z_check_qubits m)) 0 0)
       \/ (subcode = Some "x_memory" /\ checks = x_check_qubits m /\
           fin = x_final_detectors self' (rows, cols)
                   (range_len (x_check_qubits m)) 0) ->
       record_stream (surface_round self' (rows, cols) subcode)
       = z_check_qubits m ++ x_check_qubits m /\
       forall stream, exists st',
         resolved "DETECTOR" stream emitted
         = List.concat (repeat (map (fun q => [Some q; Some q]) (rev checks))
                          (rounds self))
           ++ map (fun i =>
                     map (record_at (((st' ++ z_check_qubits m) ++ x_check_qubits m)
                                     ++ data_qubits m)) (lookbacks_of i)) fin /\
         resolved "OBSERVABLE_INCLUDE" stream emitted
         = [map (record_at (((st' ++ z_check_qubits m) ++ x_check_qubits m)
                            ++ data_qubits m))
              (observable_lookback_indices (rows, cols) subcode)]) /\
    (subcode <> Some "z_memory" -> subcode <> Some "x_memory" ->
     record_stream (surface_round self' (rows, cols) subcode) = z_check_qubits m /\
     forall stream,
       resolved "DETECTOR" stream emitted = [] /\
       resolved "OBSERVABLE_INCLUDE" stream emitted = [[]]).
Proof.
  intros Hp Hs Hb.
  destruct (build_surface_code_lists self code subcode rows cols m Hp Hs Hb)
    as (Md & Mz & Mx).
  destruct (build_surface_code_inv self code subcode rows cols m Hp Hs Hb)
    as (_ & _ & self' & Eq & Ed & Ez & Ex & Er & _ & Ec).
  rewrite <- Md in Ed. rewrite <- Mz in Ez. rewrite <- Mx in Ex.
  rewrite (app_assoc (map _ (sites (rows, cols))) [R (qubits self')]) in Ec.
  pose proof (surface_pre_quiet (rows, cols) (qubits self')) as Hpre.
  cbn [fst snd] in Hpre.
  destruct (final_detectors_are_detectors self' (rows, cols)
              (range_len (z_check_qubits self')) 0 0) as [Hfz _].
  destruct (final_detectors_are_detectors self' (rows, cols)
              (range_len (x_check_qubits self')) 0 0) as [_ Hfx].
  eexists. exists self'. split; [exact Ec |].
  split; [exact Ed |]. split; [exact Ez |]. split; [exact Ex |].
  split; [| split].
  - rewrite <- Ed, <- Ez, <- Ex. apply surface_emitted_records; [exact Hpre |].
    destruct (bool_decide (subcode = Some "z_memory"));
      [exact Hfz | destruct (bool_decide (subcode = Some "x_memory"));
                   [exact Hfx | constructor]].
  - intros checks fin Hsub. rewrite <- Ed, <- Ez, <- Ex in *. split.
    + destruct (surface_round_resolved self' (rows, cols) subcode [])
        as (_ & Hz & Hx & _).
      destruct Hsub as [(Hs' & _) | (Hs' & _)]; [now apply Hz | now apply Hx].
    + intros stream.
      assert (Hfin : fin = map (fun i => DETECTOR (lookbacks_of i)) fin /\
                (if bool_decide (subcode = Some "z_memory") then
                   z_final_detectors self' (rows, cols)
                     (range_len (z_check_qubits self')) 0 0
                 else if bool_decide (subcode = Some "x_memory") then
                   x_final_detectors self' (rows, cols)
                     (range_len (x_check_qubits self')) 0
                 else []) = fin).
      { destruct Hsub as [(-> & _ & ->) | (-> & _ & ->)].
        - split; [now apply detectors_as_map | reflexivity].
        - split; [now apply detectors_as_map | reflexivity]. }
      destruct Hfin as [Hmap ->].
      assert (Hsub' : (subcode = Some "z_memory" /\ checks = z_check_qubits self')
                      \/ (subcode = Some "x_memory" /\ checks = x_check_qubits self'))
        by (destruct Hsub as [(? & ? & _) | (? & ? & _)]; auto).
      destruct (surface_emitted_resolved self' (rows, cols) subcode _ (rounds self)
                  lookbacks_of fin
                  (observable_lookback_indices (rows, cols) subcode)
                  checks Hpre Hsub' stream) as (st' & HD & HO).
      exists st'. rewrite <- Hmap in HD, HO. split; [exact HD | exact HO].
  - intros Hz Hx. rewrite <- Ez. split.
    + destruct (surface_round_resolved self' (rows, cols) subcode [])
        as (_ & _ & _ & H).
      now apply H.
    + intros stream.
      rewrite bool_decide_eq_false_2 by exact Hz.
      rewrite bool_decide_eq_false_2 by exact Hx.
      unfold observable_lookback_indices.
      rewrite bool_decide_eq_false_2 by exact Hz.
      rewrite bool_decide_eq_false_2 by exact Hx.
      now apply surface_emitted_plain.
Qed.

Lemma length_final_detectors (self : StabilizerModel) (sc : Z * Z)
    (ks : list Z) (row skip : Z) :
  length (z_final_detectors self sc ks row skip) = length ks /\
  length (x_final_detectors self sc ks skip) = length ks.
Proof.
  split.
  - revert row skip. induction ks as [| k ks IH]; intros row skip; [reflexivity |].
    cbn [z_final_detectors].
    destruct ((k mod (sc.2 / 2) =? 0) && negb (k =? 0)); cbn [length]; now rewrite IH.
  - revert skip. induction ks as [| k ks IH]; intros skip; [reflexivity |].
    cbn [x_final_detectors length]. now rewrite IH.
Qed.

Lemma length_range_len {A : Type} (l : list A) : length (range_len l) = length l.
Proof. unfold range_len. rewrite length_range. lia. Qed.

(** X17. The rounds of the surface code on the measurement records, for
    every odd scale.  With subcode [z_memory] or [x_memory] the circuit
    measures the Z-checks and the X-checks once, then again in every
    round, then the data qubits; whatever was recorded before, both
    lookbacks of a round detector designate the same check qubit (a
    Z-check for [z_memory], an X-check for [x_memory]) in two consecutive
    measurements, the checks being taken from the last one down, and there
    is one final detector per check.  With any other subcode, or none, a
    round measures the Z-checks only, no detector is emitted and the
    observable is empty. *)
Theorem surface_code_round_detectors (code : string) (subcode : option string)
    (c : option (list instruction)) (n : nat) (a1 a2 a3 a4 : noise_arg)
    (kw : kwargs) (rows cols : Z) (m : StabilizerModel) :
  parse_code code = ok ("surface_code", subcode) ->
  scale kw = Some (rows, cols) ->
  StabilizerModel_init code c n a1 a2 a3 a4 kw = ok m ->
  exists emitted,
    circuit m = default [] c ++ emitted /\
    (forall checks,
       (subcode = Some "z_memory" /\ checks = z_check_qubits m)
       \/ (subcode = Some "x_memory" /\ checks = x_check_qubits m) ->
       record_stream emitted
       = (z_check_qubits m ++ x_check_qubits m)
         ++ List.concat (repeat (z_check_qubits m ++ x_check_qubits m) n)
         ++ data_qubits m /\
       forall stream, exists finals,
         resolved "DETECTOR" stream emitted
         = List.concat (repeat (map (fun q => [Some q; Some q]) (rev checks)) n)
           ++ finals /\
         length finals = length checks) /\
    (subcode <> Some "z_memory" -> subcode <> Some "x_memory" ->
     record_stream emitted
     = (z_check_qubits m ++ x_check_qubits m)
       ++ List.concat (repeat (z_check_qubits m) n)
       ++ data_qubits m /\
     forall stream,
       resolved "DETECTOR" stream emitted = [] /\
       resolved "OBSERVABLE_INCLUDE" stream emitted = [[]]).
Proof.
  intros Hp Hs Hinit.
  apply StabilizerModel_init_inv in Hinit as (nc & nd & nz & nx & _ & _ & _ & _ & Hb).
  apply (surface_code_stream _ code subcode rows cols m Hp) in Hb; [| exact Hs].
  destruct Hb as (emitted & self' & Hc & Ed & Ez & Ex & Hrec & Hdet & Hplain).
  cbn [circuit rounds] in *.
  exists emitted. split; [exact Hc |]. split.
  - intros checks Hsub.
    set (fin := if bool_decide (subcode = Some "z_memory")
                then z_final_detectors self' (rows, cols)
                       (range_len (z_check_qubits m)) 0 0
                else x_final_detectors self' (rows, cols)
                       (range_len (x_check_qubits m)) 0).
    assert (Hfin : (subcode = Some "z_memory" /\ checks = z_check_qubits m /\
                    fin = z_final_detectors self' (rows, cols)
                            (range_len (z_check_qubits m)) 0 0)
                   \/ (subcode = Some "x_memory" /\ checks = x_check_qubits m /\
                       fin = x_final_detectors self' (rows, cols)
                               (range_len (x_check_qubits m)) 0)).
    { unfold fin. destruct Hsub as [[-> ->] | [-> ->]]; [left | right];
        repeat split. }
    destruct (Hdet checks fin Hfin) as (Hround & Hres).
    rewrite Hround in Hrec. split; [exact Hrec |].
    intros stream. destruct (Hres stream) as (st' & HD & _).
    eexists. split; [exact HD |]. rewrite length_map.
    destruct Hfin as [(_ & -> & ->) | (_ & -> & ->)].
    + now rewrite (proj1 (length_final_detectors _ _ _ _ _)), length_range_len.
    + now rewrite (proj2 (length_final_detectors _ _ _ 0 _)), length_range_len.
  - intros Hz Hx. destruct (Hplain Hz Hx) as (Hround & Hres).
    rewrite Hround in Hrec. split; [exact Hrec | exact Hres].
Qed.

Lemma surface_code_round_detectors_witness :
  exists m,
    StabilizerModel_init "surface_code:x_memory" None 2 (NScalar 0) (NScalar 0)
      (NScalar 0) (NScalar 0) (Kwargs None (Some (3, 3)) None None None) = ok m /\
    exists emitted,
      circuit m = emitted /\
      forall stream, exists finals,
        resolved "DETECTOR" stream emitted
        = List.concat (repeat [[Some 5; Some 5]; [Some 3; Some 3]] 2) ++ finals /\
        length finals = 2%nat.
Proof.
  eexists. split; [reflexivity |].
  destruct (surface_code_round_detectors "surface_code:x_memory" (Some "x_memory")
              None 2 (NScalar 0) (NScalar 0) (NScalar 0) (NScalar 0)
              (Kwargs None (Some (3, 3)) None None None) 3 3 _ eq_refl eq_refl
              eq_refl) as (emitted & Hc & Hdet & _).
  exists emitted. split; [exact Hc |].
  destruct (Hdet [3; 5] (or_intror (conj eq_refl eq_refl))) as (_ & Hres).
  exact Hres.
Defined.

(** ** The final detectors of [z_memory] *)

(** The final detector of the [k]-th Z-check from the last: its first
    lookback is the last record of the check [q], the others are the
    records of the data qubits next to [q]. *)
Lemma z_final_detector_resolved (h c : nat) (st : list Z) (k : Z) :
  (1 <= h)%nat -> (1 <= c)%nat ->
  0 <= k < (Z.of_nat h + 1) * Z.of_nat c ->
  let rows := 2 * Z.of_nat h + 1 in
  let cols := 2 * Z.of_nat c + 1 in
  let z := qubits_of_role ZCheck (rows, cols) in
  let x := qubits_of_role XCheck (rows, cols) in
  let data := qubits_of_role Data (rows, cols) in
  exists q,
    rev z !! Z.to_nat k = Some q /\
    map (record_at (((st ++ z) ++ x) ++ data))
      ([-1 - k - Z.of_nat (length (data ++ x));
        -1 - k - k / Z.of_nat c * (Z.of_nat c + 1);
        -2 - k - k / Z.of_nat c * (Z.of_nat c + 1)]
       ++ (if 2 * (k / Z.of_nat c) =? 0 then
             [-2 - k - k / Z.of_nat c * (Z.of_nat c + 1) - Z.of_nat c]
           else if 2 * (k / Z.of_nat c) =? rows - 1 then
             [-1 - k - k / Z.of_nat c * (Z.of_nat c + 1) + Z.of_nat c]
           else
             [-1 - k - k / Z.of_nat c * (Z.of_nat c + 1) + Z.of_nat c;
              -2 - k - k / Z.of_nat c * (Z.of_nat c + 1) - Z.of_nat c]))
    = [Some q; Some (q + 1); Some (q - 1)]
      ++ (if (rows - 1) * cols <=? q then [Some (q - cols)]
          else if q <? cols then [Some (q + cols)]
          else [Some (q + cols); Some (q - cols)]).
Proof.
  intros Hh Hc Hk rows cols z x data.
  set (a := k / Z.of_nat c). set (j := k mod Z.of_nat c).
  assert (Hkaj : k = a * Z.of_nat c + j)
    by (unfold a, j; Z.div_mod_to_equations; nia).
  assert (Ha : 0 <= a <= Z.of_nat h)
    by (unfold a; Z.div_mod_to_equations; nia).
  assert (Hj : 0 <= j < Z.of_nat c)
    by (unfold j; Z.div_mod_to_equations; nia).
  pose proof (surface_lengths h c) as Hlen. cbv zeta in Hlen.
  fold rows cols in Hlen. fold z x data in Hlen. destruct Hlen as (Lz & Lx & Ld).
  pose proof (fun s => surface_z_record h c s a j Ha Hj) as Rz.
  pose proof (fun s a t => surface_data_record_even h c s a t) as Re.
  pose proof (fun s a t => surface_data_record_odd h c s a t) as Ro.
  cbv zeta in Rz, Re, Ro. fold rows cols in Rz, Re, Ro. fold z in Rz.
  fold data in Re, Ro. rewrite <- Hkaj in Rz.
  set (q := 2 * (Z.of_nat h - a) * cols + (2 * (Z.of_nat c - 1 - j) + 1)) in *.
  exists q. split.
  - rewrite <- (record_at_rev [] z k) by lia. apply (Rz []).
  - assert (E0 : record_at (((st ++ z) ++ x) ++ data)
                   (-1 - k - Z.of_nat (length (data ++ x))) = Some q).
    { rewrite length_app, Nat2Z.inj_add.
      replace (-1 - k - (Z.of_nat (length data) + Z.of_nat (length x)))
        with (-1 - (k + Z.of_nat (length x)) - Z.of_nat (length data)) by lia.
      rewrite record_at_skip by lia.
      replace (-1 - (k + Z.of_nat (length x))) with (-1 - k - Z.of_nat (length x))
        by lia.
      rewrite record_at_skip by lia. apply Rz. }
    assert (E1 : record_at (((st ++ z) ++ x) ++ data) (-1 - k - a * (Z.of_nat c + 1))
                 = Some (q + 1)).
    { replace (-1 - k - a * (Z.of_nat c + 1)) with (-1 - (a * cols + j))
        by (unfold cols; lia).
      rewrite Re by lia. f_equal. unfold q. lia. }
    assert (E2 : record_at (((st ++ z) ++ x) ++ data) (-2 - k - a * (Z.of_nat c + 1))
                 = Some (q - 1)).
    { replace (-2 - k - a * (Z.of_nat c + 1)) with (-1 - (a * cols + (j + 1)))
        by (unfold cols; lia).
      rewrite Re by lia. f_equal. unfold q. lia. }
    assert (Eup : a < Z.of_nat h ->
              record_at (((st ++ z) ++ x) ++ data)
                (-2 - k - a * (Z.of_nat c + 1) - Z.of_nat c) = Some (q - cols)).
    { intros Hlt.
      replace (-2 - k - a * (Z.of_nat c + 1) - Z.of_nat c)
        with (-1 - (a * cols + (Z.of_nat c + 1) + j)) by (unfold cols; lia).
      rewrite Ro by lia. f_equal. unfold q. lia. }
    assert (Edown : 1 <= a ->
              record_at (((st ++ z) ++ x) ++ data)
                (-1 - k - a * (Z.of_nat c + 1) + Z.of_nat c) = Some (q + cols)).
    { intros Hge.
      replace (-1 - k - a * (Z.of_nat c + 1) + Z.of_nat c)
        with (-1 - ((a - 1) * cols + (Z.of_nat c + 1) + j)) by (unfold cols; lia).
      rewrite Ro by lia. f_equal. unfold q. lia. }
    rewrite map_app. cbn [map]. rewrite E0, E1, E2. f_equal.
    destruct (Z.eqb_spec (2 * a) 0) as [A0 | A0];
      [| destruct (Z.eqb_spec (2 * a) (rows - 1)) as [A1 | A1]].
    + destruct (Z.leb_spec ((rows - 1) * cols) q) as [Q0 | Q0];
        [| unfold q, rows, cols in Q0; nia].
      cbn [map]. now rewrite Eup by lia.
    + destruct (Z.leb_spec ((rows - 1) * cols) q) as [Q0 | Q0];
        [unfold q, rows, cols in Q0; nia |].
      destruct (Z.ltb_spec q cols) as [Q1 | Q1];
        [| unfold q, rows, cols in Q1, A1; nia].
      cbn [map]. now rewrite Edown by lia.
    + destruct (Z.leb_spec ((rows - 1) * cols) q) as [Q0 | Q0];
        [unfold q, rows, cols in Q0; nia |].
      destruct (Z.ltb_spec q cols) as [Q1 | Q1];
        [unfold q, rows, cols in Q1, A1; nia |].
      cbn [map]. unfold rows in A1. now rewrite Eup, Edown by lia.
Qed.

Lemma odd_decompose (n : Z) :
  3 <= n -> n mod 2 <> 0 ->
  exists h : nat, (1 <= h)%nat /\ n = 2 * Z.of_nat h + 1.
Proof.
  intros Hn Hodd. exists (Z.to_nat (n / 2)).
  split; Z.div_mod_to_equations; lia.
Qed.

Lemma surface_code_z_memory_stream (self : StabilizerModel) (code : string)
    (rows cols : Z) (m : StabilizerModel) :
  parse_code code = ok ("surface_code", Some "z_memory") ->
  scale (code_params self) = Some (rows, cols) ->
  3 <= rows -> 3 <= cols ->
  build_code self code = ok m ->
  exists emitted,
    circuit m = circuit self ++ emitted /\
    forall stream,
      resolved "DETECTOR" stream emitted
      = List.concat
          (repeat (map (fun q => [Some q; Some q]) (rev (z_check_qubits m)))
             (rounds self))
        ++ map (fun q =>
                  [Some q; Some (q + 1); Some (q - 1)]
                  ++ (if (rows - 1) * cols <=? q then [Some (q - cols)]
                      else if q <? cols then [Some (q + cols)]
                      else [Some (q + cols); Some (q - cols)]))
             (rev (z_check_qubits m)) /\
      resolved "OBSERVABLE_INCLUDE" stream emitted
      = [map (fun k => Some ((rows - 1 - 2 * k) * cols)) (range (rows / 2 + 1))].
Proof.
  intros Hp Hs Hrows3 Hcols3 Hb.
  destruct (build_surface_code_lists self code _ rows cols m Hp Hs Hb)
    as (Md & Mz & Mx).
  destruct (build_surface_code_inv self code _ rows cols m Hp Hs Hb)
    as (Hrows & Hcols & _).
  destruct (surface_code_stream self code _ rows cols m Hp Hs Hb)
    as (emitted & self' & Hc & Ed & Ez & Ex & _ & Hdet & _).
  destruct (odd_decompose rows Hrows3 Hrows) as (h & Hh & ->).
  destruct (odd_decompose cols Hcols3 Hcols) as (c & Hc1 & ->).
  exists emitted. split; [exact Hc |]. intros stream.
  destruct (Hdet (z_check_qubits m) _ (or_introl (conj eq_refl (conj eq_refl eq_refl))))
    as (_ & Hres).
  destruct (Hres stream) as (st' & -> & ->). clear Hres Hdet.
  assert (Ediv : (2 * Z.of_nat c + 1) / 2 = Z.of_nat c)
    by (Z.div_mod_to_equations; lia).
  pose proof (surface_lengths h c) as Hlen. cbv zeta in Hlen.
  rewrite <- Mz, <- Mx, <- Md in Hlen. destruct Hlen as (Lz & Lx & Ld).
  split.
  - f_equal.
    rewrite (z_final_detectors_closed self' _ (z_check_qubits m))
      by (right; cbn [snd]; rewrite Ediv; lia).
    cbn [fst snd]. rewrite Ediv, Ed, Ex, map_map.
    rewrite <- (map_range_lookup
                  (fun o => match o with
                            | Some q =>
                                [Some q; Some (q + 1); Some (q - 1)]
                                ++ (if (2 * Z.of_nat h + 1 - 1) * (2 * Z.of_nat c + 1) <=? q
                                    then [Some (q - (2 * Z.of_nat c + 1))]
                                    else if q <? 2 * Z.of_nat c + 1
                                         then [Some (q + (2 * Z.of_nat c + 1))]
                                         else [Some (q + (2 * Z.of_nat c + 1));
                                               Some (q - (2 * Z.of_nat c + 1))])
                            | None => []
                            end) (rev (z_check_qubits m))).
    unfold range_len. rewrite length_rev. apply map_ext_in. intros k Hk.
    apply in_range in Hk. rewrite lookbacks_of_DETECTOR.
    destruct (z_final_detector_resolved h c st' k Hh Hc1 ltac:(lia)) as (q & Hq & Hmap).
    cbv zeta in Hq, Hmap. rewrite <- Mz in Hq. rewrite <- Mz, <- Mx, <- Md in Hmap.
    rewrite Hq, <- Hmap. reflexivity.
  - f_equal. unfold observable_lookback_indices.
    rewrite bool_decide_eq_true_2 by reflexivity. cbn [fst snd].
    rewrite map_map, Ediv. apply map_ext_in. intros k Hk. apply in_range in Hk.
    assert (Hkh : 0 <= k <= Z.of_nat h) by (Z.div_mod_to_equations; lia).
    pose proof (surface_data_record_even h c ((st' ++ z_check_qubits m)
                                               ++ x_check_qubits m) k (Z.of_nat c)
                  Hkh ltac:(lia)) as Re.
    cbv zeta in Re. rewrite <- Md in Re.
    replace (- k * (Z.of_nat c + 1 + Z.of_nat c) - (Z.of_nat c + 1))
      with (-1 - (k * (2 * Z.of_nat c + 1) + Z.of_nat c)) by lia.
    rewrite Re. f_equal. lia.
Qed.

(** X18. The detectors and the observable of the [z_memory] surface code
    on a grid of [rows >= 3] by [cols >= 3] (both odd).  Whatever was
    recorded before: both lookbacks of every round detector designate one
    Z-check in two consecutive measurements; the final detector of the
    Z-check [q] designates the last record of [q] and the records of the
    data qubits around it, [q + 1], [q - 1] and, as far as they are on the
    grid, [q + cols] and [q - cols]; the observable is made of the data
    qubits of the first column.  The checks are taken from the last one
    down. *)
Theorem surface_code_z_memory_detectors (code : string)
    (c : option (list instruction)) (n : nat) (a1 a2 a3 a4 : noise_arg)
    (kw : kwargs) (rows cols : Z) (m : StabilizerModel) :
  parse_code code = ok ("surface_code", Some "z_memory") ->
  scale kw = Some (rows, cols) ->
  3 <= rows -> 3 <= cols ->
  StabilizerModel_init code c n a1 a2 a3 a4 kw = ok m ->
  exists emitted,
    circuit m = default [] c ++ emitted /\
    forall stream,
      resolved "DETECTOR" stream emitted
      = List.concat
          (repeat (map (fun q => [Some q; Some q]) (rev (z_check_qubits m))) n)
        ++ map (fun q =>
                  [Some q; Some (q + 1); Some (q - 1)]
                  ++ (if (rows - 1) * cols <=? q then [Some (q - cols)]
                      else if q <? cols then [Some (q + cols)]
                      else [Some (q + cols); Some (q - cols)]))
             (rev (z_check_qubits m)) /\
      resolved "OBSERVABLE_INCLUDE" stream emitted
      = [map (fun k => Some ((rows - 1 - 2 * k) * cols)) (range (rows / 2 + 1))].
Proof.
  intros Hp Hs Hrows Hcols Hinit.
  apply StabilizerModel_init_inv in Hinit as (nc & nd & nz & nx & _ & _ & _ & _ & Hb).
  apply (surface_code_z_memory_stream _ code rows cols m Hp) in Hb;
    [exact Hb | exact Hs | exact Hrows | exact Hcols].
Qed.

Lemma surface_code_z_memory_detectors_witness :
  exists m,
    StabilizerModel_init "surface_code:z_memory" None 1 (NScalar 0) (NScalar 0)
      (NScalar 0) (NScalar 0) (Kwargs None (Some (3, 3)) None None None) = ok m /\
    exists emitted,
      circuit m = emitted /\
      forall stream,
        resolved "DETECTOR" stream emitted
        = [[Some 7; Some 7]; [Some 1; Some 1];
           [Some 7; Some 8; Some 6; Some 4]; [Some 1; Some 2; Some 0; Some 4]] /\
        resolved "OBSERVABLE_INCLUDE" stream emitted = [[Some 6; Some 0]].
Proof.
  eexists. split; [reflexivity |].
  exact (surface_code_z_memory_detectors "surface_code:z_memory" None 1 (NScalar 0)
           (NScalar 0) (NScalar 0) (NScalar 0)
           (Kwargs None (Some (3, 3)) None None None) 3 3 _ eq_refl eq_refl
           ltac:(lia) ltac:(lia) eq_refl).
Defined.

(** ** The final detectors of [x_memory] *)

(** The final detector of the [k]-th X-check from the last, [q]: the
    records of the data qubits left and right of [q], then the last record
    of the [k]-th Z-check from the last, then the records of the data
    qubits [q + cols] and [q + cols - 2]. *)
Lemma x_final_detector_resolved (h c : nat) (st : list Z) (k : Z) :
  (1 <= h <= c)%nat ->
  0 <= k < Z.of_nat h * (Z.of_nat c + 1) ->
  let rows := 2 * Z.of_nat h + 1 in
  let cols := 2 * Z.of_nat c + 1 in
  let z := qubits_of_role ZCheck (rows, cols) in
  let x := qubits_of_role XCheck (rows, cols) in
  let data := qubits_of_role Data (rows, cols) in
  exists q zq,
    rev x !! Z.to_nat k = Some q /\
    rev z !! Z.to_nat k = Some zq /\
    map (record_at (((st ++ z) ++ x) ++ data))
      ((if k mod (Z.of_nat c + 1) =? 0 then
          [-2 - k - k / (Z.of_nat c + 1) * Z.of_nat c - Z.of_nat c]
        else if k mod (Z.of_nat c + 1) =? Z.of_nat c + 1 - 1 then
          [-1 - k - k / (Z.of_nat c + 1) * Z.of_nat c - Z.of_nat c]
        else
          [-2 - k - k / (Z.of_nat c + 1) * Z.of_nat c - Z.of_nat c;
           -1 - k - k / (Z.of_nat c + 1) * Z.of_nat c - Z.of_nat c])
       ++ [-1 - k - Z.of_nat (length (data ++ x));
           -1 - k - k / (Z.of_nat c + 1) * Z.of_nat c;
           -2 - k - k / (Z.of_nat c + 1) * Z.of_nat c])
    = (if q mod cols =? cols - 1 then [Some (q - 1)]
       else if q mod cols =? 0 then [Some (q + 1)]
       else [Some (q - 1); Some (q + 1)])
      ++ [Some zq; Some (q + cols); Some (q + cols - 2)].
Proof.
  intros Hh Hk rows cols z x data.
  set (a := k / (Z.of_nat c + 1)). set (j := k mod (Z.of_nat c + 1)).
  assert (Hkaj : k = a * (Z.of_nat c + 1) + j)
    by (unfold a, j; Z.div_mod_to_equations; nia).
  assert (Ha : 0 <= a < Z.of_nat h)
    by (unfold a; Z.div_mod_to_equations; nia).
  assert (Hj : 0 <= j <= Z.of_nat c)
    by (unfold j; Z.div_mod_to_equations; nia).
  pose proof (surface_lengths h c) as Hlen. cbv zeta in Hlen.
  fold rows cols in Hlen. fold z x data in Hlen. destruct Hlen as (Lz & Lx & Ld).
  pose proof (fun s => surface_x_record h c s a j Ha Hj) as Rx.
  pose proof (fun s a t => surface_data_record_even h c s a t) as Re.
  pose proof (fun s a t => surface_data_record_odd h c s a t) as Ro.
  cbv zeta in Rx, Re, Ro. fold rows cols in Rx, Re, Ro. fold x in Rx.
  fold data in Re, Ro. rewrite <- Hkaj in Rx.
  set (q := (2 * (Z.of_nat h - 1 - a) + 1) * cols + 2 * (Z.of_nat c - j)) in *.
  assert (Hkz : 0 <= k < Z.of_nat (length z)) by nia.
  destruct (rev z !! Z.to_nat k) as [zq |] eqn:Hzq;
    [| apply lookup_ge_None in Hzq; rewrite length_rev in Hzq; lia].
  exists q, zq. split; [| split; [reflexivity |]].
  - rewrite <- (record_at_rev [] x k) by lia. apply (Rx []).
  - assert (Hqmod : q mod cols = 2 * (Z.of_nat c - j)).
    { unfold q. rewrite Z.add_comm, Z_mod_plus_full.
      apply Z.mod_small. unfold cols. lia. }
    assert (E0 : record_at (((st ++ z) ++ x) ++ data)
                   (-1 - k - Z.of_nat (length (data ++ x))) = Some zq).
    { rewrite length_app, Nat2Z.inj_add.
      replace (-1 - k - (Z.of_nat (length data) + Z.of_nat (length x)))
        with (-1 - (k + Z.of_nat (length x)) - Z.of_nat (length data)) by lia.
      rewrite record_at_skip by lia.
      replace (-1 - (k + Z.of_nat (length x))) with (-1 - k - Z.of_nat (length x))
        by lia.
      rewrite record_at_skip by lia. now rewrite record_at_rev by lia. }
    assert (E1 : record_at (((st ++ z) ++ x) ++ data) (-1 - k - a * Z.of_nat c)
                 = Some (q + cols)).
    { replace (-1 - k - a * Z.of_nat c) with (-1 - (a * cols + j))
        by (unfold cols; lia).
      rewrite Re by lia. f_equal. unfold q. lia. }
    assert (E2 : record_at (((st ++ z) ++ x) ++ data) (-2 - k - a * Z.of_nat c)
                 = Some (q + cols - 2)).
    { destruct (decide (j = Z.of_nat c)) as [Ej | Ej].
      - replace (-2 - k - a * Z.of_nat c)
          with (-1 - (a * cols + (Z.of_nat c + 1) + 0)) by (unfold cols; lia).
        rewrite Ro by lia. f_equal. unfold q, cols. lia.
      - replace (-2 - k - a * Z.of_nat c) with (-1 - (a * cols + (j + 1)))
          by (unfold cols; lia).
        rewrite Re by lia. f_equal. unfold q. lia. }
    assert (Eleft : j < Z.of_nat c ->
              record_at (((st ++ z) ++ x) ++ data)
                (-2 - k - a * Z.of_nat c - Z.of_nat c) = Some (q - 1)).
    { intros Hlt.
      replace (-2 - k - a * Z.of_nat c - Z.of_nat c)
        with (-1 - (a * cols + (Z.of_nat c + 1) + j)) by (unfold cols; lia).
      rewrite Ro by lia. f_equal. unfold q. lia. }
    assert (Eright : 1 <= j ->
              record_at (((st ++ z) ++ x) ++ data)
                (-1 - k - a * Z.of_nat c - Z.of_nat c) = Some (q + 1)).
    { intros Hge.
      replace (-1 - k - a * Z.of_nat c - Z.of_nat c)
        with (-1 - (a * cols + (Z.of_nat c + 1) + (j - 1))) by (unfold cols; lia).
      rewrite Ro by lia. f_equal. unfold q. lia. }
    rewrite map_app. cbn [map]. rewrite E0, E1, E2. f_equal.
    rewrite Hqmod.
    destruct (Z.eqb_spec j 0) as [J0 | J0];
      [| destruct (Z.eqb_spec j (Z.of_nat c + 1 - 1)) as [J1 | J1]].
    + destruct (Z.eqb_spec (2 * (Z.of_nat c - j)) (cols - 1)) as [Q0 | Q0];
        [| unfold cols in Q0; lia].
      cbn [map]. now rewrite Eleft by lia.
    + destruct (Z.eqb_spec (2 * (Z.of_nat c - j)) (cols - 1)) as [Q0 | Q0];
        [unfold cols in Q0; lia |].
      destruct (Z.eqb_spec (2 * (Z.of_nat c - j)) 0) as [Q1 | Q1]; [| lia].
      cbn [map]. now rewrite Eright by lia.
    + destruct (Z.eqb_spec (2 * (Z.of_nat c - j)) (cols - 1)) as [Q0 | Q0];
        [unfold cols in Q0; lia |].
      destruct (Z.eqb_spec (2 * (Z.of_nat c - j)) 0) as [Q1 | Q1]; [lia |].
      cbn [map]. now rewrite Eleft, Eright by lia.
Qed.

Lemma surface_code_x_memory_stream (self : StabilizerModel) (code : string)
    (rows cols : Z) (m : StabilizerModel) :
  parse_code code = ok ("surface_code", Some "x_memory") ->
  scale (code_params self) = Some (rows, cols) ->
  3 <= rows -> rows <= cols ->
  build_code self code = ok m ->
  exists emitted,
    circuit m = circuit self ++ emitted /\
    forall stream,
      resolved "DETECTOR" stream emitted
      = List.concat
          (repeat (map (fun q => [Some q; Some q]) (rev (x_check_qubits m)))
             (rounds self))
        ++ map (fun p =>
                  (if p.1 mod cols =? cols - 1 then [Some (p.1 - 1)]
                   else if p.1 mod cols =? 0 then [Some (p.1 + 1)]
                   else [Some (p.1 - 1); Some (p.1 + 1)])
                  ++ [Some p.2; Some (p.1 + cols); Some (p.1 + cols - 2)])
             (zip (rev (x_check_qubits m)) (rev (z_check_qubits m))) /\
      resolved "OBSERVABLE_INCLUDE" stream emitted
      = [map (fun k => Some ((rows - 1) * cols + (cols - 1 - 2 * k)))
           (range (cols / 2 + 1))].
Proof.
  intros Hp Hs Hrows3 Hle Hb.
  destruct (build_surface_code_lists self code _ rows cols m Hp Hs Hb)
    as (Md & Mz & Mx).
  destruct (build_surface_code_inv self code _ rows cols m Hp Hs Hb)
    as (Hrows & Hcols & _).
  destruct (surface_code_stream self code _ rows cols m Hp Hs Hb)
    as (emitted & self' & Hc & Ed & Ez & Ex & _ & Hdet & _).
  destruct (odd_decompose rows Hrows3 Hrows) as (h & Hh & ->).
  destruct (odd_decompose cols ltac:(lia) Hcols) as (c & Hc1 & ->).
  exists emitted. split; [exact Hc |]. intros stream.
  destruct (Hdet (x_check_qubits m) _
              (or_intror (conj eq_refl (conj eq_refl eq_refl)))) as (_ & Hres).
  destruct (Hres stream) as (st' & -> & ->). clear Hres Hdet.
  assert (Ediv : (2 * Z.of_nat c + 1) / 2 = Z.of_nat c)
    by (Z.div_mod_to_equations; lia).
  pose proof (surface_lengths h c) as Hlen. cbv zeta in Hlen.
  rewrite <- Mz, <- Mx, <- Md in Hlen. destruct Hlen as (Lz & Lx & Ld).
  split.
  - f_equal.
    rewrite (x_final_detectors_closed self' _ (x_check_qubits m))
      by (right; cbn [snd]; rewrite Ediv; lia).
    cbn [fst snd]. rewrite Ediv, Ed, Ex, map_map.
    set (l := zip (rev (x_check_qubits m)) (rev (z_check_qubits m))).
    assert (Hl : length l = length (x_check_qubits m)).
    { unfold l. rewrite length_zip, !length_rev. nia. }
    rewrite <- (map_range_lookup
                  (fun o => match o with
                            | Some p =>
                                (if p.1 mod (2 * Z.of_nat c + 1) =? 2 * Z.of_nat c + 1 - 1
                                 then [Some (p.1 - 1)]
                                 else if p.1 mod (2 * Z.of_nat c + 1) =? 0
                                      then [Some (p.1 + 1)]
                                      else [Some (p.1 - 1); Some (p.1 + 1)])
                                ++ [Some p.2; Some (p.1 + (2 * Z.of_nat c + 1));
                                    Some (p.1 + (2 * Z.of_nat c + 1) - 2)]
                            | None => []
                            end) l).
    unfold range_len. rewrite Hl. apply map_ext_in. intros k Hk.
    apply in_range in Hk. rewrite lookbacks_of_DETECTOR.
    destruct (x_final_detector_resolved h c st' k ltac:(lia) ltac:(lia))
      as (q & zq & Hq & Hzq & Hmap).
    cbv zeta in Hq, Hzq, Hmap. rewrite <- Mx in Hq. rewrite <- Mz in Hzq.
    rewrite <- Mz, <- Mx, <- Md in Hmap.
    assert (Hlk : l !! Z.to_nat k = Some (q, zq))
      by (apply lookup_zip_Some; split; assumption).
    rewrite Hlk. cbn [fst snd]. rewrite <- Hmap. reflexivity.
  - f_equal. unfold observable_lookback_indices.
    rewrite bool_decide_eq_false_2 by discriminate.
    rewrite bool_decide_eq_true_2 by reflexivity. cbn [fst snd].
    rewrite map_map, Ediv. apply map_ext_in. intros k Hk. apply in_range in Hk.
    pose proof (surface_data_record_even h c ((st' ++ z_check_qubits m)
                                               ++ x_check_qubits m) 0 k
                  ltac:(lia) ltac:(lia)) as Re.
    cbv zeta in Re. rewrite <- Md in Re.
    replace (-1 - k) with (-1 - (0 * (2 * Z.of_nat c + 1) + k)) by lia.
    rewrite Re. f_equal. lia.
Qed.

(** X19. The detectors and the observable of the [x_memory] surface code
    on a grid of [rows >= 3] by [cols >= rows] (both odd), as the circuit
    has them.  Both lookbacks of every round detector designate one
    X-check in two consecutive measurements.  The final detector of the
    X-check [q], the [k]-th from the last, designates the records of the
    data qubits [q - 1] and [q + 1] (as far as they are on the grid), then
    the last record of the [k]-th Z-check from the last and not a record
    of [q], then the records of the data qubits [q + cols] and
    [q + cols - 2]; no lookback designates the data qubit [q - cols].  The
    observable is made of the data qubits of the last row. *)
Theorem surface_code_x_memory_detectors (code : string)
    (c : option (list instruction)) (n : nat) (a1 a2 a3 a4 : noise_arg)
    (kw : kwargs) (rows cols : Z) (m : StabilizerModel) :
  parse_code code = ok ("surface_code", Some "x_memory") ->
  scale kw = Some (rows, cols) ->
  3 <= rows -> rows <= cols ->
  StabilizerModel_init code c n a1 a2 a3 a4 kw = ok m ->
  exists emitted,
    circuit m = default [] c ++ emitted /\
    forall stream,
      resolved "DETECTOR" stream emitted
      = List.concat
          (repeat (map (fun q => [Some q; Some q]) (rev (x_check_qubits m))) n)
        ++ map (fun p =>
                  (if p.1 mod cols =? cols - 1 then [Some (p.1 - 1)]
                   else if p.1 mod cols =? 0 then [Some (p.1 + 1)]
                   else [Some (p.1 - 1); Some (p.1 + 1)])
                  ++ [Some p.2; Some (p.1 + cols); Some (p.1 + cols - 2)])
             (zip (rev (x_check_qubits m)) (rev (z_check_qubits m))) /\
      resolved "OBSERVABLE_INCLUDE" stream emitted
      = [map (fun k => Some ((rows - 1) * cols + (cols - 1 - 2 * k)))
           (range (cols / 2 + 1))].
Proof.
  intros Hp Hs Hrows Hcols Hinit.
  apply StabilizerModel_init_inv in Hinit as (nc & nd & nz & nx & _ & _ & _ & _ & Hb).
  apply (surface_code_x_memory_stream _ code rows cols m Hp) in Hb;
    [exact Hb | exact Hs | exact Hrows | exact Hcols].
Qed.

Lemma surface_code_x_memory_detectors_witness :
  exists m,
    StabilizerModel_init "surface_code:x_memory" None 1 (NScalar 0) (NScalar 0)
      (NScalar 0) (NScalar 0) (Kwargs None (Some (3, 3)) None None None) = ok m /\
    exists emitted,
      circuit m = emitted /\
      forall stream,
        resolved "DETECTOR" stream emitted
        = [[Some 5; Some 5]; [Some 3; Some 3];
           [Some 4; Some 7; Some 8; Some 6]; [Some 4; Some 1; Some 6; Some 4]] /\
        resolved "OBSERVABLE_INCLUDE" stream emitted = [[Some 8; Some 6]].
Proof.
  eexists. split; [reflexivity |].
  exact (surface_code_x_memory_detectors "surface_code:x_memory" None 1 (NScalar 0)
           (NScalar 0) (NScalar 0) (NScalar 0)
           (Kwargs None (Some (3, 3)) None None None) 3 3 _ eq_refl eq_refl
           ltac:(lia) ltac:(lia) eq_refl).
Defined.

(** ** The roles of the hypergraph-product code *)

Lemma build_hypergraph_code_inv (self : StabilizerModel) (code : string)
    (subcode : option string) (l1 l2 : list token) (m : StabilizerModel) :
  parse_code code = ok ("hypergraph_product_code", subcode) ->
  clist1 (code_params self) = Some l1 ->
  clist2 (code_params self) = Some l2 ->
  build_code self code = ok m ->
  exists H1 H2 HX HZ,
    classical_pcm l1 = ok H1 /\ classical_pcm l2 = ok H2 /\
    hypergraph_pcm H1 H2 = ok (HX, HZ) /\
    let qs := range (Z.of_nat (sum_list (shape H1) * sum_list (shape H2))) in
    qubits m = qs /\
    data_qubits m = qubits_labelled "Q" qs (check_order l1 l2) /\
    z_check_qubits m = qubits_labelled "Z" qs (check_order l1 l2) /\
    x_check_qubits m = qubits_labelled "X" qs (check_order l1 l2).
Proof.
  intros Hp E1 E2. unfold build_code. rewrite Hp. cbn [bind ok].
  change (String.eqb "hypergraph_product_code" "repetition_code") with false.
  change (String.eqb "hypergraph_product_code" "surface_code") with false.
  rewrite String.eqb_refl, E1, E2. cbn [param bind ok].
  destruct (classical_pcm l1) as [e | M1] eqn:Hc1; [discriminate |].
  destruct (classical_pcm l2) as [e | M2] eqn:Hc2; [discriminate |]. cbn [bind].
  unfold _hypergraph_product_code. cbn [set_qubits code_params].
  destruct (pos (code_params self)); [| discriminate].
  rewrite E1, E2. cbn [param bind ok]. rewrite Hc1, Hc2. cbn [bind].
  destruct (hypergraph_pcm M1 M2) as [e | [HX HZ]] eqn:Hh; [discriminate |].
  cbn [bind]. unfold ok. intros [= <-].
  exists M1, M2, HX, HZ. cbv zeta. repeat split. exact Hh.
Qed.

(** The matrix of [classical_pcm]: one-dimensional and empty without a
    check, a matrix with a row per [C] and a column per [B] otherwise. *)
Lemma classical_pcm_shape (clist : list token) (H : ndarray) :
  classical_pcm clist = ok H ->
  (count_tok "C" clist = 0%nat /\ shape H = [0%nat]) \/
  ((1 <= count_tok "C" clist)%nat /\
   matrix_of_shape (count_tok "C" clist) (count_tok "B" clist) H).
Proof.
  unfold classical_pcm.
  destruct (classical_pcm_rows (count_tok "B" clist) clist) as [e | rows] eqn:Hr;
    [discriminate |].
  cbn [bind]. unfold ok. intros [= <-].
  apply classical_pcm_rows_spec in Hr as (Hlen & Hrow & _ & _).
  destruct rows as [| row rows]; cbn [np_array].
  - left. split; [now rewrite <- Hlen | reflexivity].
  - right. rewrite <- Hlen. cbn [length]. split; [lia |].
    split; [reflexivity |]. split; [reflexivity | exact Hrow].
Qed.

Lemma length_qubits_labelled (label : string) (qs : list Z) (order : list string) :
  (length order <= length qs)%nat ->
  length (qubits_labelled label qs order)
  = length (List.filter (fun s => String.eqb s label) order).
Proof.
  unfold qubits_labelled. rewrite length_map. revert qs.
  induction order as [| s order IH]; intros qs Hlen.
  - now destruct qs.
  - destruct qs as [| q qs]; [cbn in Hlen; lia |].
    cbn [zip_with List.filter snd length] in *.
    destruct (String.eqb s label); cbn [length]; rewrite IH; lia.
Qed.

Lemma filter_length_concat {A : Type} (p : A -> bool) (ls : list (list A)) :
  length (List.filter p (List.concat ls))
  = sum_list (map (fun l => length (List.filter p l)) ls).
Proof.
  induction ls as [| l ls IH]; [reflexivity |].
  cbn [List.concat map sum_list]. rewrite List.filter_app, length_app, IH.
  reflexivity.
Qed.

Lemma count_tok_markers (clist : list token) :
  length (List.filter (tok_is "B") (markers clist)) = count_tok "B" clist /\
  (Forall (fun t => is_marker t = true -> tok_is "B" t = true \/ tok_is "C" t = true)
     clist ->
   length (markers clist) = (count_tok "B" clist + count_tok "C" clist)%nat).
Proof.
  unfold markers, count_tok. split.
  - induction clist as [| t clist IH]; [reflexivity |].
    cbn [List.filter]. destruct t as [s | z]; cbn [is_marker tok_is List.filter].
    + destruct (String.eqb s "B"); cbn [length]; now rewrite IH.
    + exact IH.
  - induction 1 as [| t clist Ht _ IH]; [reflexivity |].
    cbn [List.filter]. destruct t as [s | z]; cbn [is_marker tok_is] in *.
    + destruct (Ht eq_refl) as [Hb | Hc].
      * rewrite Hb. apply String.eqb_eq in Hb. subst s.
        change (String.eqb "B" "C") with false. cbn [length]. rewrite IH. lia.
      * rewrite Hc. apply String.eqb_eq in Hc. subst s.
        change (String.eqb "C" "B") with false. cbn [length]. rewrite IH. lia.
    + exact IH.
Qed.

(** How often a label occurs in the order of the checks. *)
Lemma count_check_order (label : string) (l1 l2 : list token) :
  length (List.filter (fun s => String.eqb s label) (check_order l1 l2))
  = (count_tok "B" l1
     * length (List.filter (fun s => String.eqb s label) (z_check_order l2))
     + (length (markers l1) - count_tok "B" l1)
       * length (List.filter (fun s => String.eqb s label) (x_check_order l2)))%nat.
Proof.
  unfold check_order. rewrite filter_length_concat, map_map.
  rewrite <- (proj1 (count_tok_markers l1)).
  induction (markers l1) as [| t ts IH]; [reflexivity |].
  cbn [map sum_list List.filter]. rewrite IH.
  pose proof (filter_length (tok_is "B") ts) as Hle.
  destruct (tok_is "B" t); cbn [length]; unfold id; nia.
Qed.

Lemma count_check_orders (l2 : list token) :
  let nb := count_tok "B" l2 in
  let others := (length (markers l2) - count_tok "B" l2)%nat in
  length (List.filter (fun s => String.eqb s "Q") (z_check_order l2)) = nb /\
  length (List.filter (fun s => String.eqb s "Z") (z_check_order l2)) = others /\
  length (List.filter (fun s => String.eqb s "X") (z_check_order l2)) = 0%nat /\
  length (List.filter (fun s => String.eqb s "Q") (x_check_order l2)) = others /\
  length (List.filter (fun s => String.eqb s "Z") (x_check_order l2)) = 0%nat /\
  length (List.filter (fun s => String.eqb s "X") (x_check_order l2)) = nb /\
  length (z_check_order l2) = length (markers l2) /\
  length (x_check_order l2) = length (markers l2).
Proof.
  intros nb others. unfold nb, others, z_check_order, x_check_order.
  rewrite <- (proj1 (count_tok_markers l2)). rewrite !length_map.
  induction (markers l2) as [| t ts (I1 & I2 & I3 & I4 & I5 & I6 & _)];
    [repeat split |].
  pose proof (filter_length (tok_is "B") ts) as Hle.
  cbn [map List.filter]. destruct (tok_is "B" t);
    cbn [List.filter String.eqb Ascii.eqb Bool.eqb length];
    rewrite ?I1, ?I2, ?I3, ?I4, ?I5, ?I6; repeat split; lia.
Qed.

Lemma length_check_order (l1 l2 : list token) :
  length (check_order l1 l2) = (length (markers l1) * length (markers l2))%nat.
Proof.
  unfold check_order.
  destruct (count_check_orders l2) as (_ & _ & _ & _ & _ & _ & Lz & Lx).
  induction (markers l1) as [| t ts IH]; [reflexivity |].
  cbn [map]. rewrite concat_cons, length_app, IH.
  destruct (tok_is "B" t); rewrite ?Lz, ?Lx; cbn [length]; lia.
Qed.

Lemma hypergraph_pcm_ok_shapes (l1 l2 : list token) (H1 H2 HX HZ : ndarray) :
  classical_pcm l1 = ok H1 -> classical_pcm l2 = ok H2 ->
  hypergraph_pcm H1 H2 = ok (HX, HZ) ->
  (1 <= count_tok "C" l1)%nat /\ (1 <= count_tok "C" l2)%nat /\
  matrix_of_shape (count_tok "C" l1) (count_tok "B" l1) H1 /\
  matrix_of_shape (count_tok "C" l2) (count_tok "B" l2) H2.
Proof.
  intros Hc1 Hc2 Hh.
  destruct (classical_pcm_shape l1 H1 Hc1) as [[_ Hs1] | [Hr1 Hm1]].
  { unfold hypergraph_pcm, unpack_shape in Hh. rewrite Hs1 in Hh. discriminate. }
  destruct (classical_pcm_shape l2 H2 Hc2) as [[_ Hs2] | [Hr2 Hm2]].
  { unfold hypergraph_pcm, unpack_shape in Hh.
    rewrite (proj1 Hm1), Hs2 in Hh. discriminate. }
  auto.
Qed.

(** X20. The roles of the hypergraph-product code.  A construction that
    succeeds has two descriptions with a check each; with [n] the number
    of [B] and [r] the number of [C] of a description, the qubits are
    [0 .. (r1 + n1) (r2 + n2) - 1].  When every string of the two
    descriptions is [B] or [C], there are as many data qubits as [HX] and
    [HZ] have columns, [n1 n2 + r1 r2], as many Z-check qubits as [HZ] has
    rows, [n1 r2], and as many X-check qubits as [HX] has rows,
    [r1 n2]. *)
Theorem hypergraph_product_code_roles (code : string) (subcode : option string)
    (c : option (list instruction)) (n : nat) (a1 a2 a3 a4 : noise_arg)
    (kw : kwargs) (l1 l2 : list token) (m : StabilizerModel) :
  parse_code code = ok ("hypergraph_product_code", subcode) ->
  clist1 kw = Some l1 -> clist2 kw = Some l2 ->
  StabilizerModel_init code c n a1 a2 a3 a4 kw = ok m ->
  let n1 := count_tok "B" l1 in
  let r1 := count_tok "C" l1 in
  let n2 := count_tok "B" l2 in
  let r2 := count_tok "C" l2 in
  (1 <= r1)%nat /\ (1 <= r2)%nat /\
  qubits m = range (Z.of_nat ((r1 + n1) * (r2 + n2))) /\
  (Forall (fun t => is_marker t = true -> tok_is "B" t = true \/ tok_is "C" t = true)
     l1 ->
   Forall (fun t => is_marker t = true -> tok_is "B" t = true \/ tok_is "C" t = true)
     l2 ->
   length (data_qubits m) = (n1 * n2 + r1 * r2)%nat /\
   length (z_check_qubits m) = (n1 * r2)%nat /\
   length (x_check_qubits m) = (r1 * n2)%nat /\
   exists H1 H2 HX HZ,
     classical_pcm l1 = ok H1 /\ classical_pcm l2 = ok H2 /\
     hypergraph_pcm H1 H2 = ok (HX, HZ) /\
     shape HX = [length (x_check_qubits m); length (data_qubits m)] /\
     shape HZ = [length (z_check_qubits m); length (data_qubits m)]).
Proof.
  intros Hp E1 E2 Hinit n1 r1 n2 r2.
  apply StabilizerModel_init_inv in Hinit as (nc & nd & nz & nx & _ & _ & _ & _ & Hb).
  apply (build_hypergraph_code_inv _ code subcode l1 l2 m Hp) in Hb;
    [| exact E1 | exact E2].
  destruct Hb as (H1 & H2 & HX & HZ & Hc1 & Hc2 & Hh & Hq & Hd & Hz & Hx).
  destruct (hypergraph_pcm_ok_shapes l1 l2 H1 H2 HX HZ Hc1 Hc2 Hh)
    as (Hr1 & Hr2 & Hm1 & Hm2).
  fold n1 r1 in Hr1, Hm1. fold n2 r2 in Hr2, Hm2.
  assert (Hsum : (sum_list (shape H1) * sum_list (shape H2)
                  = (r1 + n1) * (r2 + n2))%nat).
  { rewrite (proj1 Hm1), (proj1 Hm2). cbn. lia. }
  rewrite Hsum in Hq, Hd, Hz, Hx.
  split; [exact Hr1 |]. split; [exact Hr2 |]. split; [exact Hq |].
  intros Hbc1 Hbc2.
  pose proof (proj2 (count_tok_markers l1) Hbc1) as Hk1.
  pose proof (proj2 (count_tok_markers l2) Hbc2) as Hk2.
  fold n1 r1 in Hk1. fold n2 r2 in Hk2.
  assert (Hlen : (length (check_order l1 l2)
                  <= length (range (Z.of_nat ((r1 + n1) * (r2 + n2)))))%nat).
  { rewrite length_check_order, length_range, Hk1, Hk2. lia. }
  destruct (count_check_orders l2) as (Q1 & Q2 & Q3 & Q4 & Q5 & Q6 & _).
  fold n2 in Q1, Q2, Q4, Q6. rewrite Hk2 in Q2, Q4.
  assert (Ld : length (data_qubits m) = (n1 * n2 + r1 * r2)%nat).
  { rewrite Hd, length_qubits_labelled, count_check_order by exact Hlen.
    fold n1. rewrite Q1, Q4, Hk1. nia. }
  assert (Lz : length (z_check_qubits m) = (n1 * r2)%nat).
  { rewrite Hz, length_qubits_labelled, count_check_order by exact Hlen.
    fold n1. rewrite Q2, Q5, Hk1. nia. }
  assert (Lx : length (x_check_qubits m) = (r1 * n2)%nat).
  { rewrite Hx, length_qubits_labelled, count_check_order by exact Hlen.
    fold n1. rewrite Q3, Q6, Hk1. nia. }
  split; [exact Ld |]. split; [exact Lz |]. split; [exact Lx |].
  exists H1, H2, HX, HZ. split; [exact Hc1 |]. split; [exact Hc2 |].
  split; [exact Hh |].
  rewrite (hypergraph_pcm_rows H1 H2 r1 n1 r2 n2 Hm1 Hm2) in Hh.
  unfold ok in Hh. injection Hh as <- <-. cbn [shape].
  rewrite Ld, Lz, Lx. split; reflexivity.
Qed.

Lemma hypergraph_product_code_roles_witness :
  exists m,
    StabilizerModel_init "hypergraph_product_code" None 1 (NScalar 0) (NScalar 0)
      (NScalar 0) (NScalar 0)
      (Kwargs None None
         (Some [TStr "B"; TStr "C"; TInt 0; TInt 1; TStr "B"])
         (Some [TStr "B"; TStr "C"; TInt 0; TInt 1; TStr "B"; TStr "C"; TInt 1])
         (Some ∅)) = ok m /\
    length (data_qubits m) = (2 * 2 + 1 * 2)%nat /\
    length (z_check_qubits m) = (2 * 2)%nat /\
    length (x_check_qubits m) = (1 * 2)%nat.
Proof.
  eexists. split; [reflexivity |].
  destruct (hypergraph_product_code_roles "hypergraph_product_code" None None 1
              (NScalar 0) (NScalar 0) (NScalar 0) (NScalar 0)
              (Kwargs None None
                 (Some [TStr "B"; TStr "C"; TInt 0; TInt 1; TStr "B"])
                 (Some [TStr "B"; TStr "C"; TInt 0; TInt 1; TStr "B"; TStr "C"; TInt 1])
                 (Some ∅)) _ _ _ eq_refl eq_refl eq_refl eq_refl)
    as (_ & _ & _ & Hroles).
  destruct Hroles as (Ld & Lz & Lx & _).
  - repeat constructor; cbn; intros; auto; discriminate.
  - repeat constructor; cbn; intros; auto; discriminate.
  - split; [exact Ld |]. split; [exact Lz | exact Lx].
Defined.

(** ** [shot] *)

Lemma length_resolved (s : string) (stream : list Z) (c : list instruction) :
  length (resolved s stream c) = length (instructions_named s c).
Proof.
  unfold instructions_named. revert stream.
  induction c as [| i c IH]; intros stream; [reflexivity |].
  cbn [resolved List.filter]. rewrite length_app, IH.
  now destruct (has_name s i).
Qed.

Lemma rows_of_spec {A : Type} (a b : nat) (l : list A) :
  length l = (a * b)%nat ->
  length (rows_of a b l) = a /\
  Forall (fun row => length row = b) (rows_of a b l) /\
  List.concat (rows_of a b l) = l.
Proof.
  revert l. induction a as [| a IH]; intros l Hl.
  - destruct l; [repeat split; constructor | discriminate].
  - cbn [rows_of]. destruct (IH (drop b l)) as (I1 & I2 & I3).
    { rewrite length_drop. lia. }
    split; [cbn [length]; now rewrite I1 |]. split.
    + constructor; [rewrite length_take; lia | exact I2].
    + cbn [List.concat]. rewrite I3. apply take_drop.
Qed.

(** [shot] returns exactly when the number of outcomes is a multiple of
    [effective_rounds]. *)
Lemma shot_spec (self : StabilizerModel) (detector : bool) (sample : list bool) :
  let e := if detector then rounds self else (rounds self + 1)%nat in
  let round_list :=
    map (fun outcome : bool =>
           if outcome then (if detector then "x" else "o") else "_") sample in
  (e = 0%nat -> shot self detector sample = inl ZeroDivisionError) /\
  (e <> 0%nat -> (length sample mod e = 0)%nat ->
   exists rows,
     shot self detector sample = inr rows /\
     length rows = e /\
     Forall (fun row => length row = (length sample / e)%nat) rows /\
     List.concat rows = round_list) /\
  (e <> 0%nat -> (length sample mod e <> 0)%nat ->
   shot self detector sample = inl ReshapeError).
Proof.
  intros e round_list. unfold shot. fold e. fold round_list.
  assert (Hlen : length round_list = length sample)
    by (unfold round_list; apply length_map).
  split; [| split].
  - intros ->. reflexivity.
  - intros He Hmod. apply Nat.eqb_neq in He as He'. rewrite He'.
    assert (Hdiv : (e * (length sample / e))%nat = length round_list).
    { rewrite Hlen. pose proof (Nat.div_mod_eq (length sample) e). lia. }
    unfold np_reshape. apply Nat.eqb_eq in Hdiv as Hdiv'. rewrite Hdiv'.
    eexists. split; [reflexivity |].
    apply rows_of_spec. now rewrite Hdiv.
  - intros He Hmod. apply Nat.eqb_neq in He as He'. rewrite He'.
    unfold np_reshape.
    assert (Hdiv : (e * (length sample / e))%nat <> length round_list).
    { rewrite Hlen. pose proof (Nat.div_mod_eq (length sample) e). lia. }
    apply Nat.eqb_neq in Hdiv. now rewrite Hdiv.
Qed.

Lemma length_concat_repeat {A : Type} (l : list A) (n : nat) :
  length (List.concat (repeat l n)) = (n * length l)%nat.
Proof.
  induction n as [| n IH]; [reflexivity |].
  cbn [repeat List.concat]. rewrite length_app, IH. lia.
Qed.

(** The numbers of detectors and of measurement records of the
    repetition code built on an empty circuit. *)
Lemma repetition_code_counts (self : StabilizerModel) (d : Z) (m : StabilizerModel) :
  circuit self = [] ->
  distance (code_params self) = Some d -> 0 <= d ->
  build_code self "repetition_code" = ok m ->
  length (instructions_named "DETECTOR" (circuit m))
  = ((rounds self + 1) * Z.to_nat d)%nat /\
  length (record_stream (circuit m)) = ((rounds self + 2) * Z.to_nat d + 1)%nat.
Proof.
  intros Hc Hd Hpos Hb.
  destruct (repetition_code_stream self d m Hd Hpos Hb) as (emitted & Hm & Hrec & Hres).
  rewrite Hc in Hm. cbn [app] in Hm. rewrite Hm. split.
  - rewrite <- (length_resolved "DETECTOR" []).
    rewrite (proj1 (Hres [])), length_app, length_concat_repeat, !length_map,
      length_range. lia.
  - rewrite Hrec, !length_app, length_concat_repeat, !length_map, !length_range.
    lia.
Qed.

(** X22. [shot] on a repetition code of distance [d >= 0] built on an
    empty circuit, for a sample with one outcome per detector (detector
    sampler) or per measurement record (measurement sampler).  The circuit
    has [(rounds + 1) d] detectors and [(rounds + 2) d + 1] records.  With
    detectors, [shot] fails with a division by zero when there is no
    round, returns [rounds] rows that hold the marked outcomes in order
    when [rounds] divides [d], and otherwise fails in the reshaping.
    Without detectors it returns [rounds + 1] rows when [rounds + 1]
    divides [d + 1], and otherwise fails in the reshaping. *)
Theorem shot_repetition_code (n : nat) (a1 a2 a3 a4 : noise_arg) (kw : kwargs)
    (d : Z) (m : StabilizerModel) :
  distance kw = Some d -> 0 <= d ->
  StabilizerModel_init "repetition_code" None n a1 a2 a3 a4 kw = ok m ->
  length (instructions_named "DETECTOR" (circuit m)) = ((n + 1) * Z.to_nat d)%nat /\
  length (record_stream (circuit m)) = ((n + 2) * Z.to_nat d + 1)%nat /\
  (forall sample,
     length sample = length (instructions_named "DETECTOR" (circuit m)) ->
     (n = 0%nat -> shot m true sample = inl ZeroDivisionError) /\
     (n <> 0%nat -> d mod Z.of_nat n = 0 ->
      exists rows,
        shot m true sample = inr rows /\ length rows = n /\
        List.concat rows = map (fun o : bool => if o then "x" else "_") sample) /\
     (n <> 0%nat -> d mod Z.of_nat n <> 0 ->
      shot m true sample = inl ReshapeError)) /\
  (forall sample,
     length sample = length (record_stream (circuit m)) ->
     ((d + 1) mod (Z.of_nat n + 1) = 0 ->
      exists rows,
        shot m false sample = inr rows /\ length rows = (n + 1)%nat /\
        List.concat rows = map (fun o : bool => if o then "o" else "_") sample) /\
     ((d + 1) mod (Z.of_nat n + 1) <> 0 ->
      shot m false sample = inl ReshapeError)).
Proof.
  intros Hd Hpos Hinit.
  apply StabilizerModel_init_inv in Hinit as (nc & nd & nz & nx & _ & _ & _ & _ & Hb).
  pose proof (build_code_attributes _ _ _ Hb) as (Hr & _).
  cbn [rounds] in Hr.
  apply repetition_code_counts with (d := d) in Hb as (Hdet & Hrec);
    [| reflexivity | exact Hd | exact Hpos].
  cbn [rounds] in Hdet, Hrec.
  split; [exact Hdet |]. split; [exact Hrec |].
  set (D := Z.to_nat d) in *.
  assert (HdD : d = Z.of_nat D) by (unfold D; lia).
  split.
  - intros sample Hlen. rewrite Hdet in Hlen.
    destruct (shot_spec m true sample) as (S0 & S1 & S2).
    cbv zeta in S0, S1, S2. rewrite Hr in S0, S1, S2.
    assert (Hmod : n <> 0%nat ->
              (length sample mod n = 0)%nat <-> d mod Z.of_nat n = 0).
    { intros Hn. rewrite Hlen.
      replace ((n + 1) * D)%nat with (D + D * n)%nat by lia.
      rewrite Nat.Div0.mod_add, HdD, <- Nat2Z.inj_mod. lia. }
    split; [exact S0 |]. split.
    + intros Hn Hdiv.
      destruct (S1 Hn (proj2 (Hmod Hn) Hdiv)) as (rows & E & L & _ & C).
      exists rows. auto.
    + intros Hn Hdiv. apply S2; [exact Hn |]. intros H. apply Hdiv.
      now apply Hmod.
  - intros sample Hlen. rewrite Hrec in Hlen.
    destruct (shot_spec m false sample) as (_ & S1 & S2).
    cbv zeta in S1, S2. rewrite Hr in S1, S2.
    assert (Hmod : (length sample mod (n + 1) = 0)%nat
                   <-> (d + 1) mod (Z.of_nat n + 1) = 0).
    { rewrite Hlen.
      replace ((n + 2) * D + 1)%nat with ((D + 1) + D * (n + 1))%nat by lia.
      rewrite Nat.Div0.mod_add, HdD.
      replace (Z.of_nat D + 1) with (Z.of_nat (D + 1)) by lia.
      replace (Z.of_nat n + 1) with (Z.of_nat (n + 1)) by lia.
      rewrite <- Nat2Z.inj_mod. lia. }
    split.
    + intros Hdiv.
      destruct (S1 ltac:(lia) (proj2 Hmod Hdiv)) as (rows & E & L & _ & C).
      exists rows. auto.
    + intros Hdiv. apply S2; [lia |]. intros H. apply Hdiv. now apply Hmod.
Qed.

Lemma shot_repetition_code_witness :
  exists m,
    StabilizerModel_init "repetition_code" None 2 (NScalar 0) (NScalar 0)
      (NScalar 0) (NScalar 0) (Kwargs (Some 3) None None None None) = ok m /\
    length (instructions_named "DETECTOR" (circuit m)) = ((2 + 1) * Z.to_nat 3)%nat /\
    shot m true (repeat false 9) = inl ReshapeError.
Proof.
  eexists. split; [reflexivity |].
  destruct (shot_repetition_code 2 (NScalar 0) (NScalar 0) (NScalar 0) (NScalar 0)
              (Kwargs (Some 3) None None None None) 3 _ eq_refl ltac:(lia) eq_refl)
    as (Hdet & _ & Hshot & _).
  split; [exact Hdet |].
  destruct (Hshot (repeat false 9) eq_refl) as (_ & _ & Hfail).
  apply Hfail; [discriminate | discriminate].
Defined.
